(** * cine_vision_backend: the CSV import pipeline

    A shallow embedding of the tolerant field parsers ([utils/parser.ts]),
    the header validator ([utils/validator.ts]), the monetary coercions of
    the two row transformers ([services/csv.service.ts] and
    [utils/stream-processor.ts]), the batching state machine of
    [StreamProcessor], the replies of [utils/error-handler.ts] and the
    pipeline of the file importer, followed by the properties established
    about them.

    Conventions of the embedding.
    - A JavaScript string is a [string] whose characters are the code units
      0..255.  Message constants of the source are kept byte for byte.
    - [null] and [undefined] of an optional string are kept apart only where
      the source tells them apart.
    - A function that may throw returns a [Completion]. *)

From Stdlib Require Import Ascii String ZArith QArith Qround Qcanon Lia.
From stdpp Require Import base list strings gmap pretty.

Local Open Scope string_scope.
Local Open Scope list_scope.

(** ** Completions *)

Inductive Completion (A : Type) : Type :=
| Normal (a : A)
| Throw (message : string).
Arguments Normal {A} a.
Arguments Throw {A} message.

Definition tryCatch {A} (body : Completion A) (handler : string -> Completion A)
  : Completion A :=
  match body with
  | Normal a => Normal a
  | Throw m => handler m
  end.

(** ** Strings of the host language *)

Module JsString.

Definition code (c : ascii) : N := N_of_ascii c.

(** White space as recognised by [\s] and by [String.prototype.trim],
    within the code units 0..255: TAB, LF, VT, FF, CR, SP and NBSP. *)
Definition isSpace (c : ascii) : bool :=
  let n := code c in
  ((9 <=? n) && (n <=? 13) || (n =? 32) || (n =? 160))%N.

Definition isUpper (c : ascii) : bool :=
  let n := code c in ((65 <=? n) && (n <=? 90))%N.

Definition isLower (c : ascii) : bool :=
  let n := code c in ((97 <=? n) && (n <=? 122))%N.

Definition isDigit (c : ascii) : bool :=
  let n := code c in ((48 <=? n) && (n <=? 57))%N.

(** The class [\w]. *)
Definition isWord (c : ascii) : bool :=
  isUpper c || isLower c || isDigit c || (code c =? 95)%N.

Definition ascii_eqb (a b : ascii) : bool := (code a =? code b)%N.

(** The double quote. *)
Definition dquote : ascii := ascii_of_N 34.

(** Equality of two characters up to ASCII letter case (flag [i]). *)
Definition ascii_eqb_ci (a b : ascii) : bool :=
  let fold c := if isLower c then (code c - 32)%N else code c in
  (fold a =? fold b)%N.

Definition isEmpty (s : string) : bool :=
  match s with EmptyString => true | String _ _ => false end.

Fixpoint startsWith (p s : string) : bool :=
  match p, s with
  | EmptyString, _ => true
  | String a p', String b s' => ascii_eqb a b && startsWith p' s'
  | String _ _, EmptyString => false
  end.

(** [s.substring(n)]. *)
Fixpoint dropChars (n : nat) (s : string) : string :=
  match n, s with
  | O, _ => s
  | S n', String _ s' => dropChars n' s'
  | S _, EmptyString => EmptyString
  end.

Fixpoint mapChars (f : ascii -> ascii) (s : string) : string :=
  match s with
  | EmptyString => EmptyString
  | String c s' => String (f c) (mapChars f s')
  end.

Fixpoint startsWith_ci (p s : string) : bool :=
  match p, s with
  | EmptyString, _ => true
  | String a p', String b s' => ascii_eqb_ci a b && startsWith_ci p' s'
  | String _ _, EmptyString => false
  end.

(** [s.endsWith(c)] for a one-character argument. *)
Fixpoint endsWithChar (c : ascii) (s : string) : bool :=
  match s with
  | EmptyString => false
  | String a EmptyString => ascii_eqb a c
  | String _ s' => endsWithChar c s'
  end.

Fixpoint includes (p s : string) : bool :=
  startsWith p s ||
  match s with
  | EmptyString => false
  | String _ s' => includes p s'
  end.

Fixpoint includesChar (c : ascii) (s : string) : bool :=
  match s with
  | EmptyString => false
  | String a s' => ascii_eqb a c || includesChar c s'
  end.

Fixpoint trimStart (s : string) : string :=
  match s with
  | EmptyString => EmptyString
  | String c s' => if isSpace c then trimStart s' else s
  end.

Fixpoint trimEnd (s : string) : string :=
  match s with
  | EmptyString => EmptyString
  | String c s' =>
      match trimEnd s' with
      | EmptyString => if isSpace c then EmptyString else String c EmptyString
      | t => String c t
      end
  end.

Definition trim (s : string) : string := trimEnd (trimStart s).

Fixpoint forallChars (p : ascii -> bool) (s : string) : bool :=
  match s with
  | EmptyString => true
  | String c s' => p c && forallChars p s'
  end.

(** Pieces are produced right to left: the head of the result is the
    piece being read. *)
Definition pushChar (c : ascii) (pieces : list string) : list string :=
  match pieces with
  | [] => [String c EmptyString]
  | p :: ps => String c p :: ps
  end.

(** [s.split(c)] for a one-character separator string. *)
Fixpoint splitChar (sep : ascii) (s : string) : list string :=
  match s with
  | EmptyString => [EmptyString]
  | String c s' =>
      if ascii_eqb c sep then EmptyString :: splitChar sep s'
      else pushChar c (splitChar sep s')
  end.

(** [s.split(/,\s*/)]: a comma and the white space that follows it. *)
Fixpoint splitCommaFrom (skipping : bool) (s : string) : list string :=
  match s with
  | EmptyString => [EmptyString]
  | String c s' =>
      if skipping && isSpace c then splitCommaFrom true s'
      else if ascii_eqb c "," then EmptyString :: splitCommaFrom true s'
      else pushChar c (splitCommaFrom false s')
  end.

Definition splitComma (s : string) : list string := splitCommaFrom false s.

Definition startsUpper (s : string) : bool :=
  match s with
  | EmptyString => false
  | String c _ => isUpper c
  end.

(** [s.split(/(?<=[^\s]),\s*(?=[A-Z])/g)]: a comma that follows a
    character other than white space and that is followed, after optional
    white space, by an upper-case letter. [prev] is the character before
    the one being read. *)
Fixpoint splitEntriesFrom (prev : option ascii) (skipping : bool) (s : string)
  : list string :=
  match s with
  | EmptyString => [EmptyString]
  | String c s' =>
      if skipping && isSpace c then splitEntriesFrom (Some c) true s'
      else if ascii_eqb c ","
              && match prev with Some p => negb (isSpace p) | None => false end
              && startsUpper (trimStart s')
           then EmptyString :: splitEntriesFrom (Some c) true s'
           else pushChar c (splitEntriesFrom (Some c) false s')
  end.

Definition splitEntries (s : string) : list string :=
  splitEntriesFrom None false s.

(** [const [namePart] = entry.split(/ as /i)]: the text before the first
    occurrence of [" as "], letter case ignored. *)
Fixpoint beforeAs (s : string) : string :=
  if startsWith_ci " as " s then EmptyString
  else match s with
       | EmptyString => EmptyString
       | String c s' => String c (beforeAs s')
       end.

(** [s] without its last character, and that character. *)
Fixpoint unsnoc (s : string) : option (string * ascii) :=
  match s with
  | EmptyString => None
  | String c s' =>
      match unsnoc s' with
      | None => Some (EmptyString, c)
      | Some (init, l) => Some (String c init, l)
      end
  end.

(** [Array.prototype.filter(Boolean)] on strings. *)
Definition filterBoolean (l : list string) : list string :=
  List.filter (fun s => negb (isEmpty s)) l.

Fixpoint join (sep : string) (l : list string) : string :=
  match l with
  | [] => EmptyString
  | [x] => x
  | x :: rest => x +:+ sep +:+ join sep rest
  end.

End JsString.


(** ** Numbers of the host language *)

Module JsNumber.
Import JsString.

(** A Number: [Fin q] is the finite double whose value is [q] (the sign of
    zero is not tracked). *)
Inductive Num : Type :=
| NaN
| Inf (negative : bool)
| Fin (q : Q).

(** [binade n d] is the [e] with [2^e <= n/d < 2^(e+1)]. *)
Definition binade (n d : positive) : Z :=
  let e0 := (Z.log2 (Zpos n) - Z.log2 (Zpos d))%Z in
  let below :=
    if (0 <=? e0)%Z then (Zpos n <? Zpos d * 2 ^ e0)%Z
    else (Zpos n * 2 ^ (- e0) <? Zpos d)%Z in
  if below then (e0 - 1)%Z else e0.

Definition roundHalfEven (num den : Z) : Z :=
  let fl := (num / den)%Z in
  match (2 * (num mod den) ?= den)%Z with
  | Lt => fl
  | Gt => (fl + 1)%Z
  | Eq => if Z.even fl then fl else (fl + 1)%Z
  end.

(** Round the positive rational [n/d] to binary64, nearest with ties to
    even; [p] is the exponent of the unit in the last place. *)
Definition roundMagnitude (negative : bool) (n d : positive) : Num :=
  let e := binade n d in
  if (1024 <=? e)%Z then Inf negative
  else
    let p := Z.max (e - 52) (-1074) in
    let m :=
      if (0 <=? p)%Z then roundHalfEven (Zpos n) (Zpos d * 2 ^ p)
      else roundHalfEven (Zpos n * 2 ^ (- p)) (Zpos d) in
    let sm := if negative then (- m)%Z else m in
    if (0 <=? p)%Z then
      if (2 ^ 1024 <=? m * 2 ^ p)%Z then Inf negative
      else Fin (inject_Z (sm * 2 ^ p))
    else Fin (Qred (Qmake sm (Z.to_pos (2 ^ (- p))))).

Definition toDouble (q : Q) : Num :=
  match Qnum q with
  | Z0 => Fin 0
  | Zpos n => roundMagnitude false n (Qden q)
  | Zneg n => roundMagnitude true n (Qden q)
  end.

(** The double denoted by the decimal [mant * 10^e10]. *)
Definition ofDecimal (mant e10 : Z) : Num :=
  if (0 <=? e10)%Z then toDouble (inject_Z (mant * 10 ^ e10))
  else toDouble (Qmake mant (Z.to_pos (10 ^ (- e10)))).

(** ToBoolean on a Number. *)
Definition truthy (x : Num) : bool :=
  match x with
  | NaN => false
  | Inf _ => true
  | Fin q => negb (Qeq_bool q 0)
  end.

Definition isNaN (x : Num) : bool :=
  match x with NaN => true | _ => false end.

(** [x || 0]. *)
Definition orZero (x : Num) : Num := if truthy x then x else Fin 0.

Definition isIntegral (x : Num) : bool :=
  match x with
  | Fin q => (Zpos (Qden (Qred q)) =? 1)%Z
  | _ => false
  end.

(** [Math.round]: the nearest integer, ties toward positive infinity. *)
Definition Math_round (x : Num) : Num :=
  match x with
  | Fin q => Fin (inject_Z (Qfloor (q + (1 # 2))%Q))
  | other => other
  end.

(** Truncation toward zero ([Math.trunc]). *)
Definition Math_trunc (x : Num) : Num :=
  match x with
  | Fin q => Fin (inject_Z (Z.quot (Qnum q) (Zpos (Qden q))))
  | other => other
  end.

(** [BigInt(x)] on a Number: a RangeError unless [x] is an integer. *)
Definition BigInt (x : Num) : Completion Z :=
  match x with
  | Fin q =>
      if isIntegral x then Normal (Qnum (Qred q))
      else Throw "The number cannot be converted to a BigInt because it is not an integer"
  | Inf false => Throw "The number Infinity cannot be converted to a BigInt because it is not an integer"
  | Inf true => Throw "The number -Infinity cannot be converted to a BigInt because it is not an integer"
  | NaN => Throw "The number NaN cannot be converted to a BigInt because it is not an integer"
  end.

(** Decimal digits at the head of [s]: their value continuing [acc], how
    many were read, and the rest of [s]. *)
Fixpoint readDigits (acc : Z) (count : nat) (s : string) : Z * nat * string :=
  match s with
  | String c s' =>
      if isDigit c
      then readDigits (10 * acc + Z.of_N (code c - 48))%Z (S count) s'
      else (acc, count, s)
  | EmptyString => (acc, count, s)
  end.

(** An optional sign at the head of [s]. *)
Definition readSign (s : string) : bool * string :=
  match s with
  | String c s' =>
      if ascii_eqb c "-" then (true, s')
      else if ascii_eqb c "+" then (false, s')
      else (false, s)
  | EmptyString => (false, s)
  end.

(** An exponent part [e[+-]digits] at the head of [s], or [None]. *)
Definition readExponent (s : string) : option (Z * string) :=
  match s with
  | String c s' =>
      if ascii_eqb c "e" || ascii_eqb c "E" then
        let '(neg, s1) := readSign s' in
        let '(v, k, s2) := readDigits 0 0 s1 in
        match k with
        | O => None
        | S _ => Some (if neg then (- v)%Z else v, s2)
        end
      else None
  | EmptyString => None
  end.

(** [parseFloat(s)]: the longest prefix of the trimmed input that is a
    decimal literal, correctly rounded. *)
Definition parseFloat (s : string) : Num :=
  let '(neg, s1) := readSign (trimStart s) in
  if startsWith "Infinity" s1 then Inf neg
  else
    let '(ip, ni, s2) := readDigits 0 0 s1 in
    let '(mant, nf, s3) :=
      match s2 with
      | String c s2' =>
          if ascii_eqb c "." then
            let '(m, k, r) := readDigits ip 0 s2' in (m, k, r)
          else (ip, O, s2)
      | EmptyString => (ip, O, s2)
      end in
    match (ni + nf)%nat with
    | O => NaN
    | S _ =>
        let e := match readExponent s3 with
                 | Some (e, _) => e
                 | None => 0%Z
                 end in
        ofDecimal (if neg then (- mant)%Z else mant) (e - Z.of_nat nf)
    end.

(** [parseFloat(v)] where [v] may be [undefined]. *)
Definition parseFloatOpt (v : option string) : Num :=
  match v with
  | Some s => parseFloat s
  | None => NaN
  end.

(** [parseInt(s, 10)]. *)
Definition parseInt (s : string) : Num :=
  let '(neg, s1) := readSign (trimStart s) in
  let '(v, k, _) := readDigits 0 0 s1 in
  match k with
  | O => NaN
  | S _ => toDouble (inject_Z (if neg then (- v)%Z else v))
  end.

(** [Number.prototype.toString] is taken from the host. *)
Class NumberFormat := Number_toString : Num -> string.

(** A host that is exact on the integers that print without an exponent;
    it stands for the host wherever a closed term needs one. *)
Definition integerFormat : NumberFormat := fun n =>
  match n with
  | NaN => "NaN"
  | Inf false => "Infinity"
  | Inf true => "-Infinity"
  | Fin q => pretty (Qfloor q)
  end.

End JsNumber.

(** ** JSON values and [JSON.parse] *)

Module Json.
Import JsString JsNumber.

#[warnings="-register-all"]
Inductive JVal : Type :=
| JNull
| JBool (b : bool)
| JNum (n : Num)
| JStr (s : string)
| JArr (items : list JVal)
| JObj (members : list (string * JVal)).

(** JSON white space: TAB, LF, CR and SP. *)
Definition isJsonSpace (c : ascii) : bool :=
  let n := code c in ((n =? 9) || (n =? 10) || (n =? 13) || (n =? 32))%N.

Fixpoint skipWs (s : string) : string :=
  match s with
  | String c s' => if isJsonSpace c then skipWs s' else s
  | EmptyString => s
  end.

Definition hexValue (c : ascii) : option N :=
  let n := code c in
  if isDigit c then Some (n - 48)%N
  else if ((97 <=? n) && (n <=? 102))%N then Some (n - 87)%N
  else if ((65 <=? n) && (n <=? 70))%N then Some (n - 55)%N
  else None.

(** The four hexadecimal digits of a [\u] escape.  A code unit above 255
    lies outside the alphabet of this embedding and is refused. *)
Definition readUnicodeEscape (s : string) : option (ascii * string) :=
  match s with
  | String a (String b (String c (String d rest))) =>
      match hexValue a, hexValue b, hexValue c, hexValue d with
      | Some x, Some y, Some z, Some w =>
          let u := (((x * 16 + y) * 16 + z) * 16 + w)%N in
          if (u <? 256)%N then Some (ascii_of_N u, rest) else None
      | _, _, _, _ => None
      end
  | _ => None
  end.

(** The characters of a string literal after its opening quote. *)
Fixpoint readString (fuel : nat) (s : string) : option (string * string) :=
  match fuel with
  | O => None
  | S fuel' =>
      match s with
      | EmptyString => None
      | String c s' =>
          if ascii_eqb c dquote then Some (EmptyString, s')
          else if ascii_eqb c "\" then
            match s' with
            | EmptyString => None
            | String e s'' =>
                let continue (ch : ascii) (rest : string) :=
                  match readString fuel' rest with
                  | Some (str, r) => Some (String ch str, r)
                  | None => None
                  end in
                if ascii_eqb e dquote then continue dquote s''
                else if ascii_eqb e "\" then continue "\"%char s''
                else if ascii_eqb e "/" then continue "/"%char s''
                else if ascii_eqb e "b" then continue (ascii_of_N 8) s''
                else if ascii_eqb e "f" then continue (ascii_of_N 12) s''
                else if ascii_eqb e "n" then continue (ascii_of_N 10) s''
                else if ascii_eqb e "r" then continue (ascii_of_N 13) s''
                else if ascii_eqb e "t" then continue (ascii_of_N 9) s''
                else if ascii_eqb e "u" then
                  match readUnicodeEscape s'' with
                  | Some (ch, rest) => continue ch rest
                  | None => None
                  end
                else None
            end
          else if (code c <? 32)%N then None
          else
            match readString fuel' s' with
            | Some (str, r) => Some (String c str, r)
            | None => None
            end
      end
  end.

(** A JSON number: an optional minus sign, an integer part without
    superfluous leading zero, an optional fraction with at least one digit,
    an optional exponent with at least one digit. *)
Definition readNumber (s : string) : option (Num * string) :=
  let '(neg, s1) :=
    match s with
    | String c s' => if ascii_eqb c "-" then (true, s') else (false, s)
    | EmptyString => (false, s)
    end in
  let intPart :=
    match s1 with
    | String c s' =>
        if ascii_eqb c "0" then Some (0%Z, s')
        else if isDigit c then
          let '(v, _, r) := readDigits 0 0 s1 in Some (v, r)
        else None
    | EmptyString => None
    end in
  match intPart with
  | None => None
  | Some (ip, s2) =>
      let fracPart :=
        match s2 with
        | String c s' =>
            if ascii_eqb c "." then
              let '(m, k, r) := readDigits ip 0 s' in
              match k with
              | O => None
              | S _ => Some (m, k, r)
              end
            else Some (ip, O, s2)
        | EmptyString => Some (ip, O, s2)
        end in
      match fracPart with
      | None => None
      | Some (mant, nf, s3) =>
          let expPart :=
            match s3 with
            | String c _ =>
                if ascii_eqb c "e" || ascii_eqb c "E" then
                  match readExponent s3 with
                  | Some (e, r) => Some (e, r)
                  | None => None
                  end
                else Some (0%Z, s3)
            | EmptyString => Some (0%Z, s3)
            end in
          match expPart with
          | None => None
          | Some (e, s4) =>
              Some (ofDecimal (if neg then (- mant)%Z else mant)
                              (e - Z.of_nat nf), s4)
          end
      end
  end.

Fixpoint readValue (fuel : nat) (s : string) {struct fuel}
  : option (JVal * string) :=
  match fuel with
  | O => None
  | S fuel' =>
      let s := skipWs s in
      match s with
      | EmptyString => None
      | String c s' =>
          if startsWith "null" s then Some (JNull, dropChars 4 s)
          else if startsWith "true" s then Some (JBool true, dropChars 4 s)
          else if startsWith "false" s then Some (JBool false, dropChars 5 s)
          else if ascii_eqb c dquote then
            match readString (S (String.length s')) s' with
            | Some (str, r) => Some (JStr str, r)
            | None => None
            end
          else if ascii_eqb c "[" then
            match skipWs s' with
            | String d r =>
                if ascii_eqb d "]" then Some (JArr [], r)
                else match readElements fuel' (String d r) with
                     | Some (vs, r') => Some (JArr vs, r')
                     | None => None
                     end
            | EmptyString => None
            end
          else if ascii_eqb c "{" then
            match skipWs s' with
            | String d r =>
                if ascii_eqb d "}" then Some (JObj [], r)
                else match readMembers fuel' (String d r) with
                     | Some (ms, r') => Some (JObj ms, r')
                     | None => None
                     end
            | EmptyString => None
            end
          else
            match readNumber s with
            | Some (n, r) => Some (JNum n, r)
            | None => None
            end
      end
  end
with readElements (fuel : nat) (s : string) {struct fuel}
  : option (list JVal * string) :=
  match fuel with
  | O => None
  | S fuel' =>
      match readValue fuel' s with
      | None => None
      | Some (v, r) =>
          match skipWs r with
          | String c r' =>
              if ascii_eqb c "," then
                match readElements fuel' r' with
                | Some (vs, r'') => Some (v :: vs, r'')
                | None => None
                end
              else if ascii_eqb c "]" then Some ([v], r')
              else None
          | EmptyString => None
          end
      end
  end
with readMembers (fuel : nat) (s : string) {struct fuel}
  : option (list (string * JVal) * string) :=
  match fuel with
  | O => None
  | S fuel' =>
      match skipWs s with
      | String q s1 =>
          if ascii_eqb q dquote then
            match readString (S (String.length s1)) s1 with
            | None => None
            | Some (key, s2) =>
                match skipWs s2 with
                | String colon s3 =>
                    if ascii_eqb colon ":" then
                      match readValue fuel' s3 with
                      | None => None
                      | Some (v, r) =>
                          match skipWs r with
                          | String c r' =>
                              if ascii_eqb c "," then
                                match readMembers fuel' r' with
                                | Some (ms, r'') => Some ((key, v) :: ms, r'')
                                | None => None
                                end
                              else if ascii_eqb c "}" then Some ([(key, v)], r')
                              else None
                          | EmptyString => None
                          end
                      end
                    else None
                | EmptyString => None
                end
            end
          else None
      | EmptyString => None
      end
  end.

(** [JSON.parse(text)]; a SyntaxError is a [Throw].  Two units of fuel per
    character cover every chain of calls. *)
Definition JSON_parse (text : string) : Completion JVal :=
  match readValue (2 * String.length text + 2) text with
  | Some (v, rest) =>
      if isEmpty (skipWs rest) then Normal v
      else Throw "Unexpected non-whitespace character after JSON"
  | None => Throw "Unexpected token in JSON"
  end.

(** A JSON text written with apostrophes in place of the double quotes. *)
Definition jsonText (s : string) : string :=
  mapChars (fun c => if ascii_eqb c "'" then dquote else c) s.

(** ToBoolean. *)
Definition truthyVal (v : JVal) : bool :=
  match v with
  | JNull => false
  | JBool b => b
  | JNum n => truthy n
  | JStr s => negb (isEmpty s)
  | JArr _ | JObj _ => true
  end.

(** The value bound to [key] by the last member that has this name. *)
Fixpoint lastMember (key : string) (ms : list (string * JVal)) : option JVal :=
  match ms with
  | [] => None
  | (k, v) :: rest =>
      match lastMember key rest with
      | Some w => Some w
      | None => if String.eqb k key then Some v else None
      end
  end.

(** [String(v)] for the primitive values. *)
Definition primitiveToString `{NumberFormat} (v : JVal) : string :=
  match v with
  | JNull => "null"
  | JBool true => "true"
  | JBool false => "false"
  | JNum n => Number_toString n
  | JStr s => s
  | JArr _ | JObj _ => "[object Object]"
  end.

End Json.

(** ** The tolerant field parsers ([utils/parser.ts]) *)

Module Parser.
Import JsString JsNumber Json.

(** The declared argument type [string | null | undefined]. *)
Inductive JsInput : Type :=
| Undefined
| Null
| Str (s : string).

(** An object literal [{ name: v }]. *)
Definition named (v : JVal) : JVal := JObj [("name", v)].

(** [c.name] and [c.id] on a value that is not a string: a TypeError on
    [null], [undefined] on the other primitives and on arrays. *)
Definition property (key : string) (c : JVal) : Completion (option JVal) :=
  match c with
  | JNull => Throw ("Cannot read properties of null (reading '" +:+ key +:+ "')")
  | JObj ms => Normal (lastMember key ms)
  | _ => Normal None
  end.

(** [v || fallback] where [v] may be [undefined]. *)
Definition orElse (v : option JVal) (fallback : JVal) : JVal :=
  match v with
  | Some w => if truthyVal w then w else fallback
  | None => fallback
  end.

(** [Array.prototype.map] with a callback that may throw. *)
Fixpoint mapM {A B} (f : A -> Completion B) (l : list A) : Completion (list B) :=
  match l with
  | [] => Normal []
  | x :: rest =>
      match f x with
      | Throw m => Throw m
      | Normal y =>
          match mapM f rest with
          | Throw m => Throw m
          | Normal ys => Normal (y :: ys)
          end
      end
  end.

(** The callback of [parsed.map] in [parseProductionCompanies]. *)
Definition companyOf (c : JVal) : Completion JVal :=
  match c with
  | JStr s => Normal (named (JStr s))
  | _ =>
      match property "name" c with
      | Throw m => Throw m
      | Normal n =>
          match property "id" c with
          | Throw m => Throw m
          | Normal i =>
              Normal (JObj [("name", orElse n (JStr "Unknown"));
                            ("id", orElse i JNull)])
          end
      end
  end.

(** [/^\[([\w\s&.-]+)\]$/]: the captured group, when the pattern matches. *)
Definition simpleCompany (s : string) : option string :=
  match s with
  | String open rest =>
      if ascii_eqb open "[" then
        match unsnoc rest with
        | Some (inner, close) =>
            if ascii_eqb close "]"
               && negb (isEmpty inner)
               && forallChars (fun c => isWord c || isSpace c
                                        || ascii_eqb c "&" || ascii_eqb c "."
                                        || ascii_eqb c "-") inner
            then Some inner else None
        | None => None
        end
      else None
  | EmptyString => None
  end.

Definition namesOf (pieces : list string) : list JVal :=
  map (fun name => named (JStr (trim name))) pieces.

(** The statements of the outer [try] block, for a non-empty string.  The
    branch for an argument that is already an object cannot be taken at
    the declared argument type. *)
Definition companiesPrimary (input : string) : Completion (list JVal) :=
  let plain :=
    if includesChar "|" input then Normal (namesOf (splitChar "|" input))
    else Normal (namesOf (filterBoolean (splitComma input))) in
  if startsWith "[" input && endsWithChar "]" input then
    match simpleCompany input with
    | Some inner => Normal [named (JStr (trim inner))]
    | None =>
        match JSON_parse input with
        | Normal (JArr items) =>
            match mapM companyOf items with
            | Normal companies => Normal companies
            | Throw _ => plain
            end
        | Normal _ => plain
        | Throw _ => plain
        end
    end
  else plain.

(** The statements of the [try] block inside the outer [catch]. *)
Definition companiesBackup (input : string) : Completion (list JVal) :=
  if startsWith "[" input && endsWithChar "]" input then
    match input with
    | String _ rest =>
        match unsnoc rest with
        | Some (inner, _) => Normal [named (JStr (trim inner))]
        | None => Normal [named (JStr EmptyString)]
        end
    | EmptyString => Normal [named (JStr EmptyString)]
    end
  else if includesChar "," input then
    Normal (namesOf (filterBoolean (splitComma input)))
  else if includesChar "|" input then Normal (namesOf (splitChar "|" input))
  else if includesChar ";" input then Normal (namesOf (splitChar ";" input))
  else Normal [named (JStr (trim input))].

(** The nesting of [try] and [catch] of [parseProductionCompanies], for
    arbitrary statements in the two [try] blocks. *)
Definition companiesWith (primary backup : string -> Completion (list JVal))
    (input : JsInput) : Completion (list JVal) :=
  match input with
  | Undefined | Null => Normal []
  | Str s =>
      if isEmpty s then Normal []
      else tryCatch (primary s)
             (fun _ => tryCatch (backup s)
                         (fun _ => Normal [named (JStr s)]))
  end.

Definition parseProductionCompanies (input : JsInput) : Completion (list JVal) :=
  companiesWith companiesPrimary companiesBackup input.

Section Cast.
Context `{NumberFormat}.

(** The callback of [parsed.map] in [parseCastNames]. *)
Definition actorName (actor : JVal) : JVal :=
  match actor with
  | JStr s => JStr s
  | JObj ms => orElse (lastMember "name" ms) (JStr "Unknown Actor")
  | JArr _ => JStr "Unknown Actor"
  | other => JStr (primitiveToString other)
  end.

(** The part of the two cast parsers that does not depend on the shape
    of an entry: every entry is a value, [wrap] builds the entry. *)
Definition castPrimary (wrap : JVal -> JVal) (input : string)
  : Completion (list JVal) :=
  let plain :=
    if includes " as " input
    then Normal (map (fun entry => wrap (JStr (trim (beforeAs entry))))
                     (splitEntries input))
    else Normal (map (fun name => wrap (JStr (trim name)))
                     (filterBoolean (splitComma input))) in
  if startsWith "[" input && endsWithChar "]" input then
    match JSON_parse input with
    | Normal (JArr items) => Normal (map (fun a => wrap (actorName a)) items)
    | Normal _ => plain
    | Throw _ => plain
    end
  else plain.

Definition castBackup (wrap : JVal -> JVal) (input : string)
  : Completion (list JVal) :=
  Normal (map (fun name => wrap (JStr (trim name)))
              (filterBoolean (splitComma input))).

Definition castWith (primary backup : string -> Completion (list JVal))
    (input : JsInput) : Completion (list JVal) :=
  match input with
  | Undefined | Null => Normal []
  | Str s =>
      if isEmpty s then Normal []
      else tryCatch (primary s)
             (fun _ => tryCatch (backup s) (fun _ => Normal []))
  end.

Definition parseCastNames (input : JsInput) : Completion (list JVal) :=
  castWith (castPrimary (fun v => v)) (castBackup (fun v => v)) input.

Definition parseCast (input : JsInput) : Completion (list JVal) :=
  castWith (castPrimary named) (castBackup named) input.
End Cast.

End Parser.

(** ** The header validator ([utils/validator.ts]) *)

Module Validator.
Import JsString.

Definition REQUIRED_HEADERS : list string :=
  [ "id"; "title"; "vote_average"; "vote_count"; "status"; "release_date";
    "revenue"; "runtime"; "budget"; "imdb_id"; "original_language";
    "original_title"; "overview"; "popularity"; "tagline"; "genres";
    "production_companies"; "production_countries"; "spoken_languages";
    "cast"; "director"; "director_of_photography"; "writers"; "producers";
    "music_composer"; "imdb_rating"; "imdb_votes"; "poster_path" ].

(** What the csv-parse decoder, configured with [trim] and
    [skip_empty_lines], fed with the buffered chunks and read by the
    handler of its [readable] event, comes to: an error event; its end
    event, after the records that it emitted; or neither.  The handler
    takes the first record and leaves its loop, so the records behind it
    stay in the buffer of the decoder; a decoder whose buffer has reached
    its high-water mark takes no more input, and then neither [end] nor
    [error] follows. *)
Inductive CsvOutcome : Type :=
| CsvError (message : string)
| CsvRecords (records : list (list string))
| CsvStalled.

(** A promise: settled, by a value or by a rejection, or never settled. *)
Inductive Promise (A : Type) : Type :=
| Settled (completion : Completion A)
| Pending.
Arguments Settled {A} completion.
Arguments Pending {A}.

(** [headers.includes(header)]. *)
Definition includesHeader (headers : list string) (header : string) : bool :=
  existsb (String.eqb header) headers.

Definition missingHeaders (headers : list string) : list string :=
  List.filter (fun header => negb (includesHeader headers header)) REQUIRED_HEADERS.

Definition emptyFile : string := "CSV文件为空".
Definition emptyOrMalformed : string := "CSV文件为空或格式不正确".
Definition missingPrefix : string := "缺少必需的列: ".

Section WithDecoder.
Variable decode : list string -> CsvOutcome.

(** The stream, which ends, is given by the chunks of its [data]
    events.  The promise is resolved ([Normal], [None] for [null]) in
    the handler of [end], rejected ([Throw]) in the handler of [error],
    and left pending when the decoder emits neither. *)
Definition validateCsvHeaders (chunks : list string) : Promise (option string) :=
  match chunks with
  | [] => Settled (Normal (Some emptyFile))
  | _ :: _ =>
      match decode chunks with
      | CsvError _ => Settled (Throw "CSV文件解析失败")
      | CsvStalled => Pending
      | CsvRecords [] => Settled (Normal (Some emptyOrMalformed))
      | CsvRecords (headers :: _) =>
          match headers with
          | [] => Settled (Normal (Some emptyOrMalformed))
          | _ :: _ =>
              match missingHeaders headers with
              | [] => Settled (Normal None)
              | missing =>
                  Settled (Normal (Some (missingPrefix +:+ join ", " missing)))
              end
          end
      end
  end.
End WithDecoder.

(** *** The streams of the examples *)

Definition lineFeed : string := String (ascii_of_N 10) EmptyString.

(** The header [id,title,vote_average], alone. *)
Definition subsetHeader : list string := ["id,title,vote_average"].

(** The required names in reverse order, alone. *)
Definition permutedHeader : list string := [join "," (rev REQUIRED_HEADERS)].

(** The header [id,title], alone, and the same names in another order,
    with an unknown and a repeated column, in two chunks. *)
Definition shortHeader : list string := ["id,title"].
Definition shuffledHeader : list string := ["title,ext"; "ra,id,id"].

(** One chunk: the 28 required names and 17 rows of 28 cells. *)
Definition dataRow : string := join "," (map (fun _ => "x") REQUIRED_HEADERS).
Definition headerAndSeventeenRows : list string :=
  [join lineFeed (join "," REQUIRED_HEADERS :: repeat dataRow 17)].

Fixpoint sameChunks (a b : list string) : bool :=
  match a, b with
  | [], [] => true
  | x :: a', y :: b' => String.eqb x y && sameChunks a' b'
  | _, _ => false
  end.

(** A decoder of which only the outcomes on the streams of a table are
    given; it is left at an error elsewhere. *)
Fixpoint decoderOf (table : list (list string * CsvOutcome)) (chunks : list string)
  : CsvOutcome :=
  match table with
  | [] => CsvError "not given"
  | (given, outcome) :: rest =>
      if sameChunks given chunks then outcome else decoderOf rest chunks
  end.

(** The decoder on the streams of the examples: the one record of a
    stream that holds a header only, which it emits before its end; on
    the header followed by 17 rows, the 17 records left unread exceed the
    high-water mark of 16 objects and the decoder stalls. *)
Definition observed : list string -> CsvOutcome :=
  decoderOf
    [ (subsetHeader, CsvRecords [["id"; "title"; "vote_average"]]);
      (permutedHeader, CsvRecords [rev REQUIRED_HEADERS]);
      (shortHeader, CsvRecords [["id"; "title"]]);
      (shuffledHeader, CsvRecords [["title"; "extra"; "id"; "id"]]);
      (headerAndSeventeenRows, CsvStalled) ].

End Validator.

(** ** The monetary fields of the file importer ([services/csv.service.ts]) *)

Module CsvService.
Import JsString JsNumber.

(** [BigInt(Math.round(parseFloat(raw) || 0))] inside the [try] of
    [transformRow], whose [catch] rethrows as a ValidationError.  [raw] is
    [None] when the row has no such column. *)
Definition moneyValue (raw : option string) : Completion Z :=
  match BigInt (Math_round (orZero (parseFloatOpt raw))) with
  | Normal z => Normal z
  | Throw m => Throw ("数据格式无效: " +:+ m)
  end.

End CsvService.

(** ** The streaming importer ([utils/stream-processor.ts]) *)

Module StreamProcessor.
Import JsString JsNumber Json Parser.

(** A row as the decoder hands it to the transformer: the trimmed text of
    every cell, keyed by column name. *)
Abbreviation RawRow := (gmap string string).

(** The Date built by [new Date(text)]. *)
Inductive JsDate : Type := DateOf (text : string).

Record NormalizedRecord : Type := {
  id : string;
  title : option string;
  vote_average : option Num;
  vote_count : option Num;
  status : option string;
  release_date : option JsDate;
  revenue : Num;
  runtime : option Num;
  budget : Num;
  imdb_id : option string;
  original_language : option string;
  original_title : option string;
  overview : option string;
  popularity : option Num;
  tagline : option string;
  genres : JVal;
  production_companies : list JVal;
  production_countries : JVal;
  spoken_languages : JVal;
  cast : list JVal;
  director : JVal;
  director_of_photography : JVal;
  writers : JVal;
  producers : JVal;
  music_composer : JVal;
  imdb_rating : option Num;
  imdb_votes : option Num;
  poster_path : option string
}.

(** [!value] for a cell that may be absent. *)
Definition falsy (value : option string) : bool :=
  match value with
  | Some s => isEmpty s
  | None => true
  end.

(** [getValue(key)]: [None] is [null]. *)
Definition getValue (row : RawRow) (key : string) : option string := row !! key.

Definition parseStringArray (value : option string) : JVal :=
  match value with
  | None => JArr []
  | Some s =>
      if isEmpty s then JArr []
      else
        let pieces := JArr (map JStr (filterBoolean (splitComma s))) in
        if startsWith "[" s && endsWithChar "]" s then
          match JSON_parse s with
          | Normal v => v
          | Throw _ => pieces
          end
        else pieces
  end.

(** A parameter declared [defaultValue = 0]: an argument that is left
    out or is [undefined], here [None], takes the default. *)
Definition defaultZero (argument : option Num) : Num :=
  match argument with
  | Some d => d
  | None => Fin 0
  end.

(** The result is a number on every path; it is kept in an [option]
    because the fields of the record are declared so. *)
Definition parseNumber (value : option string) (argument : option Num)
  : option Num :=
  let defaultValue := defaultZero argument in
  match value with
  | None => Some defaultValue
  | Some s =>
      if isEmpty s then Some defaultValue
      else let num := parseFloat s in
           if isNaN num then Some defaultValue else Some num
  end.

Definition parseInt2 (value : option string) (argument : option Num)
  : option Num :=
  let defaultValue := defaultZero argument in
  match value with
  | None => Some defaultValue
  | Some s =>
      if isEmpty s then Some defaultValue
      else let num := parseInt s in
           if isNaN num then Some defaultValue else Some num
  end.

Definition parseMoneyValue (value : option string) : Num :=
  match value with
  | None => Fin 0
  | Some s => if isEmpty s then Fin 0 else orZero (parseFloat s)
  end.

Definition inputOf (value : option string) : JsInput :=
  match value with
  | Some s => Str s
  | None => Null
  end.

(** The decoder casts a non-empty [release_date] cell to a Date, an empty
    one to [null]; [transformRow] copies the Date. *)
Definition releaseDate (value : option string) : option JsDate :=
  match value with
  | Some s => if isEmpty s then None else Some (DateOf s)
  | None => None
  end.

Section WithHost.
Context `{NumberFormat}.

Definition transformRow (row : RawRow) : Completion NormalizedRecord :=
  match parseProductionCompanies (inputOf (getValue row "production_companies")) with
  | Throw m => Throw m
  | Normal companies =>
      match parseCastNames (inputOf (getValue row "cast")) with
      | Throw m => Throw m
      | Normal names =>
          Normal {|
            id := match getValue row "id" with Some s => s | None => "null" end;
            title := getValue row "title";
            vote_average := parseNumber (getValue row "vote_average") None;
            vote_count := parseInt2 (getValue row "vote_count") None;
            status := getValue row "status";
            release_date := releaseDate (getValue row "release_date");
            revenue := parseMoneyValue (getValue row "revenue");
            runtime := parseInt2 (getValue row "runtime") None;
            budget := parseMoneyValue (getValue row "budget");
            imdb_id := getValue row "imdb_id";
            original_language := getValue row "original_language";
            original_title :=
              match getValue row "original_title" with
              | Some s => Some s
              | None => getValue row "title"
              end;
            overview := getValue row "overview";
            popularity := parseNumber (getValue row "popularity") None;
            tagline := getValue row "tagline";
            genres := parseStringArray (getValue row "genres");
            production_companies := companies;
            production_countries := parseStringArray (getValue row "production_countries");
            spoken_languages := parseStringArray (getValue row "spoken_languages");
            cast := names;
            director := parseStringArray (getValue row "director");
            director_of_photography :=
              parseStringArray (getValue row "director_of_photography");
            writers := parseStringArray (getValue row "writers");
            producers := parseStringArray (getValue row "producers");
            music_composer := parseStringArray (getValue row "music_composer");
            imdb_rating := parseNumber (getValue row "imdb_rating") None;
            imdb_votes := parseInt2 (getValue row "imdb_votes") None;
            poster_path := getValue row "poster_path"
          |}
      end
  end.
End WithHost.

(** *** The processor as a transition system

    The importer runs on one thread: a callback runs until its next
    [await].  The events below are those callbacks.  Logging and the
    keep-alive timer do not touch the state and are left out, as is the
    elapsed time of the summary. *)

Record ErrorRow : Type := { row : Z; error : string }.

Record Summary : Type := {
  success : bool;
  count : nat;
  errorCount : nat;
  errors : list ErrorRow
}.

(** How [pipeline(...)] settles. *)
Inductive StreamEnd : Type :=
| StreamFinished
| StreamFailed (code message : string).

Definition ERR_STREAM_PREMATURE_CLOSE : string := "ERR_STREAM_PREMATURE_CLOSE".

(** Where [processStream] stands. *)
Inductive Main : Type :=
| Piping
| FinalFlushParked
| FinalFlushRunning
| Draining
| Returned (summary : Summary)
| Threw (message : string).

(** Who called the [processBatch] that is committing: [processStream]
    itself, or the transformer, which does not await it. *)
Inductive Owner : Type := ByMain | Detached.

Record Flight : Type := {
  owner : Owner;
  todo : list NormalizedRecord;
  insertedCount : nat
}.

Record State : Type := {
  rowNumber : nat;
  currentBatch : list NormalizedRecord;
  isProcessing : bool;
  processedCount : nat;
  errorRows : list ErrorRow;
  flight : option Flight;
  (** calls of [processBatch] made by the transformer that wait in the
      polling loop at its head *)
  parked : nat;
  main : Main;
  (** ghost: the calls of [upsert] and the delays between attempts of
      the records whose retry loop has ended (they are added when the
      loop of a record ends, not call by call), and the batches taken
      by [processBatch] *)
  upsertCalls : nat;
  delays : list nat;
  flushed : list (list NormalizedRecord)
}.

(** The collaborators of a run: the configured batch size, the outcome of
    the [n]-th call of [prisma.movie.upsert] ([None] when it resolves, the
    message of the error otherwise) and the outcome of [$disconnect]. *)
Record Env : Type := {
  configBatchSize : nat;
  upsert : nat -> NormalizedRecord -> option string;
  disconnect : option string
}.

(** [config.csv.batchSize || 1000]. *)
Definition batchSize (env : Env) : nat :=
  match configBatchSize env with
  | O => 1000
  | S n => S n
  end.

Definition MAX_RETRIES : nat := 3.

Definition initial : State := {|
  rowNumber := 0; currentBatch := []; isProcessing := false;
  processedCount := 0; errorRows := []; flight := None; parked := 0;
  main := Piping; upsertCalls := 0; delays := []; flushed := []
|}.

Definition missingRequired : string := "缺少必填字段 ID 或 title".

Definition upsertFailure (item : NormalizedRecord) (errorMsg : string) : string :=
  "处理记录ID " +:+ id item +:+ " 失败: " +:+ errorMsg.

(** The variables that the retry loop of one record reads and writes. *)
Record Commit : Type := {
  calls : nat;
  inserted : nat;
  failures : list ErrorRow;
  waits : list nat
}.

Section WithEnv.
Context `{NumberFormat}.
Variable env : Env.

(** [while (!success && retries < MAX_RETRIES)] with its body; one unit
    of [fuel] per evaluation of the loop condition. *)
Fixpoint retryLoop (fuel : nat) (item : NormalizedRecord)
    (retries : nat) (succeeded : bool) (c : Commit) : Commit :=
  match fuel with
  | O => c
  | S fuel' =>
      if negb succeeded && (retries <? MAX_RETRIES)%nat then
        match upsert env (calls c) item with
        | None =>
            retryLoop fuel' item retries true
              {| calls := S (calls c); inserted := S (inserted c);
                 failures := failures c; waits := waits c |}
        | Some errorMsg =>
            let retries' := S retries in
            if (MAX_RETRIES <=? retries')%nat then
              retryLoop fuel' item retries' false
                {| calls := S (calls c); inserted := inserted c;
                   failures := failures c ++
                     [{| row := (-1)%Z; error := upsertFailure item errorMsg |}];
                   waits := waits c |}
            else
              retryLoop fuel' item retries' false
                {| calls := S (calls c); inserted := inserted c;
                   failures := failures c;
                   waits := waits c ++ [(500 * retries')%nat] |}
        end
      else c
  end.

(** One turn of [for (const item of processedBatch)]. *)
Definition commitItem (item : NormalizedRecord) (c : Commit) : Commit :=
  retryLoop (S MAX_RETRIES) item 0 false c.

(** The whole [for] loop. *)
Definition commitBatch (batch : list NormalizedRecord) (c : Commit) : Commit :=
  fold_left (fun c item => commitItem item c) batch c.

Definition setMain (m : Main) (s : State) : State := {|
  rowNumber := rowNumber s; currentBatch := currentBatch s;
  isProcessing := isProcessing s; processedCount := processedCount s;
  errorRows := errorRows s; flight := flight s; parked := parked s;
  main := m; upsertCalls := upsertCalls s; delays := delays s;
  flushed := flushed s
|}.

Definition setParked (n : nat) (s : State) : State := {|
  rowNumber := rowNumber s; currentBatch := currentBatch s;
  isProcessing := isProcessing s; processedCount := processedCount s;
  errorRows := errorRows s; flight := flight s; parked := n;
  main := main s; upsertCalls := upsertCalls s; delays := delays s;
  flushed := flushed s
|}.

(** The result object of [processStream] and the disconnect after it. *)
Definition finalize (s : State) : State :=
  match disconnect env with
  | None =>
      setMain (Returned {| success := true;
                           count := processedCount s;
                           errorCount := length (errorRows s);
                           errors := firstn 10 (errorRows s) |}) s
  | Some m => setMain (Threw m) s
  end.

(** What the caller gets when the summary is built in state [s]. *)
Definition outcomeOf (s : State) : Main :=
  match disconnect env with
  | None =>
      Returned {| success := true;
                  count := processedCount s;
                  errorCount := length (errorRows s);
                  errors := firstn 10 (errorRows s) |}
  | Some m => Threw m
  end.

(** [waitForProcessing]: once its condition is false the summary is
    built without a further [await] on the state. *)
Definition drainCheck (s : State) : State :=
  if isProcessing s || negb (bool_decide (currentBatch s = []))
  then setMain Draining s
  else finalize s.

(** [processBatch] past its polling loop: take the batch and start
    committing, or return at once when there is nothing to take. *)
Definition takeBatch (who : Owner) (s : State) : State :=
  match currentBatch s with
  | [] =>
      match who with
      | ByMain => drainCheck s
      | Detached => s
      end
  | batch => {|
      rowNumber := rowNumber s; currentBatch := [];
      isProcessing := true; processedCount := processedCount s;
      errorRows := errorRows s;
      flight := Some {| owner := who; todo := batch; insertedCount := 0 |};
      parked := parked s;
      main := match who with ByMain => FinalFlushRunning | Detached => main s end;
      upsertCalls := upsertCalls s; delays := delays s;
      flushed := flushed s ++ [batch]
    |}
  end.

(** A call of [processBatch]. *)
Definition processBatch (who : Owner) (s : State) : State :=
  if isProcessing s then
    match who with
    | ByMain => setMain FinalFlushParked s
    | Detached => setParked (S (parked s)) s
    end
  else takeBatch who s.

Definition pushError (e : ErrorRow) (n : nat) (s : State) : State := {|
  rowNumber := n; currentBatch := currentBatch s;
  isProcessing := isProcessing s; processedCount := processedCount s;
  errorRows := errorRows s ++ [e]; flight := flight s; parked := parked s;
  main := main s; upsertCalls := upsertCalls s; delays := delays s;
  flushed := flushed s
|}.

Definition pushRecord (t : NormalizedRecord) (n : nat) (s : State) : State := {|
  rowNumber := n; currentBatch := currentBatch s ++ [t];
  isProcessing := isProcessing s; processedCount := processedCount s;
  errorRows := errorRows s; flight := flight s; parked := parked s;
  main := main s; upsertCalls := upsertCalls s; delays := delays s;
  flushed := flushed s
|}.

(** The [transform] callback of [createTransformer]. *)
Definition transform (r : RawRow) (s : State) : State :=
  let n := S (rowNumber s) in
  if falsy (r !! "id") || falsy (r !! "title") then
    pushError {| row := Z.of_nat n; error := missingRequired |} n s
  else
    match transformRow r with
    | Normal transformed =>
        let s' := pushRecord transformed n s in
        if (batchSize env <=? length (currentBatch s'))%nat
        then processBatch Detached s'
        else s'
    | Throw errorMsg =>
        pushError {| row := Z.of_nat n; error := errorMsg |} n s
    end.

(** The statements of [processStream] after the pipeline. *)
Definition afterPipeline (s : State) : State :=
  match currentBatch s with
  | [] => drainCheck s
  | _ :: _ => processBatch ByMain s
  end.

Definition pipelineSettled (e : StreamEnd) (s : State) : State :=
  match e with
  | StreamFinished => afterPipeline s
  | StreamFailed code message =>
      if String.eqb code ERR_STREAM_PREMATURE_CLOSE && (0 <? processedCount s)%nat
      then afterPipeline s
      else setMain (Threw message) s
  end.

(** The retry loop of the record at the head of the batch in flight
    ends; after the last record the batch is accounted for. *)
Definition commitNext (s : State) : State :=
  match flight s with
  | Some {| owner := who; todo := item :: rest; insertedCount := k |} =>
      let c := commitItem item {| calls := upsertCalls s; inserted := k;
                                  failures := errorRows s; waits := delays s |} in
      match rest with
      | _ :: _ => {|
          rowNumber := rowNumber s; currentBatch := currentBatch s;
          isProcessing := isProcessing s; processedCount := processedCount s;
          errorRows := failures c;
          flight := Some {| owner := who; todo := rest; insertedCount := inserted c |};
          parked := parked s; main := main s;
          upsertCalls := calls c; delays := waits c; flushed := flushed s
        |}
      | [] =>
          let s' := {|
            rowNumber := rowNumber s; currentBatch := currentBatch s;
            isProcessing := false;
            processedCount := (processedCount s + inserted c)%nat;
            errorRows := failures c; flight := None;
            parked := parked s; main := main s;
            upsertCalls := calls c; delays := waits c; flushed := flushed s
          |} in
          match who with
          | ByMain => drainCheck s'
          | Detached => s'
          end
      end
  | _ => s
  end.

(** The timer of a parked call of the transformer fires. *)
Definition pollParked (s : State) : State :=
  match parked s with
  | O => s
  | S n => if isProcessing s then s else takeBatch Detached (setParked n s)
  end.

(** The timer of [processStream] fires. *)
Definition pollMain (s : State) : State :=
  match main s with
  | FinalFlushParked => if isProcessing s then s else takeBatch ByMain s
  | Draining => drainCheck s
  | _ => s
  end.

Inductive Event : Type :=
| EvRow (r : RawRow)
| EvEnd (e : StreamEnd)
| EvCommit
| EvPoll
| EvMain.

(** An event that cannot occur in a state leaves it as it is. *)
Definition step (s : State) (e : Event) : State :=
  match e with
  | EvRow r => match main s with Piping => transform r s | _ => s end
  | EvEnd e => match main s with Piping => pipelineSettled e s | _ => s end
  | EvCommit => commitNext s
  | EvPoll => pollParked s
  | EvMain => pollMain s
  end.

Definition run (s : State) (events : list Event) : State :=
  fold_left step events s.

(** *** The schedule in which storage keeps up

    Every commit that a callback starts is brought to its end before
    the next callback of the stream runs. *)

Definition pending (s : State) : nat :=
  match flight s with
  | Some f => length (todo f)
  | None => 0
  end.

Definition settle (s : State) : State :=
  run s (repeat EvCommit (pending s)).

Definition deliver (s : State) (r : RawRow) : State :=
  settle (step s (EvRow r)).

Definition deliverAll (s : State) (rows : list RawRow) : State :=
  fold_left deliver rows s.

(** What is left of a state when the commit in flight ends with [c]. *)
Definition landed (who : Owner) (c : Commit) (s : State) : State :=
  let s' := {|
    rowNumber := rowNumber s; currentBatch := currentBatch s;
    isProcessing := false;
    processedCount := (processedCount s + inserted c)%nat;
    errorRows := failures c; flight := None;
    parked := parked s; main := main s;
    upsertCalls := calls c; delays := waits c; flushed := flushed s
  |} in
  match who with
  | ByMain => drainCheck s'
  | Detached => s'
  end.

(** The stream settles; the commit in flight, if any, ends; the timer
    of [processStream] fires; the commit it started ends. *)
Definition finish (s : State) (e : StreamEnd) : State :=
  settle (step (settle (step s (EvEnd e))) EvMain).

(** [processStream] on a stream that delivers [rows] and then settles
    as [e]: what the caller gets. *)
Definition processStream (rows : list RawRow) (e : StreamEnd) : Main :=
  main (finish (deliverAll initial rows) e).
End WithEnv.

(** *** Predicates on rows and states *)

(** The row passes the check of the required fields. *)
Definition hasRequired (r : RawRow) : bool :=
  negb (falsy (r !! "id") || falsy (r !! "title")).

(** The flag [isProcessing] is up exactly while a batch is in flight, a
    batch in flight is not empty, and [processStream] starts a commit of
    its own only after the pipeline. *)
Definition consistent (s : State) : Prop :=
  match flight s with
  | None => isProcessing s = false
  | Some f =>
      isProcessing s = true /\ todo f <> [] /\
      (main s = Piping -> owner f = Detached)
  end.

(** No commit in flight, and the pipeline still open. *)
Definition quiet (s : State) : Prop :=
  flight s = None /\ isProcessing s = false /\ main s = Piping.

Definition successful (m : Main) : Prop :=
  match m with
  | Returned summary => success summary = true
  | _ => True
  end.

(** A state without its row counter and its error rows, in the state and
    in the summary. *)
Definition eraseMain (m : Main) : Main :=
  match m with
  | Returned summary =>
      Returned {| success := success summary; count := count summary;
                  errorCount := 0; errors := [] |}
  | other => other
  end.

Definition erase (s : State) : State := {|
  rowNumber := 0; currentBatch := currentBatch s;
  isProcessing := isProcessing s; processedCount := processedCount s;
  errorRows := []; flight := flight s; parked := parked s;
  main := eraseMain (main s); upsertCalls := upsertCalls s;
  delays := delays s; flushed := flushed s
|}.

End StreamProcessor.

(** ** Sample inputs *)

Module Samples.
Import JsString JsNumber Json Parser StreamProcessor.

Definition movieRow (i : nat) : RawRow :=
  {[ "id" := pretty i; "title" := "Movie " +:+ pretty i ]}.

(** Rows numbered from 1 to [n]. *)
Definition movieRows (n : nat) : list RawRow := map movieRow (seq 1 n).

(** A row without [id]. *)
Definition namelessRow : RawRow := {[ "title" := "Untitled" ]}.

(** Storage that accepts every record, with the given batch size. *)
Definition acceptingEnv (size : nat) : Env :=
  {| configBatchSize := size; upsert := fun _ _ => None; disconnect := None |}.

(** Storage whose [k] first calls fail. *)
Definition failingFirst (k : nat) : Env :=
  {| configBatchSize := 1000;
     upsert := fun n _ => if (n <? k)%nat then Some "connection reset" else None;
     disconnect := None |}.

Definition alien : NormalizedRecord := {|
  id := "348"; title := Some "Alien";
  vote_average := Some (Fin 8); vote_count := Some (Fin 100);
  status := Some "Released"; release_date := Some (DateOf "1979-05-25");
  revenue := Fin 104931801; runtime := Some (Fin 117); budget := Fin 11000000;
  imdb_id := None; original_language := Some "en";
  original_title := Some "Alien"; overview := None; popularity := Some (Fin 0);
  tagline := None; genres := JArr [JStr "Horror"];
  production_companies := [named (JStr "Brandywine")];
  production_countries := JArr []; spoken_languages := JArr [];
  cast := [JStr "Sigourney Weaver"]; director := JArr [JStr "Ridley Scott"];
  director_of_photography := JArr []; writers := JArr [];
  producers := JArr []; music_composer := JArr [];
  imdb_rating := Some (Fin 0); imdb_votes := Some (Fin 0); poster_path := None
|}.

Definition freshCommit : Commit :=
  {| calls := 0; inserted := 0; failures := []; waits := [] |}.

(** 2500 rows arrive and the stream ends while the first batch is still
    being committed; the 1000 commits of that batch end; a parked call of
    the transformer wakes and takes what has accumulated; its 1500
    commits end; the timer of [processStream] fires. *)
Definition lateStorage : list (Event) :=
  map EvRow (movieRows 2500) ++ [EvEnd StreamFinished]
    ++ repeat EvCommit 1000 ++ [EvPoll] ++ repeat EvCommit 1500 ++ [EvMain].

(** Two rows fill a batch of two, which is committed; a third row
    arrives. *)
Definition threeRows : list Event :=
  [EvRow (movieRow 1); EvRow (movieRow 2); EvCommit; EvCommit; EvRow (movieRow 3)].

End Samples.

(** ** Entries of the parsed lists *)

Module Entries.
Import JsString JsNumber Json Parser.

(** The entry is an object with a member [name]. *)
Definition hasName (entry : JVal) : bool :=
  match entry with
  | JObj ms =>
      match lastMember "name" ms with
      | Some _ => true
      | None => false
      end
  | _ => false
  end.

(** An entry as the spec reads it, [{name, optional external id}]: its
    name and its identifier, [null] when it has none. *)
Definition company (entry : JVal) : option (JVal * JVal) :=
  match entry with
  | JObj ms =>
      match lastMember "name" ms with
      | Some name =>
          Some (name, match lastMember "id" ms with
                      | Some identifier => identifier
                      | None => JNull
                      end)
      | None => None
      end
  | _ => None
  end.

Definition isNull (v : JVal) : bool :=
  match v with
  | JNull => true
  | _ => false
  end.

(** The identifier of the entry is [null] or a value that [||] keeps. *)
Definition plainIdentifier (entry : JVal) : bool :=
  match company entry with
  | Some (_, identifier) => isNull identifier || truthyVal identifier
  | None => false
  end.

(** A canonical entry: an object whose name is not empty (a value that
    [||] keeps) and whose identifier is plain. *)
Definition canonical (entry : JVal) : bool :=
  match company entry with
  | Some (name, _) => truthyVal name && plainIdentifier entry
  | None => false
  end.

Definition isArray (v : JVal) : bool :=
  match v with
  | JArr _ => true
  | _ => false
  end.

End Entries.

(** ** The replies to errors ([utils/error-handler.ts]) *)

Module ErrorHandler.
Import JsString Json.

(** [AppError] and the classes that extend it. *)
Inductive ErrorClass : Type :=
| AppErrorClass
| ValidationErrorClass
| NotFoundErrorClass
| AuthorizationErrorClass
| DatabaseErrorClass.

(** The member [code] of a thrown value: none, or a value that [&&]
    drops ([undefined], [null], [0], [false]); a string; or another value
    that [&&] keeps (a number, [true], an object), which has no method
    [startsWith]. *)
Inductive Code : Type :=
| NoCode
| CodeText (text : string)
| CodeOther.

(** A thrown value as [handleHttpError] reads it, its parameter being of
    type [any]: an instance of [AppError] with its fields; [null]
    ([true]) or [undefined] ([false]); or another value with its [code]
    and with its member [message], [None] when it has none. *)
Inductive Thrown : Type :=
| OfApp (class : ErrorClass) (message : string) (statusCode : nat) (details : JVal)
| Nullish (null : bool)
| Other (code : Code) (message : option JVal).

(** The constructors; [details] defaults to [null] and the status of an
    [AppError] to 500. *)
Definition AppError (message : string) (statusCode : nat) (details : JVal) : Thrown :=
  OfApp AppErrorClass message statusCode details.

Definition ValidationError (message : string) (details : JVal) : Thrown :=
  OfApp ValidationErrorClass message 400 details.

Definition NotFoundError (message : string) (details : JVal) : Thrown :=
  OfApp NotFoundErrorClass message 404 details.

Definition AuthorizationError (message : string) (details : JVal) : Thrown :=
  OfApp AuthorizationErrorClass message 403 details.

Definition DatabaseError (message : string) (details : JVal) : Thrown :=
  OfApp DatabaseErrorClass message 500 details.

(** The object given to [reply.send]; a member that the object literal
    does not have is [None]. *)
Record Body : Type := {
  error : string;
  status : string;
  statusCode : nat;
  details : option JVal;
  userMessage : string
}.

(** [reply.code(code).send(body)]. *)
Record Reply : Type := {
  code : nat;
  body : Body
}.

Definition getFriendlyErrorMessage (class : ErrorClass) (message : string) : string :=
  match class with
  | ValidationErrorClass => "输入验证失败: " +:+ message
  | NotFoundErrorClass => "找不到您请求的资源: " +:+ message
  | AuthorizationErrorClass => "权限不足: " +:+ message
  | DatabaseErrorClass => "数据操作失败: " +:+ message
  | AppErrorClass => message
  end.

(** [process.env.NODE_ENV === 'development' ? error.message : null];
    a member whose value is [undefined] is [None]. *)
Definition developmentDetails (development : bool) (message : option JVal)
  : option JVal :=
  if development then message else Some JNull.

(** [error.code && error.code.startsWith(prefix)], a TypeError when the
    code is kept by [&&] and is not a string. *)
Definition codeStartsWith (prefix : string) (code : Code) : Completion bool :=
  match code with
  | NoCode => Normal false
  | CodeText c => Normal (negb (isEmpty c) && startsWith prefix c)
  | CodeOther => Throw "error.code.startsWith is not a function"
  end.

(** [error.code === name]. *)
Definition codeIs (name : string) (code : Code) : bool :=
  match code with
  | CodeText c => String.eqb c name
  | _ => false
  end.

(** [handleHttpError]: the reply that it sends, or the TypeError that it
    throws before it sends one. *)
Definition handleHttpError (development : bool) (thrown : Thrown)
  : Completion Reply :=
  match thrown with
  | OfApp class message statusCode details =>
      Normal
        {| code := statusCode;
           body := {| error := message; status := "error";
                      statusCode := statusCode; details := Some details;
                      userMessage := getFriendlyErrorMessage class message |} |}
  | Nullish true => Throw "Cannot read properties of null (reading 'code')"
  | Nullish false => Throw "Cannot read properties of undefined (reading 'code')"
  | Other code message =>
      match codeStartsWith "P" code with
      | Throw m => Throw m
      | Normal true =>
          let '(statusCode, text) :=
            if codeIs "P2002" code then (409, "记录已存在")
            else if codeIs "P2025" code then (404, "记录不存在")
            else (500, "数据库操作失败") in
          Normal
            {| code := statusCode;
               body := {| error := text; status := "error";
                          statusCode := statusCode;
                          details := developmentDetails development message;
                          userMessage := "数据操作失败: " +:+ text |} |}
      | Normal false =>
          if codeIs "FST_REQ_FILE_TOO_LARGE" code then
            Normal
              {| code := 413;
                 body := {| error := "上传文件过大"; status := "error";
                            statusCode := 413; details := None;
                            userMessage := "您上传的文件超过了允许的大小限制，请分割文件或减小文件大小后重试" |} |}
          else if codeIs "FST_FILES_LIMIT" code then
            Normal
              {| code := 413;
                 body := {| error := "上传文件数量超限"; status := "error";
                            statusCode := 413; details := None;
                            userMessage := "您一次只能上传一个文件" |} |}
          else
            match codeStartsWith "FST_" code with
            | Throw m => Throw m
            | Normal true =>
                Normal
                  {| code := 400;
                     body := {| error := "文件上传失败"; status := "error";
                                statusCode := 400;
                                details := developmentDetails development message;
                                userMessage := "文件上传处理失败，请检查文件格式和大小" |} |}
            | Normal false =>
                Normal
                  {| code := 500;
                     body := {| error := "服务器内部错误"; status := "error";
                                statusCode := 500;
                                details := developmentDetails development message;
                                userMessage := "抱歉，服务器暂时无法处理您的请求，请稍后重试" |} |}
            end
      end
  end.

End ErrorHandler.

(** ** What a schedule delivers *)

Module Ledger.
Import JsString JsNumber Json Parser StreamProcessor.

(** The rows that reach the transformer: those that the decoder hands
    over before the pipeline settles. *)
Fixpoint delivered (events : list Event) : list RawRow :=
  match events with
  | [] => []
  | EvRow r :: rest => r :: delivered rest
  | EvEnd _ :: _ => []
  | _ :: rest => delivered rest
  end.

Definition isEnd (e : Event) : bool :=
  match e with
  | EvEnd _ => true
  | _ => false
  end.

Section WithHost.
Context `{NumberFormat}.

(** The branches of the [transform] callback for the row numbered [n]:
    a record for the batch, or an error row. *)
Definition verdict (n : nat) (r : RawRow) : NormalizedRecord + ErrorRow :=
  if falsy (r !! "id") || falsy (r !! "title") then
    inr {| row := Z.of_nat n; error := missingRequired |}
  else
    match transformRow r with
    | Normal transformed => inl transformed
    | Throw errorMsg => inr {| row := Z.of_nat n; error := errorMsg |}
    end.

(** The records that the rows put into the batch, in order of arrival. *)
Fixpoint accepted (rows : list RawRow) : list NormalizedRecord :=
  match rows with
  | [] => []
  | r :: rest =>
      match verdict 0 r with
      | inl t => t :: accepted rest
      | inr _ => accepted rest
      end
  end.

(** The error rows that the transformer writes for the rows, the first
    of which is numbered [S n]. *)
Fixpoint rejected (n : nat) (rows : list RawRow) : list ErrorRow :=
  match rows with
  | [] => []
  | r :: rest =>
      match verdict (S n) r with
      | inl _ => rejected (S n) rest
      | inr e => e :: rejected (S n) rest
      end
  end.
End WithHost.

(** Records of the batch in flight that are committed or still waiting. *)
Definition inFlight (s : State) : nat :=
  match flight s with
  | Some f => insertedCount f + length (todo f)
  | None => 0
  end.

(** The committer writes its error rows with row number -1, the
    transformer with the number of the row. *)
Definition fromTransformer (e : ErrorRow) : bool := negb (row e =? -1)%Z.

(** The row that an event hands to the transformer in state [s]. *)
Definition arrival (s : State) (e : Event) : list RawRow :=
  match e, main s with
  | EvRow r, Piping => [r]
  | _, _ => []
  end.

(** Storage is timely under a schedule: a record never joins a batch
    that has already reached the threshold.  A batch that reaches it has
    then been taken, at once or by a call of [processBatch] that waited
    for the commit in flight, before the next record arrives. *)
Fixpoint timely `{NumberFormat} (env : Env) (s : State) (events : list Event)
  : bool :=
  match events with
  | [] => true
  | e :: rest =>
      match accepted (arrival s e) with
      | [] => true
      | _ :: _ => (length (currentBatch s) <? batchSize env)%nat
      end && timely env (step env s e) rest
  end.

(** The sizes of the batches taken so far, then that of the batch that
    waits to be taken. *)
Definition batchSizes (s : State) : list nat :=
  map length (flushed s) ++
  match currentBatch s with
  | [] => []
  | _ :: _ => [length (currentBatch s)]
  end.

Definition full (size : nat) (batches : list (list NormalizedRecord)) : Prop :=
  Forall (fun b => length b = size) batches.

(** The batches of a timely run: every batch taken is full, except the
    one that [processStream] takes after the pipeline; the batch that
    waits is below the threshold, or at the threshold with one call of
    [processBatch] waiting for it. *)
Definition inStep (size : nat) (s : State) : Prop :=
  (full size (flushed s) /\
   ((parked s = 0 /\ length (currentBatch s) < size) \/
    (parked s = 1 /\ length (currentBatch s) = size) \/
    (main s <> Piping /\
     (currentBatch s = [] \/ length (currentBatch s) = size)))) \/
  (main s <> Piping /\ currentBatch s = [] /\
   exists fulls last,
     flushed s = fulls ++ [last] /\ full size fulls /\
     0 < length last < size).

(** Some batch, taken or waiting, holds more records than the
    threshold. *)
Definition overfull (size : nat) (s : State) : Prop :=
  Exists (fun b => size < length b) (flushed s ++ [currentBatch s]).

(** The books of the processor after the rows [rows]: the row counter,
    the records taken or waiting, the error rows of the transformer, and
    the fate of every row. *)
Definition balanced `{NumberFormat} (s : State) (rows : list RawRow) : Prop :=
  rowNumber s = length rows /\
  concat (flushed s) ++ currentBatch s = accepted rows /\
  List.filter fromTransformer (errorRows s) = rejected 0 rows /\
  rowNumber s = processedCount s + length (errorRows s)
                + length (currentBatch s) + inFlight s.

(** The shape of a state as far as [processStream] itself is concerned:
    a commit that it started is the only thing that remains to be done,
    it waits in [waitForProcessing] only with an empty batch, and the
    summary that it returned is the summary of the state. *)
Definition settledShape (s : State) : Prop :=
  consistent s /\
  (forall f, flight s = Some f -> owner f = ByMain ->
             main s = FinalFlushRunning /\ currentBatch s = []) /\
  (main s = FinalFlushRunning ->
   exists f, flight s = Some f /\ owner f = ByMain) /\
  (main s = Draining -> currentBatch s = []) /\
  (forall summary, main s = Returned summary ->
     currentBatch s = [] /\ flight s = None /\
     count summary = processedCount s /\
     errorCount summary = length (errorRows s) /\
     errors summary = firstn 10 (errorRows s)).

(** Every record whose retry loop has ended cost between one and
    [MAX_RETRIES] calls of storage and at most two waits, of 500 and
    1000 ms. *)
Definition bounded (s : State) : Prop :=
  let taken := length (concat (flushed s)) in
  pending s <= taken /\
  taken <= upsertCalls s + pending s /\
  upsertCalls s + MAX_RETRIES * pending s <= MAX_RETRIES * taken /\
  length (delays s) + 2 * pending s <= 2 * taken /\
  Forall (fun d => d = 500 \/ d = 1000) (delays s).

(** What the transformer guarantees of a record that it puts into the
    batch: an identifier and a title that are not empty, every number
    present and not NaN, and arrays where lists are expected. *)
Definition present (n : option Num) : bool :=
  match n with
  | Some x => negb (isNaN x)
  | None => false
  end.

Definition storable (t : NormalizedRecord) : bool :=
  negb (isEmpty (id t))
  && match title t with Some x => negb (isEmpty x) | None => false end
  && match original_title t with Some _ => true | None => false end
  && negb (isNaN (revenue t)) && negb (isNaN (budget t))
  && present (vote_average t) && present (vote_count t)
  && present (runtime t) && present (popularity t)
  && present (imdb_rating t) && present (imdb_votes t)
  && Entries.isArray (genres t) && Entries.isArray (production_countries t)
  && Entries.isArray (spoken_languages t) && Entries.isArray (director t)
  && Entries.isArray (director_of_photography t) && Entries.isArray (writers t)
  && Entries.isArray (producers t) && Entries.isArray (music_composer t).

Definition terminal (m : Main) : bool :=
  match m with
  | Returned _ | Threw _ => true
  | _ => false
  end.

End Ledger.


(** ** More sample inputs *)

Module Scenarios.
Import JsString JsNumber Json Parser StreamProcessor Samples.

(** Three rows, the second of which has no [id]. *)
Definition mixedRows : list RawRow := [movieRow 1; namelessRow; movieRow 2].

(** The rows of [mixedRows] arrive; with a batch size of two the second
    record starts a commit; its two retry loops end; the stream
    finishes. *)
Definition mixedSchedule : list Event :=
  map EvRow mixedRows ++ [EvCommit; EvCommit; EvEnd StreamFinished].

(** The first batch is still being committed while the rows 1001 to 1500
    arrive; its commits end; the rows 1501 to 2500 arrive, the 2000th of
    which starts the commit of the second batch; the stream ends; the
    commits of the second batch end; the timer of [processStream] fires
    and it takes the 500 records that are left; their commits end. *)
Definition overlapping : list Event :=
  map EvRow (movieRows 1500) ++ repeat EvCommit 1000
    ++ map EvRow (drop 1500 (movieRows 2500)) ++ [EvEnd StreamFinished]
    ++ repeat EvCommit 1000 ++ [EvMain] ++ repeat EvCommit 500.

(** The first batch is still being committed when the 2000th row brings
    the batch to the threshold again, so that the call of [processBatch]
    waits; the commits of the first batch end and the waiting call takes
    the second batch before the next row arrives. *)
Definition wokenInTime : list Event :=
  map EvRow (movieRows 2000) ++ repeat EvCommit 1000 ++ [EvPoll]
    ++ map EvRow (drop 2000 (movieRows 2500)) ++ [EvEnd StreamFinished]
    ++ repeat EvCommit 1000 ++ [EvMain] ++ repeat EvCommit 500.

(** A row arrives and the stream breaks. *)
Definition brokenPipe : list Event :=
  [EvRow (movieRow 1); EvEnd (StreamFailed "EPIPE" "write EPIPE")].

End Scenarios.


(** ** The file importer ([services/csv.service.ts]) *)

Module CsvImport.
Import JsString JsNumber Json Parser.

Abbreviation RawRow := (gmap string string).

(** [s.split(/, */)]: a comma and the spaces that follow it. *)
Fixpoint splitCommaSpacesFrom (skipping : bool) (s : string) : list string :=
  match s with
  | EmptyString => [EmptyString]
  | String c s' =>
      if skipping && ascii_eqb c " " then splitCommaSpacesFrom true s'
      else if ascii_eqb c "," then EmptyString :: splitCommaSpacesFrom true s'
      else pushChar c (splitCommaSpacesFrom false s')
  end.

Definition splitCommaSpaces (s : string) : list string :=
  splitCommaSpacesFrom false s.

(** The value of a hexadecimal digit. *)
Definition hexValue (c : ascii) : option Z :=
  let n := code c in
  if isDigit c then Some (Z.of_N (n - 48))
  else if ((97 <=? n) && (n <=? 102))%N then Some (Z.of_N (n - 87))
  else if ((65 <=? n) && (n <=? 70))%N then Some (Z.of_N (n - 55))
  else None.

Fixpoint readHexDigits (acc : Z) (count : nat) (s : string) : Z * nat * string :=
  match s with
  | String c s' =>
      match hexValue c with
      | Some v => readHexDigits (16 * acc + v)%Z (S count) s'
      | None => (acc, count, s)
      end
  | EmptyString => (acc, count, s)
  end.

(** [parseInt(s)] without a radix: base 16 after a prefix [0x] or [0X],
    base 10 otherwise. *)
Definition parseIntAuto (s : string) : Num :=
  let '(neg, s1) := readSign (trimStart s) in
  let '(v, k, _) :=
    if startsWith "0x" s1 || startsWith "0X" s1
    then readHexDigits 0 0 (dropChars 2 s1)
    else readDigits 0 0 s1 in
  match k with
  | O => NaN
  | S _ => toDouble (inject_Z (if neg then (- v)%Z else v))
  end.

(** [parseInt(v)] where [v] may be [undefined]. *)
Definition parseIntOpt (v : option string) : Num :=
  match v with
  | Some s => parseIntAuto s
  | None => NaN
  end.

(** [v || null] on a cell. *)
Definition orNull (v : option string) : option string :=
  match v with
  | Some s => if isEmpty s then None else Some s
  | None => None
  end.

(** [v ? f(v) : null] on a cell. *)
Definition whenTruthy {A} (f : string -> A) (v : option string) : option A :=
  match v with
  | Some s => if isEmpty s then None else Some (f s)
  | None => None
  end.

(** [v?.split(/, */) || []]. *)
Definition listOf (v : option string) : list string :=
  match v with
  | Some s => splitCommaSpaces s
  | None => []
  end.

Definition inputOf (v : option string) : JsInput :=
  match v with
  | Some s => Str s
  | None => Undefined
  end.

(** The object that [transformRow] builds.  The decoder has cast the
    cell of [release_date] to a Date, whatever its text. *)
Record Movie : Type := {
  id : option string;
  title : option string;
  vote_average : Num;
  vote_count : Num;
  status : option string;
  release_date : option StreamProcessor.JsDate;
  revenue : Z;
  runtime : option Num;
  budget : Z;
  imdb_id : option string;
  original_language : option string;
  original_title : option string;
  overview : option string;
  popularity : option Num;
  tagline : option string;
  genres : list string;
  production_companies : list JVal;
  production_countries : list string;
  spoken_languages : list string;
  cast : list JVal;
  director : list string;
  director_of_photography : list string;
  writers : list string;
  producers : list string;
  music_composer : list string;
  imdb_rating : option Num;
  imdb_votes : option Num;
  poster_path : option string
}.

Definition invalidData (message : string) : string := "数据格式无效: " +:+ message.

Section WithHost.
Context `{NumberFormat}.

(** [transformRow]; the members are evaluated in the order of the
    object literal, and what one of them throws is thrown again as a
    ValidationError. *)
Definition transformRow (row : RawRow) : Completion Movie :=
  match CsvService.moneyValue (row !! "revenue") with
  | Throw m => Throw m
  | Normal revenue' =>
      match CsvService.moneyValue (row !! "budget") with
      | Throw m => Throw m
      | Normal budget' =>
          match parseProductionCompanies (inputOf (row !! "production_companies")) with
          | Throw m => Throw (invalidData m)
          | Normal companies =>
              match parseCast (inputOf (row !! "cast")) with
              | Throw m => Throw (invalidData m)
              | Normal actors =>
                  Normal {|
                    id := row !! "id";
                    title := row !! "title";
                    vote_average := orZero (parseFloatOpt (row !! "vote_average"));
                    vote_count := orZero (parseIntOpt (row !! "vote_count"));
                    status := row !! "status";
                    release_date :=
                      match row !! "release_date" with
                      | Some text => Some (StreamProcessor.DateOf text)
                      | None => None
                      end;
                    revenue := revenue';
                    runtime := whenTruthy parseIntAuto (row !! "runtime");
                    budget := budget';
                    imdb_id := orNull (row !! "imdb_id");
                    original_language := orNull (row !! "original_language");
                    original_title :=
                      match orNull (row !! "original_title") with
                      | Some s => Some s
                      | None => row !! "title"
                      end;
                    overview := orNull (row !! "overview");
                    popularity := whenTruthy parseFloat (row !! "popularity");
                    tagline := orNull (row !! "tagline");
                    genres := filterBoolean (listOf (row !! "genres"));
                    production_companies := companies;
                    production_countries := listOf (row !! "production_countries");
                    spoken_languages := listOf (row !! "spoken_languages");
                    cast := actors;
                    director := listOf (row !! "director");
                    director_of_photography := listOf (row !! "director_of_photography");
                    writers := listOf (row !! "writers");
                    producers := listOf (row !! "producers");
                    music_composer := listOf (row !! "music_composer");
                    imdb_rating := whenTruthy parseFloat (row !! "imdb_rating");
                    imdb_votes := whenTruthy parseIntAuto (row !! "imdb_votes");
                    poster_path := orNull (row !! "poster_path")
                  |}
              end
          end
      end
  end.
End WithHost.

Record RowError : Type := { row : Z; error : string }.

Record Result : Type := {
  success : bool;
  count : nat;
  errorCount : nat;
  errors : list RowError
}.

(** The collaborators: [config.csv.batchSize], the outcome of the [n]-th
    transaction with [createMany] ([None] when it resolves) and the
    outcome of [$disconnect]. *)
Record Storage : Type := {
  batchSize : nat;
  createMany : nat -> list Movie -> option string;
  disconnect : option string
}.

(** What the source and the decoder deliver: the rows, and the error
    with which the pipeline fails after them, if it does. *)
Record Source : Type := {
  rows : list RawRow;
  failure : option string
}.

(** The variables that the two transforms share: the arrays [batch] and
    [errorRows] of [importMovies], which they get by reference, the row
    counter of the transformer, and the parameter [processedCount] of
    [createBatchProcessor], which is a copy of the variable of
    [importMovies].  [inserts] records the arrays given to [createMany]. *)
Record Store : Type := {
  batch : list Movie;
  errorRows : list RowError;
  rowNumber : nat;
  processedCount : nat;
  inserts : list (list Movie)
}.

Definition missingRequired : string := "缺少必填字段 ID 或 title".

Section WithStorage.
Context `{NumberFormat}.
Variable env : Storage.

(** The [transform] of [createTransformer]: the new store and the
    chunks pushed to the next stream, of which there are none. *)
Definition transformer (r : RawRow) (st : Store) : Store * list Movie :=
  let n := S (rowNumber st) in
  let refuse (message : string) := {|
    batch := batch st;
    errorRows := errorRows st ++ [{| row := Z.of_nat n; error := message |}];
    rowNumber := n; processedCount := processedCount st;
    inserts := inserts st |} in
  if StreamProcessor.falsy (r !! "id") || StreamProcessor.falsy (r !! "title")
  then (refuse missingRequired, [])
  else
    match transformRow r with
    | Normal transformed =>
        ({| batch := batch st ++ [transformed]; errorRows := errorRows st;
            rowNumber := n; processedCount := processedCount st;
            inserts := inserts st |}, [])
    | Throw message => (refuse message, [])
    end.

(** [CsvService.processBatch(batch)]: the store after the call, and the
    message of the DatabaseError that it throws, if it does. *)
Definition processBatch (st : Store) : Store * option string :=
  let st' := {| batch := batch st; errorRows := errorRows st;
                rowNumber := rowNumber st; processedCount := processedCount st;
                inserts := inserts st ++ [batch st] |} in
  match createMany env (length (inserts st)) (batch st) with
  | None => (st', None)
  | Some m => (st', Some ("数据库插入失败: " +:+ m))
  end.

(** The [transform] of [createBatchProcessor], for one chunk. *)
Definition batchTransform (st : Store) : Store :=
  if (batchSize env <=? length (batch st))%nat then
    match processBatch st with
    | (st', None) =>
        {| batch := []; errorRows := errorRows st'; rowNumber := rowNumber st';
           processedCount := (processedCount st' + length (batch st'))%nat;
           inserts := inserts st' |}
    | (st', Some _) => st'
    end
  else st.

(** The [flush] of [createBatchProcessor]. *)
Definition batchFlush (st : Store) : Store :=
  if (0 <? length (batch st))%nat then
    match processBatch st with
    | (st', None) =>
        {| batch := batch st'; errorRows := errorRows st'; rowNumber := rowNumber st';
           processedCount := (processedCount st' + length (batch st'))%nat;
           inserts := inserts st' |}
    | (st', Some _) => st'
    end
  else st.

(** A row goes through the transformer, and what the transformer pushes
    goes through the batch processor. *)
Definition feed (st : Store) (r : RawRow) : Store :=
  let '(st', pushed) := transformer r st in
  fold_left (fun acc _ => batchTransform acc) pushed st'.

(** What the caller of [importMovies] gets, and what storage got. *)
Record Run : Type := {
  outcome : Completion Result;
  stored : list (list Movie)
}.

(** [importMovies]: the pipeline, the result object or the
    DatabaseError, and the disconnect of the [finally] block, whose
    failure replaces either. *)
Definition importMovies (source : Source) : Run :=
  let processedCount0 := 0 in
  let st := fold_left feed (rows source)
              {| batch := []; errorRows := []; rowNumber := 0;
                 processedCount := processedCount0; inserts := [] |} in
  let '(body, final) :=
    match failure source with
    | Some message => (Throw ("CSV导入失败: " +:+ message), st)
    | None =>
        let st' := batchFlush st in
        (Normal {| success := true; count := processedCount0;
                   errorCount := length (errorRows st');
                   errors := firstn 10 (errorRows st') |}, st')
    end in
  {| outcome := match disconnect env with
                | None => body
                | Some message => Throw message
                end;
     stored := inserts final |}.
End WithStorage.

End CsvImport.


Module ImportScenarios.
Import JsString JsNumber Json Parser Samples CsvImport.

(** Storage whose transactions fail, with a batch size of one. *)
Definition failingStorage : Storage :=
  {| batchSize := 1; createMany := fun _ _ => Some "deadlock detected";
     disconnect := None |}.

(** Storage that accepts every transaction, with a batch size of 1000. *)
Definition healthyStorage : Storage :=
  {| batchSize := 1000; createMany := fun _ _ => None; disconnect := None |}.

(** A file of three rows, the second of which has no [id]. *)
Definition mixedFile : Source :=
  {| rows := [movieRow 1; namelessRow; movieRow 2]; failure := None |}.

End ImportScenarios.

(** * Properties *)

Import JsString JsNumber Json Parser.

(** ** The primitives on sample inputs *)

(** The two splits on commas, the split on a separator character, the name
    before [" as "], the bracket shorthand and [trim]. *)
Lemma string_primitives_examples :
  splitComma "a,  b,c," = ["a"; "b"; "c"; ""] /\
  splitComma "" = [""] /\
  splitChar "|" "a||b" = ["a"; ""; "b"] /\
  splitEntries "Tom Hanks as Woody, Tim Allen as Buzz, don Rickles as Mr. Potato Head"
    = ["Tom Hanks as Woody"; "Tim Allen as Buzz, don Rickles as Mr. Potato Head"] /\
  splitEntries "A as X, ,B as Y" = ["A as X, ,B as Y"] /\
  beforeAs "Tom Hanks AS Woody" = "Tom Hanks" /\
  beforeAs "Thomas" = "Thomas" /\
  simpleCompany "[Warner Bros. Pictures]" = Some "Warner Bros. Pictures" /\
  simpleCompany "[A,B]" = None /\
  simpleCompany "[]" = None /\
  trim "  a b  " = "a b".
Proof. repeat split; reflexivity. Qed.

(** [parseFloat] and [parseInt]: prefixes, rounding to binary64, overflow. *)
Lemma number_primitives_examples :
  parseFloat "12.5" = Fin (25 # 2) /\
  parseFloat "  -3.25e2 USD" = Fin (-325) /\
  parseFloat ".5" = Fin (1 # 2) /\
  parseFloat "1." = Fin 1 /\
  parseFloat "." = NaN /\
  parseFloat "abc" = NaN /\
  parseFloat "0.1" = Fin (3602879701896397 # 36028797018963968) /\
  parseFloat "9007199254740993" = Fin 9007199254740992 /\
  parseFloat "1e400" = Inf false /\
  parseFloat "1e-400" = Fin 0 /\
  parseInt " 42abc" = Fin 42 /\
  parseInt "abc" = NaN /\
  Math_round (Fin (-25 # 2)) = Fin (-12).
Proof. repeat split; reflexivity. Qed.

(** [JSON.parse] on a text with every kind of value, and on texts it
    refuses. *)
Lemma json_examples :
  JSON_parse (jsonText " [1, 2.5e1, true, null, {'a': [ ], 'b': {}} , 'x\ny'] ")
    = Normal (JArr [JNum (Fin 1); JNum (Fin 25); JBool true; JNull;
                    JObj [("a", JArr []); ("b", JObj [])];
                    JStr ("x" +:+ String (ascii_of_N 10) "y")]) /\
  (exists m, JSON_parse "[Boondocs]" = Throw m) /\
  (exists m, JSON_parse "[01]" = Throw m) /\
  (exists m, JSON_parse "[1,]" = Throw m) /\
  (exists m, JSON_parse "[1] 2" = Throw m).
Proof. repeat split; try reflexivity; eexists; reflexivity. Qed.

(** ** The tolerant field parsers *)

Section ParserProperties.
Context `{NumberFormat}.

Lemma companiesPrimary_normal (s : string) :
  exists l, companiesPrimary s = Normal l.
Proof.
  unfold companiesPrimary.
  repeat case_match; eauto.
Qed.

Lemma companiesBackup_normal (s : string) :
  exists l, companiesBackup s = Normal l.
Proof.
  unfold companiesBackup.
  repeat case_match; eauto.
Qed.

Lemma castPrimary_normal (wrap : JVal -> JVal) (s : string) :
  exists l, castPrimary wrap s = Normal l.
Proof.
  unfold castPrimary.
  repeat case_match; eauto.
Qed.

Lemma companiesWith_normal primary backup (input : JsInput) :
  exists l, companiesWith primary backup input = Normal l.
Proof.
  destruct input as [| |s]; simpl; eauto.
  destruct (isEmpty s); eauto.
  destruct (primary s); simpl; eauto.
  destruct (backup s); simpl; eauto.
Qed.

Lemma splitComma_without_comma (s : string) :
  includesChar "," s = false -> splitComma s = [s].
Proof.
  unfold splitComma. induction s as [|c s IH]; intros Hc; [reflexivity |].
  simpl in Hc. apply orb_false_iff in Hc as [Hc Hs].
  simpl. rewrite Hc, (IH Hs). reflexivity.
Qed.

(** A non-empty string without brackets and separators is one name. *)
Lemma companies_single_name (s : string) :
  isEmpty s = false ->
  startsWith "[" s && endsWithChar "]" s = false ->
  includesChar "|" s = false ->
  includesChar "," s = false ->
  parseProductionCompanies (Str s) = Normal [named (JStr (trim s))].
Proof.
  intros He Hb Hp Hc.
  unfold parseProductionCompanies, companiesWith. rewrite He.
  unfold companiesPrimary. rewrite Hb, Hp, (splitComma_without_comma s Hc).
  unfold filterBoolean. simpl. now rewrite He.
Qed.

Lemma castWith_normal primary backup (input : JsInput) :
  exists l, castWith primary backup input = Normal l.
Proof.
  destruct input as [| |s]; simpl; eauto.
  destruct (isEmpty s); eauto.
  destruct (primary s); simpl; eauto.
  destruct (backup s); simpl; eauto.
Qed.

(** C7. The three tolerant parsers return normally on every argument of
    their declared type; on [undefined], [null] and the empty string each
    returns the empty list; whatever the two [try] blocks of
    [parseProductionCompanies] do, it returns, the last handler yielding
    the one-element list that wraps the raw string; and on a string without
    brackets and separators it returns the one-element list that wraps the
    trimmed string. *)
Theorem tolerant_parsers_never_raise :
  (forall input, exists l, parseProductionCompanies input = Normal l) /\
  (forall input, exists l, parseCastNames input = Normal l) /\
  (forall input, exists l, parseCast input = Normal l) /\
  (parseProductionCompanies Undefined = Normal [] /\
   parseProductionCompanies Null = Normal [] /\
   parseProductionCompanies (Str "") = Normal []) /\
  (parseCastNames Undefined = Normal [] /\
   parseCastNames Null = Normal [] /\
   parseCastNames (Str "") = Normal []) /\
  (parseCast Undefined = Normal [] /\
   parseCast Null = Normal [] /\
   parseCast (Str "") = Normal []) /\
  (forall primary backup input,
      exists l, companiesWith primary backup input = Normal l) /\
  (forall primary backup s m1 m2,
      isEmpty s = false -> primary s = Throw m1 -> backup s = Throw m2 ->
      companiesWith primary backup (Str s) = Normal [named (JStr s)]) /\
  (forall s, exists l, companiesPrimary s = Normal l) /\
  (forall s,
      isEmpty s = false ->
      startsWith "[" s && endsWithChar "]" s = false ->
      includesChar "|" s = false ->
      includesChar "," s = false ->
      parseProductionCompanies (Str s) = Normal [named (JStr (trim s))]).
Proof.
  repeat split.
  - intros input. apply companiesWith_normal.
  - intros input. apply castWith_normal.
  - intros input. apply castWith_normal.
  - intros primary backup input. apply companiesWith_normal.
  - intros primary backup s m1 m2 Hs H1 H2.
    simpl. rewrite Hs, H1. simpl. rewrite H2. reflexivity.
  - apply companiesPrimary_normal.
  - apply companies_single_name.
Qed.


End ParserProperties.

(** As a term, the entry built from a JSON object carries an [id]
    member, [null] when the object has none, and the entry built from a
    name carries none; the spec reads both as a company without
    identifier. *)
Lemma companies_json_entry_has_id :
  parseProductionCompanies (Str (jsonText "[{'name':'A'}]"))
    = Normal [JObj [("name", JStr "A"); ("id", JNull)]] /\
  [JObj [("name", JStr "A"); ("id", JNull)]] <> [named (JStr "A")] /\
  map Entries.company [JObj [("name", JStr "A"); ("id", JNull)]]
    = map Entries.company [named (JStr "A")].
Proof. split; [reflexivity | split; [discriminate | reflexivity]]. Qed.

Section CanonicalCompanies.
Import Entries.

Lemma companyOf_canonical (c : JVal) :
  canonical c = true ->
  exists entry, companyOf c = Normal entry /\ company entry = company c.
Proof.
  unfold canonical, plainIdentifier, company.
  destruct c as [| b | n | s | items | ms]; try discriminate.
  destruct (lastMember "name" ms) as [name|] eqn:Hn; [| discriminate].
  intros [Hname Hid]%andb_true_iff.
  unfold companyOf, property. rewrite Hn. eexists. split; [reflexivity |].
  unfold orElse. rewrite Hname. simpl.
  destruct (lastMember "id" ms) as [i|]; [| reflexivity].
  destruct (truthyVal i) eqn:Hi; [reflexivity |].
  rewrite orb_false_r in Hid. now destruct i.
Qed.

Lemma mapM_companyOf_canonical (items : list JVal) :
  forallb canonical items = true ->
  exists entries,
    mapM companyOf items = Normal entries /\
    map company entries = map company items.
Proof.
  induction items as [|c items IH]; intros Hall; [now exists [] |].
  simpl in Hall. apply andb_true_iff in Hall as [Hc Hall].
  destruct (companyOf_canonical c Hc) as (entry & He & Hv).
  destruct (IH Hall) as (entries & Hm & Hvs).
  exists (entry :: entries). simpl. rewrite He, Hm. split; [reflexivity |].
  now rewrite Hv, Hvs.
Qed.

Lemma companyOf_plain (c entry : JVal) :
  companyOf c = Normal entry -> plainIdentifier entry = true.
Proof.
  unfold companyOf, plainIdentifier.
  destruct c as [| b | n | s | items | ms]; simpl; try discriminate;
    intros [= <-]; try reflexivity.
  unfold company. simpl. unfold orElse.
  destruct (lastMember "id" ms) as [i|]; [| reflexivity].
  destruct (truthyVal i) eqn:Hi; [| reflexivity].
  rewrite Hi. apply orb_true_r.
Qed.

Lemma mapM_companyOf_plain (items : list JVal) :
  forall entries,
    mapM companyOf items = Normal entries ->
    forallb plainIdentifier entries = true.
Proof.
  induction items as [|c items IH]; intros entries; simpl.
  - now intros [= <-].
  - destruct (companyOf c) as [entry|] eqn:Hc; [| discriminate].
    destruct (mapM companyOf items) as [rest|]; [| discriminate].
    intros [= <-]. simpl. now rewrite (companyOf_plain _ _ Hc), (IH _ eq_refl).
Qed.

Lemma namesOf_plain (pieces : list string) :
  forallb plainIdentifier (namesOf pieces) = true.
Proof. induction pieces as [|p pieces IH]; [reflexivity | exact IH]. Qed.

(** C8. With an entry read as the spec gives it, a name and an optional
    external identifier, parsing [[{"name":"A"}]] yields the one company
    named A, parsing ["A, B"] the companies A and B, and parsing
    ["[Boondocs]"] the company Boondocs, none with an identifier.  The
    parser is idempotent on its canonical output: every list that it
    returns is made of entries with a name and a plain identifier, and
    parsing a JSON text that denotes a list of such entries, their names
    not empty, yields the same companies again. *)
Theorem companies_idempotent :
  ((exists entries,
       parseProductionCompanies (Str (jsonText "[{'name':'A'}]")) = Normal entries /\
       map company entries = map company [named (JStr "A")]) /\
   parseProductionCompanies (Str "A, B")
     = Normal [named (JStr "A"); named (JStr "B")] /\
   parseProductionCompanies (Str "[Boondocs]")
     = Normal [named (JStr "Boondocs")]) /\
  (forall input, exists entries,
      parseProductionCompanies input = Normal entries /\
      forallb plainIdentifier entries = true) /\
  (forall text items,
      startsWith "[" text && endsWithChar "]" text = true ->
      simpleCompany text = None ->
      JSON_parse text = Normal (JArr items) ->
      forallb canonical items = true ->
      exists entries,
        parseProductionCompanies (Str text) = Normal entries /\
        map company entries = map company items).
Proof.
  split; [split; [eexists; split; reflexivity | split; reflexivity] |]. split.
  - intros input. unfold parseProductionCompanies, companiesWith.
    destruct input as [| |s]; try (exists []; now split).
    destruct (isEmpty s); [exists []; now split |].
    assert (Hplain : exists cs,
               (if includesChar "|" s then Normal (namesOf (splitChar "|" s))
                else Normal (namesOf (filterBoolean (splitComma s)))) = Normal cs /\
               forallb plainIdentifier cs = true).
    { destruct (includesChar "|" s); eexists; split; try reflexivity;
        apply namesOf_plain. }
    destruct Hplain as (plain & Hplain & Hnames).
    unfold companiesPrimary. rewrite Hplain.
    destruct (startsWith "[" s && endsWithChar "]" s);
      [| exists plain; now split].
    destruct (simpleCompany s); [eexists; now split |].
    destruct (JSON_parse s) as [[| | | |items|]|];
      try (exists plain; now split).
    destruct (mapM companyOf items) as [entries|] eqn:Hm;
      [| exists plain; now split].
    exists entries. split; [reflexivity |].
    now apply (mapM_companyOf_plain items).
  - intros text items Hbr Hsimple Hparse Hcan.
    destruct (mapM_companyOf_canonical items Hcan) as (entries & Hm & Hv).
    exists entries. split; [| exact Hv].
    unfold parseProductionCompanies, companiesWith.
    destruct text as [|c text']; [discriminate Hbr |]. simpl isEmpty. cbv iota.
    unfold companiesPrimary. rewrite Hbr, Hsimple, Hparse, Hm. reflexivity.
Qed.

End CanonicalCompanies.

(** ** The header validator *)

Section ValidatorProperties.
Import Validator.
Variable decode : list string -> CsvOutcome.

Lemma ascii_eqb_refl (c : ascii) : ascii_eqb c c = true.
Proof. unfold ascii_eqb. apply N.eqb_refl. Qed.

Lemma startsWith_app (p x : string) : startsWith p (p +:+ x) = true.
Proof.
  induction p as [|c p IH]; [reflexivity |].
  simpl. now rewrite ascii_eqb_refl, IH.
Qed.

Lemma startsWith_self (p : string) : startsWith p p = true.
Proof.
  induction p as [|c p IH]; [reflexivity |].
  simpl. now rewrite ascii_eqb_refl, IH.
Qed.

Lemma includes_here (p s : string) : startsWith p s = true -> includes p s = true.
Proof. intros Hp. destruct s; simpl; now rewrite Hp. Qed.

Lemma includes_app_r (p a b : string) :
  includes p b = true -> includes p (a +:+ b) = true.
Proof.
  intros Hb. induction a as [|c a IH]; [exact Hb |].
  simpl. rewrite IH. apply orb_true_r.
Qed.

(** Every string of a joined list occurs in the joined text. *)
Lemma includes_join (sep h : string) (l : list string) :
  In h l -> includes h (join sep l) = true.
Proof.
  induction l as [|x rest IH]; intros Hin; [destruct Hin |].
  destruct rest as [|y rest'].
  - destruct Hin as [-> | []]. simpl. apply includes_here, startsWith_self.
  - change (join sep (x :: y :: rest')) with (x +:+ sep +:+ join sep (y :: rest')).
    destruct Hin as [-> | Hin].
    + apply includes_here, startsWith_app.
    + apply includes_app_r, includes_app_r, IH, Hin.
Qed.

Lemma includesHeader_In (headers : list string) (h : string) :
  includesHeader headers h = true <-> In h headers.
Proof.
  unfold includesHeader. rewrite existsb_exists. split.
  - intros (x & Hx & Heq). apply String.eqb_eq in Heq. now subst.
  - intros Hin. exists h. split; [assumption | apply String.eqb_refl].
Qed.

Lemma missingHeaders_In (headers : list string) (h : string) :
  In h (missingHeaders headers) <-> In h REQUIRED_HEADERS /\ ~ In h headers.
Proof.
  unfold missingHeaders. rewrite filter_In, negb_true_iff.
  rewrite <- (includesHeader_In headers h).
  destruct (includesHeader headers h); intuition congruence.
Qed.

Lemma missingHeaders_nil (headers : list string) :
  missingHeaders headers = [] <->
  (forall h, In h REQUIRED_HEADERS -> In h headers).
Proof.
  split.
  - intros Hnil h Hreq.
    destruct (includesHeader headers h) eqn:E.
    + now apply includesHeader_In.
    + assert (Hin : In h (missingHeaders headers)).
      { apply missingHeaders_In. split; [assumption |].
        rewrite <- includesHeader_In. congruence. }
      rewrite Hnil in Hin. destruct Hin.
  - intros Hall.
    destruct (missingHeaders headers) as [|h rest] eqn:E; [reflexivity |].
    assert (Hin : In h (missingHeaders headers)) by (rewrite E; now left).
    apply missingHeaders_In in Hin. destruct Hin as [Hreq Hnot].
    exfalso. apply Hnot, Hall, Hreq.
Qed.

(** C6. [validateCsvHeaders] settles only when the decoder emits an error
    or reaches its end: while the decoder stalls, the promise stays
    pending, also for a stream whose first record holds all the required
    names.  When the decoder reaches its end, the promise resolves to
    [null] exactly when the first record holds every one of the 28
    required names, whatever their order; when names are missing it
    resolves, for a first record with at least one cell, to the message
    that lists exactly the missing ones, as for the header
    [id,title,vote_average]; a stream without data resolves to the
    empty-file message. *)
Theorem header_validation :
  length REQUIRED_HEADERS = 28 /\
  (forall chunks,
      validateCsvHeaders decode chunks = Pending <->
      chunks <> [] /\ decode chunks = CsvStalled) /\
  (forall chunks,
      validateCsvHeaders decode chunks = Settled (Normal None) <->
      chunks <> [] /\
      exists headers rest,
        decode chunks = CsvRecords (headers :: rest) /\
        forall h, In h REQUIRED_HEADERS -> In h headers) /\
  (forall chunks headers rest,
      chunks <> [] ->
      decode chunks = CsvRecords (headers :: rest) ->
      headers <> [] ->
      missingHeaders headers <> [] ->
      validateCsvHeaders decode chunks
        = Settled (Normal (Some (missingPrefix +:+ join ", " (missingHeaders headers)))) /\
      (forall h, In h (missingHeaders headers) <->
                 In h REQUIRED_HEADERS /\ ~ In h headers) /\
      (forall h, In h REQUIRED_HEADERS -> ~ In h headers ->
                 includes h (missingPrefix +:+ join ", " (missingHeaders headers))
                 = true)) /\
  (forall chunks rest,
      chunks <> [] ->
      decode chunks = CsvRecords (["id"; "title"; "vote_average"] :: rest) ->
      validateCsvHeaders decode chunks
        = Settled (Normal (Some "缺少必需的列: vote_count, status, release_date, revenue, runtime, budget, imdb_id, original_language, original_title, overview, popularity, tagline, genres, production_companies, production_countries, spoken_languages, cast, director, director_of_photography, writers, producers, music_composer, imdb_rating, imdb_votes, poster_path"))) /\
  validateCsvHeaders decode [] = Settled (Normal (Some emptyFile)).
Proof.
  split; [reflexivity |].
  split.
  { intros chunks. unfold validateCsvHeaders. split.
    - intros Hres. destruct chunks as [|c cs]; [discriminate |].
      split; [discriminate |].
      destruct (decode (c :: cs)) as [m|records|]; [discriminate | | reflexivity].
      destruct records as [|[|h0 hs] rest]; try discriminate.
      destruct (missingHeaders (h0 :: hs)); discriminate.
    - intros (Hne & D). destruct chunks as [|c cs]; [congruence |].
      now rewrite D. }
  split.
  { intros chunks. unfold validateCsvHeaders. split.
    - intros Hres. destruct chunks as [|c cs]; [discriminate |].
      split; [discriminate |].
      destruct (decode _) as [m|records|] eqn:D; [discriminate | | discriminate].
      destruct records as [|headers rest]; [discriminate |].
      destruct headers as [|h0 hs]; [discriminate |].
      exists (h0 :: hs), rest. split; [reflexivity |].
      apply missingHeaders_nil.
      destruct (missingHeaders (h0 :: hs)); [reflexivity | discriminate].
    - intros (Hne & headers & rest & D & Hall).
      destruct chunks as [|c cs]; [congruence |].
      rewrite D.
      destruct headers as [|h0 hs].
      + exfalso. apply (Hall "id"). now left.
      + apply missingHeaders_nil in Hall. now rewrite Hall. }
  split.
  { intros chunks headers rest Hne D Hcells Hmiss. split.
    - unfold validateCsvHeaders.
      destruct chunks as [|c cs]; [congruence |].
      rewrite D.
      destruct headers as [|h0 hs].
      + congruence.
      + destruct (missingHeaders (h0 :: hs)) eqn:E; [congruence | reflexivity].
    - split; [intros h; apply missingHeaders_In |].
      intros h Hreq Hnot. apply includes_app_r, includes_join.
      apply missingHeaders_In. now split. }
  split.
  { intros chunks rest Hne D. unfold validateCsvHeaders.
    destruct chunks as [|c cs]; [congruence |].
    rewrite D. reflexivity. }
  reflexivity.
Qed.

End ValidatorProperties.

(** ** The monetary fields *)

Section MoneyProperties.
Import StreamProcessor.

Lemma BigInt_inject_Z (z : Z) : BigInt (Fin (inject_Z z)) = Normal z.
Proof.
  assert (Hred : Qred (inject_Z z) = inject_Z z).
  { apply Qred_identity. simpl. apply Z.gcd_1_r. }
  unfold BigInt, isIntegral. rewrite Hred. reflexivity.
Qed.

Lemma moneyValue_finite (raw : option string) (q : Q) :
  parseFloatOpt raw = Fin q ->
  CsvService.moneyValue raw = Normal (Qfloor (q + (1 # 2))).
Proof.
  intros Hq. unfold CsvService.moneyValue. rewrite Hq.
  unfold orZero, truthy.
  destruct (Qeq_bool q 0) eqn:E; simpl negb; cbv iota.
  - unfold Math_round. rewrite BigInt_inject_Z.
    apply Qeq_bool_eq in E.
    f_equal. apply Qfloor_comp. rewrite E. reflexivity.
  - unfold Math_round. now rewrite BigInt_inject_Z.
Qed.

Lemma moneyValue_NaN (raw : option string) :
  parseFloatOpt raw = NaN -> CsvService.moneyValue raw = Normal 0%Z.
Proof.
  intros Hq. unfold CsvService.moneyValue. now rewrite Hq.
Qed.

(** C3, as stated, fails: on ["12.5"] the streaming transformer keeps the
    fraction, and the file importer rounds to 13 where truncation gives
    12. *)
Lemma money_is_not_truncated :
  parseMoneyValue (Some "12.5") = Fin (25 # 2) /\
  isIntegral (parseMoneyValue (Some "12.5")) = false /\
  CsvService.moneyValue (Some "12.5") = Normal 13%Z /\
  Math_trunc (parseFloat "12.5") = Fin 12.
Proof. repeat split; reflexivity. Qed.

Lemma parseMoneyValue_cases (value : option string) :
  parseMoneyValue value =
  match value with
  | None => Fin 0
  | Some s =>
      match parseFloat s with
      | NaN => Fin 0
      | Fin q => if Qeq_bool q 0 then Fin 0 else Fin q
      | Inf negative => Inf negative
      end
  end.
Proof.
  unfold parseMoneyValue. destruct value as [s|]; [| reflexivity].
  destruct s as [|c s']; [reflexivity |]. simpl isEmpty. cbv iota.
  unfold orZero, truthy.
  destruct (parseFloat (String c s')) as [| negative | q]; try reflexivity.
  now destruct (Qeq_bool q 0).
Qed.

Lemma moneyValue_cases (raw : option string) :
  CsvService.moneyValue raw =
  match parseFloatOpt raw with
  | NaN => Normal 0%Z
  | Fin q => Normal (Qfloor (q + (1 # 2)))
  | Inf false =>
      Throw "数据格式无效: The number Infinity cannot be converted to a BigInt because it is not an integer"
  | Inf true =>
      Throw "数据格式无效: The number -Infinity cannot be converted to a BigInt because it is not an integer"
  end.
Proof.
  destruct (parseFloatOpt raw) as [| negative | q] eqn:Hq.
  - now apply moneyValue_NaN.
  - unfold CsvService.moneyValue. rewrite Hq. now destruct negative.
  - now apply moneyValue_finite.
Qed.

(** C3, amended. The file importer parses a monetary cell as floating
    point and, the parsed value being finite, rounds it to the nearest
    integer, halves upward; it yields 0 for a cell that is absent, empty
    or not a number; so the monetary fields of the records that it builds
    are integers; a cell whose parsed value is infinite makes it refuse
    the row.  The streaming transformer parses the cell as floating point
    and keeps the parsed number as it is, and yields 0 for a cell that is
    absent, empty or not a number. *)
Theorem money_fields :
  (forall raw,
      CsvService.moneyValue raw =
      match parseFloatOpt raw with
      | NaN => Normal 0%Z
      | Fin q => Normal (Qfloor (q + (1 # 2)))
      | Inf false =>
          Throw "数据格式无效: The number Infinity cannot be converted to a BigInt because it is not an integer"
      | Inf true =>
          Throw "数据格式无效: The number -Infinity cannot be converted to a BigInt because it is not an integer"
      end) /\
  (forall raw q, parseFloatOpt raw = Fin q ->
                 CsvService.moneyValue raw = Normal (Qfloor (q + (1 # 2)))) /\
  CsvService.moneyValue None = Normal 0%Z /\
  CsvService.moneyValue (Some "") = Normal 0%Z /\
  (forall s, parseFloat s = NaN -> CsvService.moneyValue (Some s) = Normal 0%Z) /\
  (forall (host : NumberFormat) row movie,
      CsvImport.transformRow row = Normal movie ->
      CsvService.moneyValue (row !! "revenue") = Normal (CsvImport.revenue movie) /\
      CsvService.moneyValue (row !! "budget") = Normal (CsvImport.budget movie)) /\
  (forall (host : NumberFormat) row negative,
      parseFloatOpt (row !! "revenue") = Inf negative \/
      parseFloatOpt (row !! "budget") = Inf negative ->
      exists message, CsvImport.transformRow row = Throw message) /\
  (forall value,
      parseMoneyValue value =
      match value with
      | None => Fin 0
      | Some s =>
          match parseFloat s with
          | NaN => Fin 0
          | Fin q => if Qeq_bool q 0 then Fin 0 else Fin q
          | Inf negative => Inf negative
          end
      end) /\
  parseMoneyValue None = Fin 0 /\
  parseMoneyValue (Some "") = Fin 0 /\
  (forall s, parseFloat s = NaN -> parseMoneyValue (Some s) = Fin 0) /\
  (forall (host : NumberFormat) r t,
      transformRow r = Normal t ->
      revenue t = parseMoneyValue (r !! "revenue") /\
      budget t = parseMoneyValue (r !! "budget")).
Proof.
  split; [apply moneyValue_cases |].
  split; [apply moneyValue_finite |].
  split; [reflexivity |].
  split; [reflexivity |].
  split; [intros s Hs; now apply moneyValue_NaN |].
  split.
  { intros host row movie Hm. unfold CsvImport.transformRow in Hm.
    destruct (CsvService.moneyValue (row !! "revenue")) as [rv|]; [| discriminate].
    destruct (CsvService.moneyValue (row !! "budget")) as [bd|]; [| discriminate].
    destruct (parseProductionCompanies _); [| discriminate].
    destruct (parseCast _); [| discriminate].
    injection Hm as <-. split; reflexivity. }
  split.
  { intros host row negative Hinf. unfold CsvImport.transformRow.
    rewrite !moneyValue_cases.
    destruct Hinf as [-> | Hb].
    - destruct negative; eauto.
    - destruct (parseFloatOpt (row !! "revenue")) as [| [|] |]; eauto;
        rewrite Hb; destruct negative; eauto. }
  split; [apply parseMoneyValue_cases |].
  split; [reflexivity |].
  split; [reflexivity |].
  split.
  { intros s Hs. unfold parseMoneyValue. rewrite Hs.
    now destruct (isEmpty s). }
  intros host r t Ht. unfold transformRow in Ht.
  destruct (parseProductionCompanies _); [| discriminate].
  destruct (parseCastNames _); [| discriminate].
  injection Ht as <-. split; reflexivity.
Qed.

End MoneyProperties.

(** ** The committer *)

Section CommitProperties.
Import StreamProcessor.
Context `{NumberFormat}.
Variable env : Env.

(** The retry loop of one record, by the outcomes of its attempts. *)
Lemma commitItem_cases (item : NormalizedRecord) (c : Commit) :
  commitItem env item c =
  match upsert env (calls c) item with
  | None =>
      {| calls := S (calls c); inserted := S (inserted c);
         failures := failures c; waits := waits c |}
  | Some _ =>
      match upsert env (S (calls c)) item with
      | None =>
          {| calls := S (S (calls c)); inserted := S (inserted c);
             failures := failures c; waits := waits c ++ [500] |}
      | Some _ =>
          match upsert env (S (S (calls c))) item with
          | None =>
              {| calls := S (S (S (calls c))); inserted := S (inserted c);
                 failures := failures c;
                 waits := (waits c ++ [500]) ++ [1000] |}
          | Some e =>
              {| calls := S (S (S (calls c))); inserted := inserted c;
                 failures := failures c ++
                   [{| row := (-1)%Z; error := upsertFailure item e |}];
                 waits := (waits c ++ [500]) ++ [1000] |}
          end
      end
  end.
Proof.
  unfold commitItem. simpl.
  destruct (upsert env (calls c) item); [| reflexivity].
  destruct (upsert env (S (calls c)) item); [| reflexivity].
  destruct (upsert env (S (S (calls c))) item); reflexivity.
Qed.

(** More fuel than [S MAX_RETRIES] changes nothing: the loop has ended. *)
Lemma retryLoop_fuel (k : nat) (item : NormalizedRecord) (c : Commit) :
  retryLoop env (S MAX_RETRIES + k) item 0 false c = commitItem env item c.
Proof.
  unfold commitItem. simpl.
  destruct (upsert env (calls c) item).
  - destruct (upsert env (S (calls c)) item).
    + destruct (upsert env (S (S (calls c))) item); destruct k; reflexivity.
    + destruct k; reflexivity.
  - destruct k; reflexivity.
Qed.

Lemma commitBatch_cons (item : NormalizedRecord) rest (c : Commit) :
  commitBatch env (item :: rest) c = commitBatch env rest (commitItem env item c).
Proof. reflexivity. Qed.

Lemma run_commits_flight (batch : list NormalizedRecord) :
  forall (s : State) (who : Owner) (k : nat),
    batch <> [] ->
    flight s = Some {| owner := who; todo := batch; insertedCount := k |} ->
    run env s (repeat EvCommit (length batch)) =
    landed env who
      (commitBatch env batch {| calls := upsertCalls s; inserted := k;
                                failures := errorRows s; waits := delays s |})
      s.
Proof.
  induction batch as [|item rest IH]; intros s who k Hne Hf; [congruence |].
  destruct rest as [|next rest'].
  - simpl. unfold commitNext. rewrite Hf. reflexivity.
  - change (length (item :: next :: rest')) with (S (length (next :: rest'))).
    cbn [repeat run fold_left step].
    change (fold_left (step env) ?l ?a) with (run env a l).
    assert (Hstep : flight (commitNext env s) =
              Some {| owner := who; todo := next :: rest';
                      insertedCount :=
                        inserted (commitItem env item
                          {| calls := upsertCalls s; inserted := k;
                             failures := errorRows s; waits := delays s |}) |}).
    { unfold commitNext. rewrite Hf. reflexivity. }
    rewrite (IH _ who _ ltac:(discriminate) Hstep).
    rewrite commitBatch_cons.
    unfold commitNext. rewrite Hf. reflexivity.
Qed.

Lemma settle_flight (s : State) (who : Owner) batch (k : nat) :
  batch <> [] ->
  flight s = Some {| owner := who; todo := batch; insertedCount := k |} ->
  settle env s =
  landed env who
    (commitBatch env batch {| calls := upsertCalls s; inserted := k;
                              failures := errorRows s; waits := delays s |})
    s.
Proof.
  intros Hne Hf. unfold settle, pending. rewrite Hf. simpl todo.
  now apply run_commits_flight.
Qed.

Lemma settle_idle (s : State) : flight s = None -> settle env s = s.
Proof. intros Hf. unfold settle, pending. now rewrite Hf. Qed.

(** C2. Every record of a batch gets at most three attempts, the wait
    after the [n]-th failed attempt being [500 * n] ms.  A record that
    fails twice and then succeeds is counted and leaves no error row; one
    that fails three times leaves exactly one error row with its
    identifier and the last message, is not counted, and the loop goes on
    with the records that follow; the count of the processor grows by the
    number of records committed. *)
Theorem commit_with_retries :
  (forall item c,
      calls c < calls (commitItem env item c) <= calls c + MAX_RETRIES /\
      forall k, retryLoop env (S MAX_RETRIES + k) item 0 false c
                = commitItem env item c) /\
  (forall item c e1 e2,
      upsert env (calls c) item = Some e1 ->
      upsert env (S (calls c)) item = Some e2 ->
      upsert env (S (S (calls c))) item = None ->
      commitItem env item c =
      {| calls := calls c + 3; inserted := S (inserted c);
         failures := failures c; waits := waits c ++ [500 * 1; 500 * 2] |}) /\
  (forall item c e1 e2 e3,
      upsert env (calls c) item = Some e1 ->
      upsert env (S (calls c)) item = Some e2 ->
      upsert env (S (S (calls c))) item = Some e3 ->
      commitItem env item c =
      {| calls := calls c + 3; inserted := inserted c;
         failures := failures c ++
           [{| row := (-1)%Z;
               error := "处理记录ID " +:+ id item +:+ " 失败: " +:+ e3 |}];
         waits := waits c ++ [500 * 1; 500 * 2] |}) /\
  (forall item rest c,
      commitBatch env (item :: rest) c
      = commitBatch env rest (commitItem env item c)) /\
  (forall s who batch k,
      batch <> [] ->
      flight s = Some {| owner := who; todo := batch; insertedCount := k |} ->
      let c := commitBatch env batch
                 {| calls := upsertCalls s; inserted := k;
                    failures := errorRows s; waits := delays s |} in
      settle env s = landed env who c s /\
      processedCount (landed env who c s) = processedCount s + inserted c).
Proof.
  split.
  { intros item c. split; [| intros k; apply retryLoop_fuel].
    rewrite commitItem_cases. unfold MAX_RETRIES.
    repeat case_match; simpl; lia. }
  split.
  { intros item c e1 e2 Ha Hb Hc.
    rewrite commitItem_cases, Ha, Hb, Hc.
    rewrite <- app_assoc. f_equal. lia. }
  split.
  { intros item c e1 e2 e3 Ha Hb Hc.
    rewrite commitItem_cases, Ha, Hb, Hc.
    rewrite <- app_assoc. f_equal. lia. }
  split; [intros; apply commitBatch_cons |].
  intros s who batch k Hne Hf c. split.
  - now apply settle_flight.
  - unfold landed, drainCheck, finalize, setMain.
    destruct who; [| reflexivity].
    repeat case_match; reflexivity.
Qed.

End CommitProperties.

(** ** The processor *)

Section ProcessorProperties.
Import StreamProcessor.
Context `{NumberFormat}.
Variable env : Env.

Lemma run_app (s : State) (a b : list Event) :
  run env s (a ++ b) = run env (run env s a) b.
Proof. apply fold_left_app. Qed.

Lemma transformRow_normal (r : RawRow) : exists t, transformRow r = Normal t.
Proof.
  unfold transformRow.
  destruct (companiesWith_normal companiesPrimary companiesBackup
              (inputOf (getValue r "production_companies"))) as [cs Hcs].
  unfold parseProductionCompanies. rewrite Hcs.
  destruct (castWith_normal (castPrimary (fun v => v)) (castBackup (fun v => v))
              (inputOf (getValue r "cast"))) as [ns Hns].
  unfold parseCastNames. rewrite Hns. eauto.
Qed.

(** *** What every schedule preserves *)

Ltac unfold_step :=
  unfold step, transform, pipelineSettled, afterPipeline, commitNext,
    pollParked, pollMain, processBatch, takeBatch, drainCheck, finalize,
    pushError, pushRecord, setMain, setParked in *.

Ltac snoc_nil :=
  match goal with
  | E : ?l ++ [_] = [] |- _ => destruct l; discriminate E
  end.

Lemma step_successful (s : State) (e : Event) :
  successful (main s) -> successful (main (step env s e)).
Proof.
  intros Hs. destruct s as [rn cb ip pc er fl pk m uc dl fs].
  unfold_step. simpl in *.
  destruct e; repeat case_match; simpl in *; subst; auto.
Qed.

Lemma run_successful (events : list Event) :
  forall s, successful (main s) -> successful (main (run env s events)).
Proof.
  induction events as [|e events IH]; intros s Hs; [exact Hs |].
  simpl. apply IH, step_successful, Hs.
Qed.

Lemma step_consistent (s : State) (e : Event) :
  consistent s -> consistent (step env s e).
Proof.
  unfold consistent. intros Hs.
  destruct s as [rn cb ip pc er fl pk m uc dl fs]. unfold_step. simpl in *.
  destruct e; repeat case_match; simplify_eq/=; try snoc_nil;
    intuition (try congruence; try discriminate).
Qed.

Lemma run_consistent (events : list Event) :
  forall s, consistent s -> consistent (run env s events).
Proof.
  induction events as [|e events IH]; intros s Hs; [exact Hs |].
  simpl. apply IH, step_consistent, Hs.
Qed.

Lemma initial_consistent : consistent initial.
Proof. reflexivity. Qed.

End ProcessorProperties.

Section Simulation.
Import StreamProcessor.
Context `{NumberFormat}.
Variable env : Env.

Ltac unfold_step :=
  unfold step, transform, pipelineSettled, afterPipeline, commitNext,
    pollParked, pollMain, processBatch, takeBatch, drainCheck, finalize,
    pushError, pushRecord, setMain, setParked in *.

(** The retry loop reads the error rows only to append to them. *)
Lemma commitItem_frame (item : NormalizedRecord) (c : Commit) (fs : list ErrorRow) :
  let c' := commitItem env item c in
  let d' := commitItem env item {| calls := calls c; inserted := inserted c;
                                   failures := fs; waits := waits c |} in
  calls d' = calls c' /\ inserted d' = inserted c' /\ waits d' = waits c'.
Proof.
  cbv zeta. rewrite !commitItem_cases. simpl.
  repeat case_match; simpl; auto.
Qed.

Lemma erase_idem (s : State) : erase (erase s) = erase s.
Proof. destruct s as [? ? ? ? ? ? ? m ? ? ?]. now destruct m. Qed.

Lemma step_erase (s : State) (e : Event) :
  erase (step env s e) = erase (step env (erase s) e).
Proof.
  destruct e.
  - destruct s as [rn cb ip pc er fl pk m uc dl fs].
    unfold erase. unfold_step. simpl.
    repeat case_match; simplify_eq/=; first [reflexivity | now destruct m].
  - destruct s as [rn cb ip pc er fl pk m uc dl fs].
    unfold erase. unfold_step. simpl.
    repeat case_match; simplify_eq/=; first [reflexivity | now destruct m].
  - unfold step, commitNext.
    change (flight (erase s)) with (flight s).
    destruct (flight s) as [[who [|item rest] k]|] eqn:Hf;
      [now rewrite erase_idem | | now rewrite erase_idem].
    change (upsertCalls (erase s)) with (upsertCalls s).
    change (delays (erase s)) with (delays s).
    change (errorRows (erase s)) with (@nil ErrorRow).
    pose proof (commitItem_frame item
                  {| calls := upsertCalls s; inserted := k;
                     failures := errorRows s; waits := delays s |} []) as Hfr.
    cbv zeta in Hfr. simpl in Hfr. destruct Hfr as (Hc & Hi & Hw).
    destruct rest as [|next rest'].
    + destruct who; unfold erase, drainCheck, finalize, setMain;
        cbn -[commitItem]; rewrite ?Hc, ?Hi, ?Hw;
        repeat case_match; simplify_eq; destruct (main s); reflexivity.
    + unfold erase; cbn -[commitItem]. rewrite ?Hc, ?Hi, ?Hw.
      destruct (main s); reflexivity.
  - destruct s as [rn cb ip pc er fl pk m uc dl fs].
    unfold erase. unfold_step. simpl.
    repeat case_match; simplify_eq/=; first [reflexivity | now destruct m].
  - destruct s as [rn cb ip pc er fl pk m uc dl fs].
    unfold erase. unfold_step. simpl.
    repeat case_match; simplify_eq/=; first [reflexivity | now destruct m].
Qed.

Lemma run_erase (events : list Event) :
  forall a b, erase a = erase b ->
              erase (run env a events) = erase (run env b events).
Proof.
  induction events as [|e events IH]; intros a b Hab; [exact Hab |].
  simpl. apply IH. rewrite (step_erase a), (step_erase b). now rewrite Hab.
Qed.

End Simulation.

Section PipelineProperties.
Import StreamProcessor.
Context `{NumberFormat}.
Variable env : Env.

(** C4. A row whose [id] or [title] is absent or empty adds one error row
    with its row number and changes nothing else: no record enters the
    batch, nothing is flushed or committed for it, and whatever happens
    next happens as if the row had not been there, up to the row counter
    and the error rows. *)
Theorem missing_required_row_is_skipped (s : State) (r : RawRow) :
  main s = Piping ->
  falsy (r !! "id") || falsy (r !! "title") = true ->
  let s' := step env s (EvRow r) in
  errorRows s' = errorRows s ++
    [{| row := Z.of_nat (S (rowNumber s)); error := "缺少必填字段 ID 或 title" |}] /\
  rowNumber s' = S (rowNumber s) /\
  currentBatch s' = currentBatch s /\
  flushed s' = flushed s /\
  flight s' = flight s /\
  isProcessing s' = isProcessing s /\
  parked s' = parked s /\
  processedCount s' = processedCount s /\
  upsertCalls s' = upsertCalls s /\
  main s' = Piping /\
  forall events,
    let a := run env s' events in
    let b := run env s events in
    currentBatch a = currentBatch b /\
    flushed a = flushed b /\
    flight a = flight b /\
    processedCount a = processedCount b /\
    upsertCalls a = upsertCalls b /\
    eraseMain (main a) = eraseMain (main b).
Proof.
  intros Hm Hr. cbv zeta.
  assert (Hs : step env s (EvRow r) =
               pushError {| row := Z.of_nat (S (rowNumber s));
                            error := missingRequired |} (S (rowNumber s)) s).
  { unfold step, transform. now rewrite Hm, Hr. }
  rewrite Hs. simpl. repeat (split; [reflexivity || assumption |]).
  intros events.
  assert (He : erase (run env (pushError {| row := Z.of_nat (S (rowNumber s));
                                            error := missingRequired |}
                                 (S (rowNumber s)) s) events)
               = erase (run env s events)).
  { apply run_erase. reflexivity. }
  repeat split.
  - exact (f_equal currentBatch He).
  - exact (f_equal flushed He).
  - exact (f_equal flight He).
  - exact (f_equal processedCount He).
  - exact (f_equal upsertCalls He).
  - exact (f_equal main He).
Qed.

Lemma settle_successful (s : State) :
  successful (main s) -> successful (main (settle env s)).
Proof. apply run_successful. Qed.

Lemma deliverAll_successful (rows : list RawRow) :
  forall s, successful (main s) -> successful (main (deliverAll env s rows)).
Proof.
  induction rows as [|r rows IH]; intros s Hs; [exact Hs |].
  simpl. apply IH. unfold deliver.
  apply settle_successful, step_successful, Hs.
Qed.

(** C10. Under every schedule, a summary that [processStream] returns has
    [success] set, whatever its error count; so has every summary returned
    when storage keeps up. *)
Theorem returned_summary_reports_success :
  (forall events summary,
      main (run env initial events) = Returned summary ->
      success summary = true) /\
  (forall rows e summary,
      processStream env rows e = Returned summary ->
      success summary = true).
Proof.
  split.
  - intros events summary Hr.
    pose proof (run_successful env events initial I) as Hs.
    now rewrite Hr in Hs.
  - intros rows e summary Hr. unfold processStream, finish in Hr.
    assert (Hs : successful (main (settle env
                   (step env (settle env (step env (deliverAll env initial rows)
                                             (EvEnd e))) EvMain)))).
    { apply settle_successful, step_successful, settle_successful,
        step_successful, deliverAll_successful. exact I. }
    now rewrite Hr in Hs.
Qed.

End PipelineProperties.

Section PrematureClose.
Import StreamProcessor.
Context `{NumberFormat}.
Variable env : Env.

Ltac settle_inner E :=
  match type of E with
  | context [step env (settle env ?x) EvMain] =>
      first [ erewrite (settle_flight env x) in E; [| | reflexivity];
                [| first [assumption | discriminate]]
            | rewrite (settle_idle env x) in E by reflexivity ]
  end.

Ltac settle_outer E :=
  try first [ erewrite settle_flight in E; [| | reflexivity]; [| discriminate]
            | rewrite settle_idle in E by reflexivity ].

Ltac drained E :=
  unfold drainCheck in E; cbn [isProcessing currentBatch orb] in E;
  rewrite bool_decide_eq_true_2 in E by reflexivity; cbn [negb] in E;
  unfold finalize in E.

(** The end of a run whose pipeline settled without a fatal error. *)
Lemma finish_afterPipeline (s : State) (e : StreamEnd) :
  consistent s ->
  main s = Piping ->
  pipelineSettled env e s = afterPipeline env s ->
  let s' := finish env s e in
  main s' = outcomeOf env s' /\
  processedCount s <= processedCount s' /\
  currentBatch s' = [] /\
  flight s' = None /\
  flushed s' = flushed s ++ match currentBatch s with [] => [] | b => [b] end.
Proof.
  intros Hc Hm Hpipe.
  assert (Hend : step env s (EvEnd e) = afterPipeline env s).
  { unfold step. now rewrite Hm. }
  intros s'. remember s' as final eqn:E. subst s'.
  unfold finish in E. rewrite Hend in E. clear Hend Hpipe.
  destruct s as [rn cb ip pc er fl pk m uc dl fs].
  unfold consistent in Hc. simpl in Hc, Hm. subst m.
  unfold afterPipeline in E. cbn [currentBatch] in E.
  unfold outcomeOf.
  destruct fl as [[who fb k]|].
  - (* a detached commit is in flight *)
    simpl in Hc. destruct Hc as (-> & Hfb & Hown).
    specialize (Hown eq_refl). subst who.
    destruct cb as [|t cb'].
    + unfold drainCheck at 1 in E. cbn [isProcessing orb] in E.
      settle_inner E.
      cbn [landed setMain rowNumber currentBatch isProcessing processedCount
             errorRows flight parked main upsertCalls delays flushed] in E.
      unfold step, pollMain in E. cbn [main] in E.
      drained E. destruct (disconnect env).
      all: settle_outer E.
      all: subst final; cbn; repeat split; try reflexivity; try lia.
      all: now rewrite app_nil_r.
    + unfold processBatch in E. cbn [isProcessing] in E.
      settle_inner E.
      cbn [landed setMain rowNumber currentBatch isProcessing processedCount
             errorRows flight parked main upsertCalls delays flushed] in E.
      unfold step, pollMain in E. cbn [main isProcessing] in E.
      unfold takeBatch in E. cbn [currentBatch] in E.
      settle_outer E.
      unfold landed in E. drained E. destruct (disconnect env).
      all: subst final; cbn; repeat split; try reflexivity; lia.
  - (* nothing is in flight *)
    simpl in Hc. subst ip.
    destruct cb as [|t cb'].
    + drained E. destruct (disconnect env).
      all: settle_inner E.
      all: unfold step, pollMain in E; cbn [main setMain] in E.
      all: settle_outer E.
      all: subst final; cbn; repeat split; try reflexivity; try lia.
      all: now rewrite app_nil_r.
    + unfold processBatch in E. cbn [isProcessing] in E.
      unfold takeBatch in E. cbn [currentBatch] in E.
      settle_inner E.
      unfold landed in E. drained E. destruct (disconnect env).
      all: unfold step, pollMain in E; cbn [main setMain] in E.
      all: settle_outer E.
      all: subst final; cbn; repeat split; try reflexivity; lia.
Qed.

Lemma deliverAll_is_run (rows : list RawRow) :
  forall s, exists events, deliverAll env s rows = run env s events.
Proof.
  induction rows as [|r rows IH]; intros s.
  - now exists [].
  - destruct (IH (deliver env s r)) as [events Hev].
    exists (EvRow r :: repeat EvCommit (pending (step env s (EvRow r))) ++ events).
    simpl. rewrite run_app. exact Hev.
Qed.

Lemma unsnoc_rows {A} (l : list A) :
  l = [] \/ exists front x, l = front ++ [x].
Proof.
  induction l as [|a l IH]; [now left | right].
  destruct IH as [-> | (front & x & ->)].
  - now exists [], a.
  - now exists (a :: front), x.
Qed.

(** *** When storage keeps up *)

Lemma quiet_consistent (s : State) : quiet s -> consistent s.
Proof. intros (Hf & Hp & _). unfold consistent. now rewrite Hf. Qed.

Lemma required_transformed (r : RawRow) :
  hasRequired r = true ->
  falsy (r !! "id") || falsy (r !! "title") = false /\
  exists t, transformRow r = Normal t.
Proof.
  unfold hasRequired. intros Hr. split.
  - now apply negb_true_iff.
  - apply transformRow_normal.
Qed.

(** A row with its required fields, below the threshold. *)
Lemma deliver_below (s : State) (r : RawRow) :
  quiet s -> hasRequired r = true ->
  S (length (currentBatch s)) < batchSize env ->
  quiet (deliver env s r) /\
  flushed (deliver env s r) = flushed s /\
  processedCount (deliver env s r) = processedCount s /\
  length (currentBatch (deliver env s r)) = S (length (currentBatch s)).
Proof.
  intros (Hf & Hp & Hm) Hr Hlt.
  destruct (required_transformed r Hr) as (Hreq & t & Ht).
  assert (Hs : step env s (EvRow r) = pushRecord t (S (rowNumber s)) s).
  { unfold step, transform. rewrite Hm, Hreq, Ht.
    cbn [pushRecord currentBatch]. rewrite length_app. simpl length.
    replace (batchSize env <=? length (currentBatch s) + 1)%nat with false;
      [reflexivity |].
    symmetry. apply Nat.leb_gt. lia. }
  unfold deliver. rewrite Hs, settle_idle by exact Hf.
  unfold quiet. cbn. rewrite length_app. simpl.
  repeat split; try assumption; try reflexivity; lia.
Qed.

(** A row with its required fields that brings the batch to the
    threshold: the batch is taken and committed. *)
Lemma deliver_reach (s : State) (r : RawRow) :
  quiet s -> hasRequired r = true ->
  batchSize env <= S (length (currentBatch s)) ->
  quiet (deliver env s r) /\
  currentBatch (deliver env s r) = [] /\
  processedCount s <= processedCount (deliver env s r) /\
  exists t, transformRow r = Normal t /\
            flushed (deliver env s r) = flushed s ++ [currentBatch s ++ [t]].
Proof.
  intros (Hf & Hp & Hm) Hr Hge.
  destruct (required_transformed r Hr) as (Hreq & t & Ht).
  destruct s as [rn cb ip pc er fl pk m uc dl fs]. simpl in *. subst.
  remember (deliver env _ r) as final eqn:E.
  unfold deliver, step, transform in E. cbn [main] in E.
  change (gmap string string) with RawRow in *.
  rewrite Hreq, Ht in E.
  cbn [pushRecord currentBatch] in E.
  replace (batchSize env <=? length (cb ++ [t]))%nat with true in E
    by (symmetry; apply Nat.leb_le; rewrite length_app; simpl; lia).
  unfold processBatch, takeBatch in E.
  cbn [pushRecord rowNumber currentBatch isProcessing processedCount
         errorRows flight parked main upsertCalls delays flushed] in E.
  destruct (cb ++ [t]) as [|x xs] eqn:Hb; [destruct cb; discriminate Hb |].
  erewrite settle_flight in E; [| | reflexivity]; [| discriminate].
  subst final. unfold quiet. cbn.
  repeat split; try reflexivity; try lia.
  exists t. split; [exact Ht | now rewrite Hb].
Qed.

Lemma deliverAll_app (s : State) (a b : list RawRow) :
  deliverAll env s (a ++ b) = deliverAll env (deliverAll env s a) b.
Proof. apply fold_left_app. Qed.

(** Rows that do not fill the batch are only accumulated. *)
Lemma deliverAll_below (rows : list RawRow) :
  forall s,
    quiet s -> forallb hasRequired rows = true ->
    length (currentBatch s) + length rows < batchSize env ->
    quiet (deliverAll env s rows) /\
    flushed (deliverAll env s rows) = flushed s /\
    processedCount (deliverAll env s rows) = processedCount s /\
    length (currentBatch (deliverAll env s rows))
      = length (currentBatch s) + length rows.
Proof.
  induction rows as [|r rows IH]; intros s Hq Hall Hlt.
  - simpl. split; [exact Hq | repeat split; lia].
  - simpl in Hall. apply andb_true_iff in Hall as [Hr Hall].
    cbn [length] in Hlt.
    assert (H1 : S (length (currentBatch s)) < batchSize env) by lia.
    destruct (deliver_below s r Hq Hr H1) as (Hq' & Hfl & Hpc & Hlen).
    assert (H2 : length (currentBatch (deliver env s r)) + length rows
                 < batchSize env) by lia.
    destruct (IH (deliver env s r) Hq' Hall H2) as (Hq2 & Hfl2 & Hpc2 & Hlen2).
    cbn [deliverAll fold_left length].
    change (fold_left (deliver env) rows (deliver env s r))
      with (deliverAll env (deliver env s r) rows).
    split; [exact Hq2 | repeat split; try congruence; lia].
Qed.

(** As many rows as the threshold, from an empty batch: one flush of
    that size. *)
Lemma deliverAll_full (rows : list RawRow) (s : State) :
  quiet s -> currentBatch s = [] ->
  forallb hasRequired rows = true ->
  length rows = batchSize env ->
  quiet (deliverAll env s rows) /\
  currentBatch (deliverAll env s rows) = [] /\
  processedCount s <= processedCount (deliverAll env s rows) /\
  exists b, flushed (deliverAll env s rows) = flushed s ++ [b] /\
            length b = batchSize env.
Proof.
  intros Hq Hcb Hall Hlen.
  assert (Hpos : 0 < batchSize env) by (unfold batchSize; case_match; lia).
  destruct (unsnoc_rows rows) as [Hnil | (front & r & ->)].
  { subst rows. simpl in Hlen. lia. }
  rewrite length_app in Hlen. simpl in Hlen.
  rewrite forallb_app in Hall. apply andb_true_iff in Hall as [Hfront Hr].
  simpl in Hr. rewrite andb_true_r in Hr.
  assert (H1 : length (currentBatch s) + length front < batchSize env)
    by (rewrite Hcb; simpl; lia).
  destruct (deliverAll_below front s Hq Hfront H1)
    as (Hq1 & Hfl1 & Hpc1 & Hlen1).
  rewrite Hcb in Hlen1. simpl in Hlen1.
  rewrite deliverAll_app.
  change (deliverAll env (deliverAll env s front) [r])
    with (deliver env (deliverAll env s front) r).
  assert (H2 : batchSize env <= S (length (currentBatch (deliverAll env s front))))
    by lia.
  destruct (deliver_reach (deliverAll env s front) r Hq1 Hr H2)
    as (Hq2 & Hcb2 & Hpc2 & t & Ht & Hfl2).
  split; [exact Hq2 |]. split; [exact Hcb2 |]. split; [lia |].
  exists (currentBatch (deliverAll env s front) ++ [t]). split.
  - now rewrite Hfl2, Hfl1.
  - rewrite length_app. simpl. lia.
Qed.

Lemma deliver_quiet (s : State) (r : RawRow) :
  quiet s ->
  quiet (deliver env s r) /\
  processedCount s <= processedCount (deliver env s r).
Proof.
  intros Hq. destruct (hasRequired r) eqn:Hr.
  - destruct (Nat.lt_ge_cases (S (length (currentBatch s))) (batchSize env))
      as [Hlt | Hge].
    + destruct (deliver_below s r Hq Hr Hlt) as (Hq' & _ & Hpc & _).
      split; [exact Hq' | lia].
    + destruct (deliver_reach s r Hq Hr Hge) as (Hq' & _ & Hpc & _).
      split; [exact Hq' | exact Hpc].
  - destruct Hq as (Hf & Hp & Hm).
    unfold hasRequired in Hr. apply negb_false_iff in Hr.
    unfold deliver, step, transform. rewrite Hm, Hr.
    rewrite settle_idle by exact Hf.
    unfold quiet. cbn. auto.
Qed.

Lemma deliverAll_quiet (rows : list RawRow) :
  forall s, quiet s -> quiet (deliverAll env s rows).
Proof.
  induction rows as [|r rows IH]; intros s Hq; [exact Hq |].
  simpl. apply IH. now apply deliver_quiet.
Qed.

Lemma initial_quiet : quiet initial.
Proof. now repeat split. Qed.

Lemma finish_thrown (s : State) (e : StreamEnd) (message : string) :
  quiet s ->
  pipelineSettled env e s = setMain (Threw message) s ->
  main (finish env s e) = Threw message.
Proof.
  intros (Hf & Hp & Hm) Hpipe.
  unfold finish. unfold step at 2. rewrite Hm, Hpipe.
  rewrite (settle_idle env (setMain (Threw message) s)) by exact Hf.
  unfold step, pollMain. cbn [main setMain].
  now rewrite settle_idle by exact Hf.
Qed.

(** C5, amended. When the pipeline fails with a premature close while the
    count of committed records, which grows when a flush ends, is positive,
    [processStream] takes the accumulated batch, commits it and, the
    disconnect succeeding, returns a summary of what was committed; while
    the count is zero the failure is thrown to the caller.  This holds in
    every state that a schedule reaches, and for [processStream] when
    storage keeps up. *)
Theorem premature_close (events : list Event) (rows : list RawRow) (message : string) :
  let e := StreamFailed ERR_STREAM_PREMATURE_CLOSE message in
  (let s := run env initial events in
   main s = Piping ->
   (0 < processedCount s -> disconnect env = None ->
    let s' := finish env s e in
    main s' = Returned {| success := true; count := processedCount s';
                          errorCount := length (errorRows s');
                          errors := firstn 10 (errorRows s') |} /\
    processedCount s <= processedCount s' /\
    currentBatch s' = [] /\
    flight s' = None /\
    flushed s' = flushed s ++ match currentBatch s with [] => [] | b => [b] end) /\
   (processedCount s = 0 ->
    let s' := step env s (EvEnd e) in
    main s' = Threw message /\
    flushed s' = flushed s /\ currentBatch s' = currentBatch s)) /\
  (let s := deliverAll env initial rows in
   (0 < processedCount s -> disconnect env = None ->
    exists summary,
      processStream env rows e = Returned summary /\
      success summary = true /\ processedCount s <= count summary) /\
   (processedCount s = 0 -> processStream env rows e = Threw message)).
Proof.
  cbv zeta. split.
  - intros Hm. split.
    + intros Hp Hd.
      assert (Hpos : (0 <? processedCount (run env initial events))%nat = true)
        by (apply Nat.ltb_lt; exact Hp).
      pose proof (finish_afterPipeline (run env initial events)
                    (StreamFailed ERR_STREAM_PREMATURE_CLOSE message)
                    (run_consistent env events initial initial_consistent) Hm)
        as Hfin.
      cbv zeta in Hfin. unfold outcomeOf in Hfin. rewrite Hd in Hfin.
      apply Hfin. unfold pipelineSettled. now rewrite Hpos.
    + intros Hz. unfold step. rewrite Hm. unfold pipelineSettled.
      rewrite Hz. simpl. auto.
  - pose proof (deliverAll_quiet rows initial initial_quiet) as Hq.
    split.
    + intros Hp Hd.
      assert (Hpos : (0 <? processedCount (deliverAll env initial rows))%nat = true)
        by (apply Nat.ltb_lt; exact Hp).
      pose proof (finish_afterPipeline (deliverAll env initial rows)
                    (StreamFailed ERR_STREAM_PREMATURE_CLOSE message)
                    (quiet_consistent _ Hq) (proj2 (proj2 Hq))) as Hfin.
      cbv zeta in Hfin. unfold outcomeOf in Hfin. rewrite Hd in Hfin.
      destruct Hfin as (Hmain & Hle & _).
      { unfold pipelineSettled. now rewrite Hpos. }
      unfold processStream. rewrite Hmain.
      eexists. split; [reflexivity |]. split; [reflexivity | exact Hle].
    + intros Hz. unfold processStream. apply finish_thrown; [exact Hq |].
      unfold pipelineSettled. now rewrite Hz.
Qed.

(** With a batch size of 1000 and storage that keeps up, every commit
    ending before the next row arrives, a stream of 2500 rows that have
    their required fields is flushed in exactly three batches of 1000,
    1000 and 500 records; the third holds the rows left in the batch when
    the stream ends and is taken by [processStream] itself. *)
Theorem three_flushes_when_storage_keeps_up (rows : list RawRow) :
  batchSize env = 1000 ->
  length rows = 2500 ->
  forallb hasRequired rows = true ->
  let s := deliverAll env initial rows in
  let s' := finish env s StreamFinished in
  map length (flushed s) = [1000; 1000] /\
  length (currentBatch s) = 500 /\
  flushed s' = flushed s ++ [currentBatch s] /\
  map length (flushed s') = [1000; 1000; 500] /\
  currentBatch s' = [] /\
  flight s' = None.
Proof.
  intros Hb Hlen Hall. cbv zeta.
  pose (a := take 1000 rows).
  pose (b := take 1000 (drop 1000 rows)).
  pose (c := drop 1000 (drop 1000 rows)).
  assert (Hsplit : rows = a ++ b ++ c) by (subst a b c; now rewrite !take_drop).
  assert (Ha : length a = 1000) by (subst a; rewrite length_take; lia).
  assert (Hbl : length b = 1000)
    by (subst b; rewrite length_take, length_drop; lia).
  assert (Hc : length c = 500)
    by (subst c; rewrite !length_drop; lia).
  clearbody a b c. subst rows. clear Hlen.
  rewrite !forallb_app in Hall.
  apply andb_true_iff in Hall as [Hra Hall].
  apply andb_true_iff in Hall as [Hrb Hrc].
  rewrite !deliverAll_app.
  destruct (deliverAll_full a initial initial_quiet eq_refl Hra ltac:(lia))
    as (Hq1 & Hcb1 & _ & b1 & Hfl1 & Hl1).
  destruct (deliverAll_full b (deliverAll env initial a) Hq1 Hcb1 Hrb ltac:(lia))
    as (Hq2 & Hcb2 & _ & b2 & Hfl2 & Hl2).
  assert (Hroom : length (currentBatch (deliverAll env (deliverAll env initial a) b))
                  + length c < batchSize env) by (rewrite Hcb2; simpl; lia).
  destruct (deliverAll_below c _ Hq2 Hrc Hroom) as (Hq3 & Hfl3 & _ & Hl3).
  rewrite Hcb2 in Hl3. simpl in Hl3.
  set (s := deliverAll env (deliverAll env (deliverAll env initial a) b) c) in *.
  pose proof (finish_afterPipeline s StreamFinished (quiet_consistent _ Hq3)
                (proj2 (proj2 Hq3)) eq_refl) as Hfin.
  cbv zeta in Hfin. destruct Hfin as (_ & _ & Hcb4 & Hf4 & Hfl4).
  assert (Hfs : flushed s = [b1; b2]).
  { rewrite Hfl3, Hfl2, Hfl1. reflexivity. }
  assert (Hlast : flushed (finish env s StreamFinished)
                  = flushed s ++ [currentBatch s]).
  { rewrite Hfl4. destruct (currentBatch s); [simpl in Hl3; lia | reflexivity]. }
  repeat split.
  - rewrite Hfs. simpl. now rewrite Hl1, Hl2, Hb.
  - lia.
  - exact Hlast.
  - rewrite Hlast, Hfs. simpl. now rewrite Hl1, Hl2, Hl3, Hc, Hb.
  - exact Hcb4.
  - exact Hf4.
Qed.

End PrematureClose.

(** ** Closed instances *)

Section Instances.
Import StreamProcessor Samples Validator.

(** C1, as stated, fails when storage is slower than the stream: the
    threshold starts a commit only if none is in flight, so the second
    flush takes all 1500 records that have accumulated. *)
Lemma late_storage_two_flushes :
  let s := @run integerFormat (acceptingEnv 1000) initial lateStorage in
  map length (flushed s) = [1000; 1500] /\
  map length (flushed s) <> [1000; 1000; 500] /\
  main s = Returned {| success := true; count := 2500;
                       errorCount := 0; errors := [] |}.
Proof. vm_compute. repeat split; try reflexivity. discriminate. Qed.

(** C5, as stated, fails while the first batch is in flight: one record
    has been upserted, the count is still zero, and a premature close is
    thrown to the caller. *)
Lemma premature_close_during_first_flush :
  let env := acceptingEnv 2 in
  let s := @run integerFormat env initial
             [EvRow (movieRow 1); EvRow (movieRow 2); EvCommit] in
  option_map insertedCount (flight s) = Some 1 /\
  upsertCalls s = 1 /\
  processedCount s = 0 /\
  main s = Piping /\
  main (@finish integerFormat env s
          (StreamFailed ERR_STREAM_PREMATURE_CLOSE "aborted")) = Threw "aborted".
Proof. vm_compute. repeat split; reflexivity. Qed.

(** Storage that keeps up, on 2500 numbered rows. *)
Lemma three_flushes_witness :
  let env := acceptingEnv 1000 in
  let s := @deliverAll integerFormat env initial (movieRows 2500) in
  map length (flushed (@finish integerFormat env s StreamFinished))
    = [1000; 1000; 500].
Proof.
  cbv zeta.
  pose proof (@three_flushes_when_storage_keeps_up integerFormat
                (acceptingEnv 1000) (movieRows 2500)) as W.
  cbv zeta in W.
  destruct W as (_ & _ & _ & W & _);
    [reflexivity | vm_compute; reflexivity | vm_compute; reflexivity | exact W].
Defined.

(** C2 on storage whose first two, and whose first three, calls fail. *)
Lemma commit_with_retries_witness :
  @commitItem (failingFirst 2) alien freshCommit
    = {| calls := 3; inserted := 1; failures := []; waits := [500; 1000] |} /\
  @commitItem (failingFirst 3) alien freshCommit
    = {| calls := 3; inserted := 0;
         failures := [{| row := (-1)%Z;
                         error := "处理记录ID 348 失败: connection reset" |}];
         waits := [500; 1000] |}.
Proof.
  split.
  - exact (proj1 (proj2 (@commit_with_retries integerFormat (failingFirst 2)))
             alien freshCommit _ _ eq_refl eq_refl eq_refl).
  - exact (proj1 (proj2 (proj2 (@commit_with_retries integerFormat (failingFirst 3))))
             alien freshCommit _ _ _ eq_refl eq_refl eq_refl).
Defined.

(** The amended C3 on a cell that is not a number, on fractions and on
    a cell whose value is infinite. *)
Lemma money_fields_witness :
  CsvService.moneyValue (Some "n/a") = Normal 0%Z /\
  parseMoneyValue (Some "n/a") = Fin 0 /\
  CsvService.moneyValue (Some "1999.5") = Normal 2000%Z /\
  parseMoneyValue (Some "1999.5") = Fin (3999 # 2) /\
  (exists message,
      @CsvImport.transformRow integerFormat
        {[ "id" := "1"; "title" := "A"; "revenue" := "1e400" ]} = Throw message).
Proof.
  destruct money_fields as (W0 & W1 & _ & _ & W2 & _ & W4 & W5 & _ & _ & W3 & _).
  split; [apply W2; reflexivity |].
  split; [apply W3; reflexivity |].
  split; [exact (W1 (Some "1999.5") (3999 # 2)%Q eq_refl) |].
  split; [rewrite W5; reflexivity |].
  apply (W4 integerFormat _ false). left. reflexivity.
Defined.

(** C4 on a first row without [id]. *)
Lemma missing_required_row_witness :
  let s' := @step integerFormat (acceptingEnv 2) initial (EvRow namelessRow) in
  errorRows s' = [{| row := 1%Z; error := "缺少必填字段 ID 或 title" |}] /\
  currentBatch s' = [] /\ flushed s' = [] /\ main s' = Piping.
Proof.
  cbv zeta.
  pose proof (@missing_required_row_is_skipped integerFormat (acceptingEnv 2)
                initial namelessRow eq_refl eq_refl) as W.
  cbv zeta in W. destruct W as (W1 & _ & W2 & W3 & _ & _ & _ & _ & _ & W4 & _).
  repeat split; assumption.
Defined.

(** The amended C5 after a committed batch of two, and before any. *)
Lemma premature_close_witness :
  let env := acceptingEnv 2 in
  let e := StreamFailed ERR_STREAM_PREMATURE_CLOSE "aborted" in
  (exists summary,
      @processStream integerFormat env (movieRows 3) e = Returned summary /\
      success summary = true /\ 2 <= count summary) /\
  @processStream integerFormat env (movieRows 1) e = Threw "aborted" /\
  flushed (@finish integerFormat env (@run integerFormat env initial threeRows) e)
    = flushed (@run integerFormat env initial threeRows)
        ++ [currentBatch (@run integerFormat env initial threeRows)].
Proof.
  cbv zeta. split; [| split].
  - destruct (@premature_close integerFormat (acceptingEnv 2) [] (movieRows 3)
                "aborted") as [_ [W _]].
    apply W; [vm_compute; lia | reflexivity].
  - destruct (@premature_close integerFormat (acceptingEnv 2) [] (movieRows 1)
                "aborted") as [_ [_ W]].
    apply W. reflexivity.
  - destruct (@premature_close integerFormat (acceptingEnv 2) threeRows []
                "aborted") as [W _].
    cbv zeta in W. destruct (W eq_refl) as [W' _].
    destruct W' as (_ & _ & _ & _ & Hfl); [vm_compute; lia | reflexivity |].
    exact Hfl.
Defined.

(** C6 on the header followed by 17 rows, on the three-column header
    and on a permuted full header. *)
Lemma header_validation_witness :
  validateCsvHeaders observed headerAndSeventeenRows = Pending /\
  validateCsvHeaders observed subsetHeader
    = Settled (Normal (Some "缺少必需的列: vote_count, status, release_date, revenue, runtime, budget, imdb_id, original_language, original_title, overview, popularity, tagline, genres, production_companies, production_countries, spoken_languages, cast, director, director_of_photography, writers, producers, music_composer, imdb_rating, imdb_votes, poster_path")) /\
  validateCsvHeaders observed permutedHeader = Settled (Normal None).
Proof.
  destruct (header_validation observed) as (_ & W0 & W1 & _ & W2 & _).
  split; [| split].
  - apply W0. split; [discriminate | reflexivity].
  - apply (W2 subsetHeader []); [discriminate | reflexivity].
  - apply W1. split; [discriminate |].
    exists (rev REQUIRED_HEADERS), []. split; [reflexivity |].
    intros h Hh. now apply in_rev in Hh.
Defined.

(** C8: the outputs of the three examples, written as JSON, parsed
    again. *)
Lemma companies_idempotent_witness :
  (exists entries,
      parseProductionCompanies (Str (jsonText "[{'name':'A','id':null}]"))
        = Normal entries /\
      map Entries.company entries = map Entries.company [named (JStr "A")]) /\
  (exists entries,
      parseProductionCompanies (Str (jsonText "[{'name':'A'},{'name':'B'}]"))
        = Normal entries /\
      map Entries.company entries
        = map Entries.company [named (JStr "A"); named (JStr "B")]) /\
  (exists entries,
      parseProductionCompanies (Str (jsonText "[{'name':'Boondocs'}]"))
        = Normal entries /\
      map Entries.company entries = map Entries.company [named (JStr "Boondocs")]).
Proof.
  destruct companies_idempotent as (_ & _ & W).
  split; [| split].
  - apply (W _ [JObj [("name", JStr "A"); ("id", JNull)]]); reflexivity.
  - apply (W _ [named (JStr "A"); named (JStr "B")]); reflexivity.
  - apply (W _ [named (JStr "Boondocs")]); reflexivity.
Defined.

(** C7 with both [try] blocks throwing. *)
Lemma tolerant_parsers_witness :
  companiesWith (fun _ => Throw "first") (fun _ => Throw "second") (Str "Pixar")
    = Normal [named (JStr "Pixar")].
Proof.
  destruct (@tolerant_parsers_never_raise integerFormat)
    as (_ & _ & _ & _ & _ & _ & _ & W & _).
  exact (W (fun _ => Throw "first") (fun _ => Throw "second") "Pixar"
           "first" "second" eq_refl eq_refl eq_refl).
Defined.

(** C10 on a run whose only record fails all its attempts. *)
Lemma returned_summary_witness :
  exists summary,
    @processStream integerFormat (failingFirst 3) (movieRows 1) StreamFinished
      = Returned summary /\
    success summary = true /\ errorCount summary = 1 /\ count summary = 0.
Proof.
  eexists. split; [vm_compute; reflexivity |].
  split; [| split; reflexivity].
  apply (proj2 (@returned_summary_reports_success integerFormat (failingFirst 3))
           (movieRows 1) StreamFinished).
  vm_compute. reflexivity.
Defined.

End Instances.
(** ** What every schedule keeps in balance *)

Section LedgerProperties.
Import StreamProcessor Ledger.
Context `{NumberFormat}.
Variable env : Env.

#[local] Set Warnings "-clear-no-such-hyp".

Ltac unfold_step :=
  unfold step, transform, pipelineSettled, afterPipeline, commitNext,
    pollParked, pollMain, processBatch, takeBatch, drainCheck, finalize,
    pushError, pushRecord, setMain, setParked in *.

Ltac snoc_nil :=
  match goal with
  | E : ?l ++ [_] = [] |- _ => destruct l; discriminate E
  end.

(** What the retry loop of one record does to the variables it shares
    with the processor. *)
Lemma commitItem_effect (item : NormalizedRecord) (c : Commit) :
  let c' := commitItem env item c in
  calls c < calls c' <= calls c + 3 /\
  ((inserted c' = S (inserted c) /\ failures c' = failures c) \/
   (inserted c' = inserted c /\
    exists e, failures c' = failures c ++ [{| row := (-1)%Z; error := e |}])) /\
  exists ws, waits c' = waits c ++ ws /\ length ws <= 2 /\
             Forall (fun d => d = 500 \/ d = 1000) ws.
Proof.
  cbv zeta. rewrite commitItem_cases.
  destruct (upsert env (calls c) item).
  - destruct (upsert env (S (calls c)) item).
    + destruct (upsert env (S (S (calls c))) item); simpl.
      * split; [lia |]. split; [right; eauto |].
        exists [500; 1000]. rewrite <- app_assoc. simpl.
        split; [reflexivity |]. split; [lia |]. repeat (constructor; [auto |]); constructor.
      * split; [lia |]. split; [left; auto |].
        exists [500; 1000]. rewrite <- app_assoc. simpl.
        split; [reflexivity |]. split; [lia |]. repeat (constructor; [auto |]); constructor.
    + simpl. split; [lia |]. split; [left; auto |].
      exists [500]. split; [reflexivity |]. split; [simpl; lia |].
      repeat (constructor; [auto |]); constructor.
  - simpl. split; [lia |]. split; [left; auto |].
    exists []. rewrite app_nil_r. split; [reflexivity |]. split; [simpl; lia |].
    constructor.
Qed.

Lemma initial_settledShape : settledShape initial.
Proof.
  unfold settledShape. simpl. repeat split; try discriminate.
Qed.

Lemma step_settledShape (s : State) (e : Event) :
  settledShape s -> settledShape (step env s e).
Proof.
  intros (Hc & Hown & Hrun & Hdr & Hret).
  split; [now apply step_consistent |].
  destruct s as [rn cb ip pc er fl pk m uc dl fs].
  unfold consistent in Hc. unfold_step. simpl in *.
  destruct e; repeat case_match; simplify_eq/=.
  all: try (split; [| split; [| split]]; intros; simplify_eq/=; try snoc_nil; naive_solver).
Qed.

Lemma accepted_snoc (rows : list RawRow) (r : RawRow) :
  accepted (rows ++ [r]) =
  accepted rows ++ match verdict 0 r with inl t => [t] | inr _ => [] end.
Proof.
  induction rows as [|x rows IH]; simpl.
  - now destruct (verdict 0 r).
  - destruct (verdict 0 x); simpl; now rewrite IH.
Qed.

Lemma rejected_snoc (rows : list RawRow) (r : RawRow) :
  forall n,
    rejected n (rows ++ [r]) =
    rejected n rows ++
      match verdict (S (n + length rows)) r with inl _ => [] | inr e => [e] end.
Proof.
  induction rows as [|x rows IH]; intros n; simpl.
  - rewrite Nat.add_0_r. now destruct (verdict (S n) r).
  - rewrite IH. replace (S n + length rows) with (n + S (length rows)) by lia.
    now destruct (verdict (S n) x).
Qed.

Lemma initial_balanced : balanced initial [].
Proof. now repeat split. Qed.

Ltac books :=
  rewrite ?concat_app, ?length_app, ?List.filter_app, ?app_nil_r; simpl;
  rewrite ?app_nil_r, <- ?app_assoc; simpl.

Lemma step_balanced (s : State) (e : Event) (rows : list RawRow) :
  settledShape s -> balanced s rows ->
  balanced (step env s e) (rows ++ arrival s e).
Proof.
  intros (Hc & Hown & Hrun & Hdr & Hret) (Hrn & Hrec & Herr & Hsum).
  unfold balanced, arrival.
  destruct e.
  - destruct (main s) eqn:Hm; rewrite ?app_nil_r;
      try (unfold step; rewrite Hm; now repeat split).
    rewrite accepted_snoc, rejected_snoc, length_app. simpl.
    unfold step. rewrite Hm. unfold transform, verdict.
    rewrite <- Hrn, <- Hrec, <- Herr. clear Hrn Hrec Herr.
    destruct s as [rn cb ip pc er fl pk m uc dl fs].
    unfold consistent, inFlight in *. simpl in *.
    destruct (falsy (r !! "id") || falsy (r !! "title")).
    { unfold pushError. simpl. books. repeat split; lia. }
    destruct (transformRow r) as [t | msg].
    + unfold pushRecord, processBatch, takeBatch. simpl.
      repeat case_match; simplify_eq/=; try snoc_nil; books;
        repeat split; try lia.
      all: match goal with
           | E : _ ++ [_] = _ :: _ |- _ =>
               first [ now rewrite <- E
                     | apply (f_equal length) in E; rewrite length_app in E;
                       simpl in E; lia ]
           end.
    + unfold pushError. simpl. books. repeat split; lia.
  - rewrite app_nil_r.
    destruct s as [rn cb ip pc er fl pk m uc dl fs].
    unfold consistent, inFlight in *. unfold_step. simpl in *.
    repeat case_match; simplify_eq/=; books; repeat split;
      first [lia | assumption | now rewrite ?app_nil_r in * | idtac].
  - rewrite app_nil_r. unfold step, commitNext.
    destruct (flight s) as [[who [|item rest] k]|] eqn:Hf;
      try (repeat split; assumption).
    pose proof (commitItem_effect item
                  {| calls := upsertCalls s; inserted := k;
                     failures := errorRows s; waits := delays s |}) as Heff.
    cbv zeta in Heff. simpl in Heff.
    destruct Heff as (_ & Hins & _).
    unfold inFlight in Hsum. rewrite Hf in Hsum. simpl in Hsum.
    set (c := commitItem env item _) in *. clearbody c.
    destruct rest as [|next rest']; [destruct who |];
      unfold drainCheck, finalize, setMain;
      cbn [isProcessing currentBatch orb];
      try destruct (negb (bool_decide (currentBatch s = [])));
      try destruct (disconnect env); unfold inFlight; simpl;
      destruct Hins as [[Hi Hfl] | [Hi [msg Hfl]]];
      rewrite ?Hi, ?Hfl, ?List.filter_app, ?length_app; simpl;
      rewrite ?app_nil_r; simpl in Hsum; repeat split; first [lia | assumption].
  - rewrite app_nil_r.
    destruct s as [rn cb ip pc er fl pk m uc dl fs].
    unfold consistent, inFlight in *. unfold_step. simpl in *.
    repeat case_match; simplify_eq/=; books; repeat split;
      first [lia | assumption | now rewrite ?app_nil_r in * | idtac].
  - rewrite app_nil_r.
    destruct s as [rn cb ip pc er fl pk m uc dl fs].
    unfold consistent, inFlight in *. unfold_step. simpl in *.
    repeat case_match; simplify_eq/=; books; repeat split;
      first [lia | assumption | now rewrite ?app_nil_r in * | idtac].
Qed.

(** [processStream] leaves the pipeline when the pipeline settles, and
    only then. *)
Lemma step_piping (s : State) (e : Event) :
  settledShape s ->
  (main (step env s e) = Piping <-> main s = Piping /\ isEnd e = false).
Proof.
  intros (Hc & Hown & Hrun & Hdr & Hret).
  destruct s as [rn cb ip pc er fl pk m uc dl fs].
  unfold consistent in Hc. unfold_step. simpl in *.
  destruct e; repeat case_match; simplify_eq/=; naive_solver.
Qed.

Lemma delivered_snoc (events : list Event) (e : Event) :
  delivered (events ++ [e]) =
  delivered events ++
    (if existsb isEnd events then []
     else match e with EvRow r => [r] | _ => [] end).
Proof.
  induction events as [|x events IH]; simpl.
  - now destruct e.
  - destruct x; simpl; now rewrite ?IH.
Qed.

Lemma run_snoc (s : State) (events : list Event) (e : Event) :
  run env s (events ++ [e]) = step env (run env s events) e.
Proof. now rewrite run_app. Qed.

(** The books of every state that a schedule reaches. *)
Lemma run_books (events : list Event) :
  let s := run env initial events in
  settledShape s /\ balanced s (delivered events) /\
  (main s = Piping <-> existsb isEnd events = false).
Proof.
  induction events as [|e events IH] using rev_ind.
  - split; [apply initial_settledShape |]. split; [apply initial_balanced |].
    now split.
  - cbv zeta in *. destruct IH as (Hshape & Hbal & Hpipe).
    rewrite run_snoc, delivered_snoc, existsb_app. simpl. rewrite orb_false_r.
    split; [now apply step_settledShape |]. split.
    + replace (if existsb isEnd events then [] else
                 match e with EvRow r => [r] | _ => [] end)
        with (arrival (run env initial events) e);
        [now apply step_balanced |].
      unfold arrival. destruct (existsb isEnd events).
      * destruct (main (run env initial events)); destruct e; try reflexivity.
        now pose proof (proj1 Hpipe eq_refl).
      * rewrite (proj2 Hpipe eq_refl). now destruct e.
    + rewrite step_piping by exact Hshape. rewrite Hpipe, orb_false_iff.
      reflexivity.
Qed.

(** *** The cost of committing *)

(** A callback other than the end of a retry loop leaves the books of
    the committer as they are, or takes a batch while none is in
    flight. *)
Lemma step_takes (s : State) (e : Event) :
  consistent s -> e <> EvCommit ->
  let s' := step env s e in
  upsertCalls s' = upsertCalls s /\ delays s' = delays s /\
  ((flushed s' = flushed s /\ pending s' = pending s) \/
   (exists b, flushed s' = flushed s ++ [b] /\
              pending s = 0 /\ pending s' = length b)).
Proof.
  intros Hc He. cbv zeta.
  destruct s as [rn cb ip pc er fl pk m uc dl fs].
  unfold consistent, pending in *. simpl in *.
  destruct fl as [[who td k]|]; simpl in *.
  all: destruct e; try congruence; unfold_step; simpl.
  all: repeat case_match; simplify_eq/=; try snoc_nil.
  all: split; [reflexivity |]; split; [reflexivity |].
  all: first [left; split; reflexivity | right; eexists; repeat split; reflexivity
             | idtac].
  all: destruct Hc as [Hc _]; discriminate Hc.
Qed.

Lemma step_bounded (s : State) (e : Event) :
  consistent s -> bounded s -> bounded (step env s e).
Proof.
  intros Hc (Hp & Hlo & Hhi & Hd & Hw). unfold bounded, MAX_RETRIES in *.
  assert (Hother : e <> EvCommit ->
            let s' := step env s e in
            pending s' <= length (concat (flushed s')) /\
            length (concat (flushed s')) <= upsertCalls s' + pending s' /\
            upsertCalls s' + 3 * pending s' <= 3 * length (concat (flushed s')) /\
            length (delays s') + 2 * pending s' <= 2 * length (concat (flushed s')) /\
            Forall (fun d => d = 500 \/ d = 1000) (delays s')).
  { intros He. cbv zeta.
    destruct (step_takes s e Hc He)
      as (Hu & Hdl & [[Hfl Hpe] | (b & Hfl & Hp0 & Hpe)]);
      rewrite Hu, Hdl, Hfl, Hpe, ?concat_app, ?length_app; simpl;
      rewrite ?app_nil_r; repeat split; first [lia | assumption]. }
  destruct e; try (apply Hother; discriminate). clear Hother.
  {
    unfold step, commitNext. unfold pending in *.
    destruct (flight s) as [[who [|item rest] k]|] eqn:Hf;
      [rewrite Hf; now repeat split | | rewrite Hf; now repeat split].
    pose proof (commitItem_effect item
                  {| calls := upsertCalls s; inserted := k;
                     failures := errorRows s; waits := delays s |}) as Heff.
    cbv zeta in Heff. simpl in Heff.
    destruct Heff as (Hcalls & _ & ws & Hws & Hlen & Hall).
    set (c := commitItem env item _) in *. clearbody c.
    simpl in Hp, Hlo, Hhi, Hd.
    destruct rest as [|next rest']; [destruct who |];
      unfold drainCheck, finalize, setMain;
      cbn [isProcessing currentBatch orb];
      try destruct (negb (bool_decide (currentBatch s = [])));
      try destruct (disconnect env); simpl;
      rewrite Hws, ?length_app;
      cbn [length] in *;
      repeat split; first [lia | now apply Forall_app]. }
Qed.

Lemma initial_bounded : bounded initial.
Proof. unfold bounded. simpl. repeat split; first [lia | constructor]. Qed.

Lemma run_bounded (events : list Event) :
  forall s, consistent s -> bounded s -> bounded (run env s events).
Proof.
  induction events as [|e events IH]; intros s Hc Hb; [exact Hb |].
  simpl. apply IH; [now apply step_consistent | now apply step_bounded].
Qed.

(** *** What only grows *)

Lemma step_grows (s : State) (e : Event) :
  let s' := step env s e in
  rowNumber s <= rowNumber s' /\
  processedCount s <= processedCount s' /\
  upsertCalls s <= upsertCalls s' /\
  errorRows s `prefix_of` errorRows s' /\
  flushed s `prefix_of` flushed s' /\
  delays s `prefix_of` delays s'.
Proof.
  cbv zeta. destruct e.
  3: {
    unfold step, commitNext.
    destruct (flight s) as [[who [|item rest] k]|] eqn:Hf;
      [now repeat split | | now repeat split].
    pose proof (commitItem_effect item
                  {| calls := upsertCalls s; inserted := k;
                     failures := errorRows s; waits := delays s |}) as Heff.
    cbv zeta in Heff. simpl in Heff.
    destruct Heff as (Hcalls & Hins & ws & Hws & _).
    set (c := commitItem env item _) in *. clearbody c.
    assert (Herr : errorRows s `prefix_of` failures c).
    { destruct Hins as [[_ ->] | [_ [msg ->]]];
        [reflexivity | now apply prefix_app_r]. }
    assert (Hdel : delays s `prefix_of` waits c)
      by (rewrite Hws; now apply prefix_app_r).
    destruct rest as [|next rest']; [destruct who |];
      unfold drainCheck, finalize, setMain;
      cbn [isProcessing currentBatch orb];
      try destruct (negb (bool_decide (currentBatch s = [])));
      try destruct (disconnect env); simpl;
      repeat split; first [lia | assumption | reflexivity]. }
  all: destruct s as [rn cb ip pc er fl pk m uc dl fs].
  all: unfold_step; simpl in *.
  all: repeat case_match; simplify_eq/=.
  all: repeat split; first [lia | reflexivity | now apply prefix_app_r].
Qed.

(** *** What is thrown *)

Lemma step_thrown (s : State) (e : Event) (message : string) :
  main (step env s e) = Threw message ->
  main s = Threw message \/ disconnect env = Some message \/
  exists code, e = EvEnd (StreamFailed code message).
Proof.
  destruct s as [rn cb ip pc er fl pk m uc dl fs].
  unfold_step. simpl.
  destruct e; repeat case_match; simplify_eq/=; intros; simplify_eq/=;
    eauto.
Qed.

Lemma run_thrown (events : list Event) (message : string) :
  forall s,
    main (run env s events) = Threw message ->
    main s = Threw message \/ disconnect env = Some message \/
    exists code, In (EvEnd (StreamFailed code message)) events.
Proof.
  induction events as [|e events IH]; intros s Hm; [now left |].
  simpl in Hm. destruct (IH _ Hm) as [Hs | [Hd | [code Hin]]].
  - destruct (step_thrown _ _ _ Hs) as [Ht | [Hd | [code ->]]]; eauto.
    right. right. exists code. now left.
  - eauto.
  - right. right. exists code. now right.
Qed.

(** *** The records of the batch *)

Lemma parseNumber_present (value : option string) (argument : option Num) :
  isNaN (defaultZero argument) = false ->
  present (parseNumber value argument) = true.
Proof.
  intros Hd. unfold parseNumber. cbv zeta.
  destruct value as [v|]; simpl; [| now rewrite Hd].
  destruct (isEmpty v); simpl; [now rewrite Hd |].
  destruct (isNaN (parseFloat v)) eqn:Hn; simpl; [now rewrite Hd | now rewrite Hn].
Qed.

Lemma parseInt2_present (value : option string) (argument : option Num) :
  isNaN (defaultZero argument) = false ->
  present (parseInt2 value argument) = true.
Proof.
  intros Hd. unfold parseInt2. cbv zeta.
  destruct value as [v|]; simpl; [| now rewrite Hd].
  destruct (isEmpty v); simpl; [now rewrite Hd |].
  destruct (isNaN (parseInt v)) eqn:Hn; simpl; [now rewrite Hd | now rewrite Hn].
Qed.

Lemma parseMoneyValue_number (value : option string) :
  isNaN (parseMoneyValue value) = false.
Proof.
  unfold parseMoneyValue. destruct value as [v|]; [| reflexivity].
  destruct (isEmpty v); [reflexivity |].
  unfold orZero. destruct (parseFloat v) as [| neg | q]; simpl; try reflexivity.
  now destruct (negb (Qeq_bool q 0)).
Qed.

Lemma ascii_eqb_eq (a b : ascii) : ascii_eqb a b = true -> a = b.
Proof.
  unfold ascii_eqb, code. intros E%N.eqb_eq.
  rewrite <- (ascii_N_embedding a), <- (ascii_N_embedding b). now rewrite E.
Qed.

Lemma readValue_bracket (fuel : nat) (s' : string) :
  readValue (S fuel) (String "[" s') =
  match skipWs s' with
  | String d r =>
      if ascii_eqb d "]" then Some (JArr [], r)
      else match readElements fuel (String d r) with
           | Some (vs, r') => Some (JArr vs, r')
           | None => None
           end
  | EmptyString => None
  end.
Proof. reflexivity. Qed.

(** A text that begins with a bracket parses to an array, or not at
    all. *)
Lemma JSON_parse_bracket (s : string) (v : JVal) :
  startsWith "[" s = true -> JSON_parse s = Normal v ->
  exists items, v = JArr items.
Proof.
  destruct s as [|c s']; [discriminate |]. simpl.
  rewrite andb_true_r. intros E%ascii_eqb_eq. subst c.
  unfold JSON_parse.
  replace (2 * String.length (String "[" s') + 2)
    with (S (2 * String.length s' + 3)) by (simpl; lia).
  remember (2 * String.length s' + 3) as fuel eqn:Hfuel. clear Hfuel.
  rewrite readValue_bracket.
  destruct (skipWs s') as [|d r]; [discriminate |].
  destruct (ascii_eqb d "]").
  - destruct (isEmpty (skipWs r)); [| discriminate].
    intros [= <-]. now exists [].
  - destruct (readElements fuel (String d r)) as [[vs r']|]; [| discriminate].
    destruct (isEmpty (skipWs r')); [| discriminate].
    intros [= <-]. now exists vs.
Qed.

Lemma parseStringArray_array (value : option string) :
  Entries.isArray (parseStringArray value) = true.
Proof.
  assert (exists items, parseStringArray value = JArr items) as (items & ->);
    [| reflexivity].
  unfold parseStringArray. destruct value as [s|]; [| now exists []].
  destruct (isEmpty s); [now exists [] |].
  destruct (startsWith "[" s) eqn:Hb; simpl; [| eauto].
  destruct (endsWithChar "]" s); [| eauto].
  destruct (JSON_parse s) as [v|] eqn:Hp; [| eauto].
  destruct (JSON_parse_bracket s v Hb Hp) as (items & ->). eauto.
Qed.
Lemma verdict_storable (n : nat) (r : RawRow) (t : NormalizedRecord) :
  verdict n r = inl t -> storable t = true.
Proof.
  unfold verdict, falsy.
  destruct (r !! "id") as [i|] eqn:Hid; [| discriminate].
  destruct (r !! "title") as [ti|] eqn:Hti;
    [| rewrite orb_true_r; discriminate].
  destruct (isEmpty i) eqn:Hi; [discriminate |].
  destruct (isEmpty ti) eqn:Ht; [discriminate |]. simpl.
  unfold transformRow.
  destruct (parseProductionCompanies _); [| discriminate].
  destruct (parseCastNames _); [| discriminate].
  intros [= <-]. unfold storable, getValue. cbn [id title original_title revenue
    budget vote_average vote_count runtime popularity imdb_rating imdb_votes
    genres production_countries spoken_languages director
    director_of_photography writers producers music_composer].
  rewrite Hid, Hti, Hi, Ht, !parseMoneyValue_number, !parseStringArray_array.
  rewrite !parseNumber_present, !parseInt2_present by reflexivity.
  now destruct (r !! "original_title").
Qed.

Lemma accepted_storable (rows : list RawRow) :
  forallb storable (accepted rows) = true.
Proof.
  induction rows as [|r rows IH]; [reflexivity |]. simpl.
  destruct (verdict 0 r) as [t|] eqn:Hv; [| exact IH].
  simpl. now rewrite (verdict_storable _ _ _ Hv), IH.
Qed.

(** Every row with its required fields yields a record. *)
Lemma verdict_required (n : nat) (r : RawRow) :
  hasRequired r = true -> exists t, verdict n r = inl t.
Proof.
  intros Hr. destruct (required_transformed r Hr) as (Hreq & t & Ht).
  exists t. unfold verdict. now rewrite Hreq, Ht.
Qed.

End LedgerProperties.

(** ** When storage keeps up: the whole run *)

Section KeptUp.
Import StreamProcessor Ledger.
Context `{NumberFormat}.
Variable env : Env.

Lemma delivered_app_end (a b : list Event) (e : StreamEnd) :
  delivered (a ++ EvEnd e :: b) = delivered a.
Proof.
  induction a as [|x a IH]; simpl; [reflexivity |].
  destruct x; now rewrite ?IH.
Qed.

Lemma delivered_commits (k : nat) (events : list Event) :
  delivered (repeat EvCommit k ++ events) = delivered events.
Proof. induction k as [|k IH]; [reflexivity | exact IH]. Qed.

(** The sequential schedule is one of the schedules; it delivers the
    rows of the stream. *)
Lemma deliverAll_schedule (rows : list RawRow) :
  forall s, exists events,
    deliverAll env s rows = run env s events /\
    delivered events = rows /\ existsb isEnd events = false.
Proof.
  induction rows as [|r rows IH]; intros s.
  - now exists [].
  - destruct (IH (deliver env s r)) as (events & Hev & Hrows & Hend).
    exists (EvRow r :: repeat EvCommit (pending (step env s (EvRow r))) ++ events).
    split; [| split].
    + simpl. rewrite run_app. exact Hev.
    + simpl. now rewrite delivered_commits, Hrows.
    + cbn [existsb isEnd orb]. rewrite existsb_app, Hend, orb_false_r.
      induction (pending (step env s (EvRow r))); [reflexivity | assumption].
Qed.

Lemma finish_schedule (s : State) (e : StreamEnd) :
  exists more, finish env s e = run env s (EvEnd e :: more).
Proof.
  exists (repeat EvCommit (pending (step env s (EvEnd e))) ++
          EvMain :: repeat EvCommit
            (pending (step env (settle env (step env s (EvEnd e))) EvMain))).
  unfold finish, settle. simpl. now rewrite run_app.
Qed.

(** [processStream] when storage keeps up, as a run of the processor. *)
Lemma processStream_schedule (rows : list RawRow) (e : StreamEnd) :
  exists events,
    finish env (deliverAll env initial rows) e = run env initial events /\
    delivered events = rows.
Proof.
  destruct (deliverAll_schedule rows initial) as (evs & Hev & Hrows & _).
  destruct (finish_schedule (deliverAll env initial rows) e) as (more & Hfin).
  exists (evs ++ EvEnd e :: more). split.
  - now rewrite run_app, <- Hev.
  - now rewrite delivered_app_end.
Qed.

Lemma accepted_rejected_length (rows : list RawRow) :
  forall n, length (accepted rows) + length (rejected n rows) = length rows.
Proof.
  induction rows as [|r rows IH]; intros n; [reflexivity |]. simpl.
  unfold verdict.
  destruct (falsy (r !! "id") || falsy (r !! "title")); simpl;
    [rewrite <- (IH (S n)); lia |].
  destruct (transformRow r); simpl; rewrite <- (IH (S n)); lia.
Qed.

(** Storage that never fails writes no error row. *)
Lemma step_no_commit_error (s : State) (e : Event) :
  (forall n t, upsert env n t = None) ->
  forallb fromTransformer (errorRows s) = true ->
  forallb fromTransformer (errorRows (step env s e)) = true.
Proof.
  intros Hok Hs. destruct e.
  3: {
    unfold step, commitNext.
    destruct (flight s) as [[who [|item rest] k]|] eqn:Hf; try exact Hs.
    rewrite commitItem_cases. cbn [calls]. rewrite Hok.
    destruct rest as [|next rest']; [destruct who |];
      unfold drainCheck, finalize, setMain;
      cbn [isProcessing currentBatch orb];
      try destruct (negb (bool_decide (currentBatch s = [])));
      try destruct (disconnect env); simpl; exact Hs. }
  all: destruct s as [rn cb ip pc er fl pk m uc dl fs].
  all: unfold step, transform, pipelineSettled, afterPipeline, commitNext,
         pollParked, pollMain, processBatch, takeBatch, drainCheck, finalize,
         pushError, pushRecord, setMain, setParked in *; simpl in *.
  all: repeat case_match; simplify_eq/=; rewrite ?forallb_app; simpl;
         rewrite ?Hs; reflexivity.
Qed.

Lemma run_no_commit_error (events : list Event) :
  (forall n t, upsert env n t = None) ->
  forall s,
    forallb fromTransformer (errorRows s) = true ->
    forallb fromTransformer (errorRows (run env s events)) = true.
Proof.
  intros Hok. induction events as [|e events IH]; intros s Hs; [exact Hs |].
  simpl. apply IH. now apply step_no_commit_error.
Qed.

Lemma filter_all {A} (f : A -> bool) (l : list A) :
  forallb f l = true -> List.filter f l = l.
Proof.
  induction l as [|x l IH]; [reflexivity |]. simpl.
  intros [Hx Hl]%andb_true_iff. now rewrite Hx, IH.
Qed.

(** How the pipeline can settle. *)
Lemma pipelineSettled_cases (e : StreamEnd) (s : State) :
  pipelineSettled env e s = afterPipeline env s \/
  exists code message,
    e = StreamFailed code message /\
    pipelineSettled env e s = setMain (Threw message) s.
Proof.
  destruct e as [|code message]; [now left |]. simpl.
  destruct (_ && _); [now left | right; eauto].
Qed.

Lemma batchSize_positive : 0 < batchSize env.
Proof. unfold batchSize. case_match; lia. Qed.

(** A row leaves the flushed batches full and the accumulating batch
    below the threshold. *)
Lemma deliver_chunks (s : State) (r : RawRow) :
  quiet s -> length (currentBatch s) < batchSize env ->
  Forall (fun b => length b = batchSize env) (flushed s) ->
  quiet (deliver env s r) /\
  length (currentBatch (deliver env s r)) < batchSize env /\
  Forall (fun b => length b = batchSize env) (flushed (deliver env s r)).
Proof.
  intros Hq Hlen Hall. pose proof batchSize_positive as Hpos.
  destruct (hasRequired r) eqn:Hr.
  - destruct (Nat.lt_ge_cases (S (length (currentBatch s))) (batchSize env))
      as [Hlt | Hge].
    + destruct (deliver_below env s r Hq Hr Hlt) as (Hq' & Hfl & _ & Hcb).
      rewrite Hfl, Hcb. auto.
    + destruct (deliver_reach env s r Hq Hr Hge) as (Hq' & Hcb & _ & t & _ & Hfl).
      rewrite Hfl, Hcb. split; [exact Hq' |]. split; [exact Hpos |].
      apply Forall_app. split; [exact Hall |].
      constructor; [| constructor]. rewrite length_app. simpl. lia.
  - destruct Hq as (Hf & Hp & Hm).
    unfold hasRequired in Hr. apply negb_false_iff in Hr.
    unfold deliver, step, transform. rewrite Hm, Hr.
    rewrite settle_idle by exact Hf.
    unfold quiet. cbn. auto.
Qed.

Lemma deliverAll_chunks (rows : list RawRow) :
  forall s,
    quiet s -> length (currentBatch s) < batchSize env ->
    Forall (fun b => length b = batchSize env) (flushed s) ->
    quiet (deliverAll env s rows) /\
    length (currentBatch (deliverAll env s rows)) < batchSize env /\
    Forall (fun b => length b = batchSize env) (flushed (deliverAll env s rows)).
Proof.
  induction rows as [|r rows IH]; intros s Hq Hlen Hall; [auto |].
  simpl. destruct (deliver_chunks s r Hq Hlen Hall) as (Hq' & Hlen' & Hall').
  now apply IH.
Qed.

Lemma full_batches {A} (size : nat) (l : list (list A)) :
  Forall (fun b => length b = size) l ->
  map length l = repeat size (length l) /\
  length (concat l) = size * length l.
Proof.
  induction 1 as [|b l Hb _ [IH1 IH2]]; [split; [reflexivity | simpl; lia] |].
  simpl. rewrite IH1, length_app, IH2, Hb. split; [reflexivity | lia].
Qed.

End KeptUp.

(** ** Timely storage: the batches of 2500 rows *)

Section Timely.
Import JsNumber StreamProcessor Ledger.
Context `{NumberFormat}.
Variable env : Env.

#[local] Set Warnings "-clear-no-such-hyp".

Ltac unfold_step :=
  unfold step, transform, pipelineSettled, afterPipeline, commitNext,
    pollParked, pollMain, processBatch, takeBatch, drainCheck, finalize,
    pushError, pushRecord, setMain, setParked in *.

Lemma batchSize_pos : 0 < batchSize env.
Proof. unfold batchSize. destruct (configBatchSize env); lia. Qed.

Lemma timely_snoc (events : list Event) (e : Event) :
  forall s,
    timely env s (events ++ [e]) =
    timely env s events && timely env (run env s events) [e].
Proof.
  induction events as [|x events IH]; intros s; simpl.
  - reflexivity.
  - rewrite IH. now rewrite andb_assoc.
Qed.

(** What a callback other than the arrival of a record does to the
    batches. *)
Lemma step_batches (s : State) (e : Event) :
  accepted (arrival s e) = [] ->
  let s' := step env s e in
  (flushed s' = flushed s /\ currentBatch s' = currentBatch s /\
   (parked s' = parked s \/ (parked s = S (parked s') /\ currentBatch s = [])) /\
   (main s' = Piping -> main s = Piping)) \/
  (flushed s' = flushed s ++ [currentBatch s] /\ currentBatch s' = [] /\
   currentBatch s <> [] /\
   ((parked s = S (parked s') /\ main s' = main s) \/
    (parked s' = parked s /\ main s' <> Piping))).
Proof.
  intros Ha. cbv zeta.
  destruct s as [rn cb ip pc er fl pk m uc dl fs].
  unfold arrival in Ha. simpl in Ha.
  destruct e as [r | e | | |].
  - destruct m; try (left; repeat split; auto; easy).
    simpl in Ha. unfold verdict in Ha. unfold_step. simpl.
    destruct (falsy (r !! "id") || falsy (r !! "title")).
    + left; repeat split; auto; easy.
    + destruct (transformRow r); [discriminate Ha |].
      left; repeat split; auto; easy.
  - unfold_step. simpl. repeat case_match; simplify_eq/=.
    all: first [left; repeat split; auto; easy
               | right; repeat split; try easy;
                 right; split; [reflexivity | discriminate]].
  - unfold_step. simpl. repeat case_match; simplify_eq/=.
    all: left; repeat split; auto; easy.
  - unfold_step. simpl. repeat case_match; simplify_eq/=.
    all: first [left; repeat split; auto; easy
               | right; repeat split; try easy;
                 left; split; reflexivity].
  - unfold_step. simpl. repeat case_match; simplify_eq/=.
    all: first [left; repeat split; auto; easy
               | right; repeat split; try easy;
                 right; split; [reflexivity | discriminate]].
Qed.

(** What the arrival of a record does to the batches. *)
Lemma step_joins (s : State) (e : Event) (t : NormalizedRecord) rest :
  accepted (arrival s e) = t :: rest ->
  let s' := step env s e in
  let batch := currentBatch s ++ [t] in
  main s = Piping /\ main s' = Piping /\
  ((length batch < batchSize env /\ flushed s' = flushed s /\
    currentBatch s' = batch /\ parked s' = parked s) \/
   (batchSize env <= length batch /\ isProcessing s = true /\
    flushed s' = flushed s /\ currentBatch s' = batch /\
    parked s' = S (parked s)) \/
   (batchSize env <= length batch /\ isProcessing s = false /\
    flushed s' = flushed s ++ [batch] /\ currentBatch s' = [] /\
    parked s' = parked s)).
Proof.
  intros Ha. cbv zeta.
  destruct s as [rn cb ip pc er fl pk m uc dl fs].
  unfold arrival in Ha. simpl in Ha.
  destruct e as [r | e | | |]; try discriminate Ha.
  destruct m; try discriminate Ha.
  simpl in Ha. unfold verdict in Ha. unfold step, transform. simpl.
  destruct (falsy (r !! "id") || falsy (r !! "title")); [discriminate Ha |].
  destruct (transformRow r) as [t' | m]; [| discriminate Ha].
  injection Ha as -> _.
  split; [reflexivity |].
  unfold pushRecord. cbn [currentBatch].
  destruct (batchSize env <=? length (cb ++ [t]))%nat eqn:Hb.
  - apply Nat.leb_le in Hb.
    unfold processBatch. cbn [isProcessing].
    destruct ip.
    + split; [reflexivity |]. right. left. repeat split; easy.
    + unfold takeBatch. cbn [currentBatch].
      destruct (cb ++ [t]) eqn:Hcb; [destruct cb; discriminate Hcb |].
      split; [reflexivity |]. right. right. repeat split; easy.
  - apply Nat.leb_gt in Hb.
    split; [reflexivity |]. left. repeat split; easy.
Qed.

Lemma full_snoc (size : nat) batches (b : list NormalizedRecord) :
  full size batches -> length b = size -> full size (batches ++ [b]).
Proof.
  intros Hf Hb. apply Forall_app. split; [exact Hf |].
  constructor; [exact Hb | constructor].
Qed.

(** A callback of a timely schedule keeps the batches in step. *)
Lemma step_inStep (s : State) (e : Event) :
  inStep (batchSize env) s ->
  timely env s [e] = true ->
  inStep (batchSize env) (step env s e).
Proof.
  pose proof batchSize_pos as Hpos.
  intros Hs Ht. simpl in Ht. rewrite andb_true_r in Ht.
  destruct (accepted (arrival s e)) as [|t rest] eqn:Ha.
  - clear Ht.
    destruct (step_batches s e Ha) as
      [(Hfl & Hcb & Hpk & Hm) | (Hfl & Hcb & Hne & Hpk)];
      unfold inStep; rewrite Hfl, Hcb.
    + destruct Hs as [(Hfull & Hs) | (Hm' & Hcb' & Hlast)].
      * left. split; [exact Hfull |].
        destruct Hs as [(Hp & Hl) | [(Hp & Hl) | (Hm' & Hl)]].
        -- left. split; [| exact Hl]. destruct Hpk as [Hpk | (Hpk & _)]; lia.
        -- destruct Hpk as [Hpk | (Hpk & He)].
           ++ right. left. split; [lia | exact Hl].
           ++ rewrite He in Hl. simpl in Hl. lia.
        -- right. right. split; [| exact Hl]. intros Hp. apply Hm', Hm, Hp.
      * right. split; [intros Hp; apply Hm', Hm, Hp |]. split; assumption.
    + destruct Hs as [(Hfull & Hs) | (Hm' & Hcb' & Hlast)];
        [| contradiction].
      destruct Hs as [(Hp & Hl) | [(Hp & Hl) | (Hnp & [He | Hl])]];
        [| | contradiction |].
      * (* the batch left when the pipeline settles *)
        destruct Hpk as [(Hpk & _) | (_ & Hnp)]; [lia |].
        right. split; [exact Hnp |]. split; [reflexivity |].
        exists (flushed s), (currentBatch s).
        split; [reflexivity |]. split; [exact Hfull |].
        destruct (currentBatch s); [contradiction | simpl in *; lia].
      * (* a full batch that a call waited for *)
        left. split; [now apply full_snoc |].
        destruct Hpk as [(Hpk & _) | (Hpk & Hnp)].
        -- left. simpl. split; lia.
        -- right. right. split; [exact Hnp | now left].
      * left. split; [now apply full_snoc |].
        right. right. split; [| now left].
        destruct Hpk as [(_ & Hm) | (_ & Hm)]; [now rewrite Hm | exact Hm].
  - apply Nat.ltb_lt in Ht.
    destruct (step_joins s e t rest Ha) as (Hm & Hm' & Hcase).
    cbv zeta in Hcase.
    destruct Hs as [(Hfull & Hs) | (Hnp & _)]; [| contradiction].
    left.
    destruct Hcase as [(Hl & -> & -> & ->) | [(Hl & Hip & -> & -> & ->) |
                                               (Hl & Hip & -> & -> & ->)]].
    all: rewrite length_app in Hl; simpl in Hl.
    + split; [exact Hfull |]. left.
      destruct Hs as [(Hp & _) | [(Hp & Hlen) | (Hnp & _)]];
        [| lia | contradiction].
      split; [exact Hp |]. rewrite length_app. simpl. lia.
    + split; [exact Hfull |]. right. left.
      destruct Hs as [(Hp & _) | [(Hp & Hlen) | (Hnp & _)]];
        [| lia | contradiction].
      split; [lia |]. rewrite length_app. simpl. lia.
    + split; [apply full_snoc; [exact Hfull | rewrite length_app; simpl; lia] |].
      left.
      destruct Hs as [(Hp & _) | [(Hp & Hlen) | (Hnp & _)]];
        [| lia | contradiction].
      split; [exact Hp | simpl; lia].
Qed.

Lemma initial_inStep : inStep (batchSize env) initial.
Proof.
  left. split; [constructor |]. left. split; [reflexivity |].
  exact batchSize_pos.
Qed.

Lemma run_inStep (events : list Event) :
  timely env initial events = true ->
  inStep (batchSize env) (run env initial events).
Proof.
  induction events as [|e events IH] using rev_ind; intros Ht.
  - apply initial_inStep.
  - rewrite timely_snoc in Ht. apply andb_true_iff in Ht as [Ht He].
    rewrite run_snoc. apply step_inStep; [apply IH, Ht | exact He].
Qed.

(** A batch that holds more than the threshold stays as it is. *)
Lemma step_overfull (s : State) (e : Event) :
  overfull (batchSize env) s -> overfull (batchSize env) (step env s e).
Proof.
  unfold overfull. intros Hs.
  destruct (accepted (arrival s e)) as [|t rest] eqn:Ha.
  - destruct (step_batches s e Ha) as
      [(Hfl & Hcb & _) | (Hfl & Hcb & _)]; rewrite Hfl, Hcb; [exact Hs |].
    apply Exists_app. now left.
  - destruct (step_joins s e t rest Ha) as (_ & _ & Hcase).
    cbv zeta in Hcase.
    apply Exists_app in Hs as [Hs | Hs].
    + destruct Hcase as [(_ & -> & _) | [(_ & _ & -> & _) | (_ & _ & -> & _)]];
        apply Exists_app; left; [exact Hs | exact Hs |].
      apply Exists_app. now left.
    + apply Exists_cons in Hs as [Hs | Hs]; [| now apply Exists_nil in Hs].
      assert (Hlong : batchSize env < length (currentBatch s ++ [t]))
        by (rewrite length_app; simpl; lia).
      destruct Hcase as [(_ & -> & -> & _) | [(_ & _ & -> & -> & _) |
                                               (_ & _ & -> & -> & _)]].
      * apply Exists_app. right. now constructor.
      * apply Exists_app. right. now constructor.
      * apply Exists_app. left. apply Exists_app. right. now constructor.
Qed.

(** A record that joins a batch at the threshold makes it too long. *)
Lemma step_late (s : State) (e : Event) :
  timely env s [e] = false -> overfull (batchSize env) (step env s e).
Proof.
  intros Ht. simpl in Ht. rewrite andb_true_r in Ht.
  destruct (accepted (arrival s e)) as [|t rest] eqn:Ha; [discriminate Ht |].
  apply Nat.ltb_ge in Ht.
  destruct (step_joins s e t rest Ha) as (_ & _ & Hcase).
  cbv zeta in Hcase. unfold overfull.
  assert (Hlong : batchSize env < length (currentBatch s ++ [t]))
    by (rewrite length_app; simpl; lia).
  destruct Hcase as [(_ & -> & -> & _) | [(_ & _ & -> & -> & _) |
                                           (_ & _ & -> & -> & _)]].
  - apply Exists_app. right. now constructor.
  - apply Exists_app. right. now constructor.
  - apply Exists_app. left. apply Exists_app. right. now constructor.
Qed.

Lemma run_overfull (events : list Event) :
  timely env initial events = false ->
  overfull (batchSize env) (run env initial events).
Proof.
  induction events as [|e events IH] using rev_ind; intros Ht.
  - discriminate Ht.
  - rewrite timely_snoc in Ht. rewrite run_snoc.
    destruct (timely env initial events).
    + apply step_late. exact Ht.
    + apply step_overfull, IH. reflexivity.
Qed.

Lemma full_sizes (size : nat) (batches : list (list NormalizedRecord)) :
  full size batches ->
  length (concat batches) = size * length batches /\
  map length batches = repeat size (length batches).
Proof.
  induction 1 as [|b batches Hb _ (IHl & IHm)]; simpl.
  - split; [lia | reflexivity].
  - rewrite length_app, IHl, IHm, Hb. split; [lia | reflexivity].
Qed.

Lemma accepted_all (rows : list RawRow) :
  forallb hasRequired rows = true -> length (accepted rows) = length rows.
Proof.
  induction rows as [|r rows IH]; [reflexivity |]. simpl.
  intros Hr. apply andb_true_iff in Hr as [Hr Hrows].
  destruct (verdict_required 0 r Hr) as (t & ->). simpl. now rewrite IH.
Qed.

Lemma overfull_sizes (size : nat) (s : State) :
  overfull size s -> Exists (fun n => size < n) (batchSizes s).
Proof.
  unfold overfull, batchSizes. intros Hs.
  apply Exists_app in Hs as [Hs | Hs]; apply Exists_app.
  - left. induction Hs; simpl; [now left | now right].
  - right. apply Exists_cons in Hs as [Hs | Hs]; [| now apply Exists_nil in Hs].
    destruct (currentBatch s); [simpl in Hs; lia | now constructor].
Qed.

(** The batches of a timely run of 2500 records. *)
Lemma inStep_sizes (s : State) :
  inStep 1000 s ->
  length (concat (flushed s) ++ currentBatch s) = 2500 ->
  batchSizes s = [1000; 1000; 500] /\
  (main s = Piping \/ currentBatch s <> [] ->
   map length (flushed s) = [1000; 1000] /\ length (currentBatch s) = 500).
Proof.
  unfold batchSizes. rewrite length_app.
  intros [(Hfull & Hs) | (Hnp & Hcb & fulls & last & Hfl & Hfull & Hlast)] Hlen.
  - destruct (full_sizes 1000 _ Hfull) as (Hc & Hm). rewrite Hc in Hlen.
    destruct Hs as [(_ & Hl) | [(_ & Hl) | (_ & [He | Hl])]];
      [| lia | rewrite He in Hlen; simpl in Hlen; lia | lia].
    assert (Hk : length (flushed s) = 2) by lia.
    assert (Hr : length (currentBatch s) = 500) by lia.
    rewrite Hm, Hk, Hr. simpl.
    destruct (currentBatch s); [discriminate Hr |]. now split.
  - destruct (full_sizes 1000 _ Hfull) as (Hc & Hm).
    rewrite Hfl, Hcb, concat_app, length_app, Hc in Hlen.
    cbn [concat length] in Hlen. rewrite app_nil_r, Nat.add_0_r in Hlen.
    assert (Hk : length fulls = 2) by lia.
    assert (Hr : length last = 500) by lia.
    rewrite Hfl, Hcb, map_app, Hm, Hk. simpl. rewrite Hr.
    split; [reflexivity |]. intros [Hp | Hne]; contradiction.
Qed.

(** C1, amended.  With a batch size of 1000, let a schedule deliver 2500
    rows that have their required fields.  The batches that are taken,
    followed by the batch that waits to be taken if there is one, hold
    1000, 1000 and 500 records exactly when storage is timely under the
    schedule, that is, when no record joins a batch that has already
    reached the threshold.  Under a timely schedule, while the pipeline
    is open two batches of 1000 have been taken and 500 records wait;
    when the stream then ends they are taken by [processStream] itself,
    as the third batch, although they never reached the threshold; and
    whenever [processStream] has returned, exactly three batches have
    been taken, of 1000, 1000 and 500 records. *)
Theorem three_flushes_when_storage_is_timely (events : list Event) :
  batchSize env = 1000 ->
  length (delivered events) = 2500 ->
  forallb hasRequired (delivered events) = true ->
  let s := run env initial events in
  (timely env initial events = true <-> batchSizes s = [1000; 1000; 500]) /\
  (timely env initial events = true ->
   (main s = Piping ->
    map length (flushed s) = [1000; 1000] /\
    length (currentBatch s) = 500 /\
    let s' := finish env s StreamFinished in
    flushed s' = flushed s ++ [currentBatch s] /\
    map length (flushed s') = [1000; 1000; 500] /\
    currentBatch s' = [] /\
    flight s' = None) /\
   (forall summary,
       main s = Returned summary ->
       map length (flushed s) = [1000; 1000; 500])).
Proof.
  intros Hb Hlen Hall. cbv zeta.
  destruct (run_books env events) as (Hshape & Hbal & _).
  destruct Hbal as (_ & Hbooks & _).
  assert (Htotal : length (concat (flushed (run env initial events))
                           ++ currentBatch (run env initial events)) = 2500).
  { rewrite Hbooks, accepted_all by exact Hall. exact Hlen. }
  assert (Hsizes : timely env initial events = true ->
                   inStep 1000 (run env initial events)).
  { intros Ht. rewrite <- Hb. now apply run_inStep. }
  split.
  - split.
    + intros Ht. now apply inStep_sizes; [apply Hsizes |].
    + intros Hs. destruct (timely env initial events) eqn:Ht; [reflexivity |].
      apply run_overfull in Ht. rewrite Hb in Ht.
      apply overfull_sizes in Ht. rewrite Hs in Ht.
      rewrite !Exists_cons in Ht. rewrite Exists_nil in Ht. lia.
  - intros Ht.
    destruct (inStep_sizes _ (Hsizes Ht) Htotal) as (Hs & Hopen).
    split.
    + intros Hm. destruct (Hopen (or_introl Hm)) as (Hfl & Hcb).
      split; [exact Hfl |]. split; [exact Hcb |].
      destruct Hshape as (Hc & _).
      pose proof (finish_afterPipeline env _ StreamFinished Hc Hm eq_refl)
        as Hfin.
      cbv zeta in Hfin. destruct Hfin as (_ & _ & Hcb' & Hf' & Hfl').
      assert (Hlast : flushed (finish env (run env initial events) StreamFinished)
                      = flushed (run env initial events)
                        ++ [currentBatch (run env initial events)]).
      { rewrite Hfl'.
        destruct (currentBatch (run env initial events));
          [discriminate Hcb | reflexivity]. }
      split; [exact Hlast |]. split; [| split; assumption].
      rewrite Hlast, map_app, Hfl. simpl. now rewrite Hcb.
    + intros summary Hm.
      destruct Hshape as (_ & _ & _ & _ & Hret).
      destruct (Hret summary Hm) as (Hcb & _).
      unfold batchSizes in Hs. rewrite Hcb, app_nil_r in Hs. exact Hs.
Qed.
End Timely.

(** ** The importer under every schedule *)

Section EverySchedule.
Import StreamProcessor Ledger.
Context `{NumberFormat}.
Variable env : Env.

(** X1. Under every schedule, the batches that [processBatch] has taken,
    followed by the batch that is accumulating, hold the records of the
    rows that passed the transformer: each of them once, in the order of
    arrival.  When [processStream] returns a summary, the batch is empty:
    every such record has been taken for committing. *)
Theorem no_record_lost_or_duplicated (events : list Event) :
  let s := run env initial events in
  concat (flushed s) ++ currentBatch s = accepted (delivered events) /\
  (forall summary,
      main s = Returned summary ->
      currentBatch s = [] /\ flight s = None /\
      concat (flushed s) = accepted (delivered events)).
Proof.
  cbv zeta.
  destruct (run_books env events) as ((_ & _ & _ & _ & Hret) & Hbal & _).
  destruct Hbal as (_ & Hrec & _). split; [exact Hrec |].
  intros summary Hm. destruct (Hret summary Hm) as (Hcb & Hf & _).
  rewrite Hcb, app_nil_r in Hrec. auto.
Qed.

(** X2. Under every schedule, every row that reached the transformer is
    counted once: as committed, as an error row, as waiting in the batch,
    or as part of the batch in flight.  In a summary that [processStream]
    returns, [count] and [errorCount] add up to the number of rows. *)
Theorem every_row_is_accounted_for (events : list Event) :
  let s := run env initial events in
  rowNumber s = length (delivered events) /\
  length (delivered events) =
    processedCount s + length (errorRows s) + length (currentBatch s)
    + inFlight s /\
  (forall summary,
      main s = Returned summary ->
      count summary = processedCount s /\
      count summary + errorCount summary = length (delivered events)).
Proof.
  cbv zeta.
  destruct (run_books env events) as ((_ & _ & _ & _ & Hret) & Hbal & _).
  destruct Hbal as (Hrn & _ & _ & Hsum). rewrite Hrn in Hsum.
  split; [exact Hrn |]. split; [exact Hsum |].
  intros summary Hm. destruct (Hret summary Hm) as (Hcb & Hf & Hc & He & _).
  unfold inFlight in Hsum. rewrite Hf, Hcb in Hsum. simpl in Hsum.
  split; [exact Hc | lia].
Qed.

(** X3. Under every schedule, the error rows that carry a row number are
    those of the rows that the transformer refused, each once, in order
    and with its 1-based number; the other error rows, numbered -1, come
    from the committer.  The [errors] of a summary are the first ten
    error rows, and [errorCount] counts all of them. *)
Theorem rejected_rows_are_reported (events : list Event) :
  let s := run env initial events in
  List.filter fromTransformer (errorRows s) = rejected 0 (delivered events) /\
  (forall summary,
      main s = Returned summary ->
      errorCount summary = length (errorRows s) /\
      errors summary = firstn 10 (errorRows s) /\
      length (errors summary) = Nat.min 10 (errorCount summary)).
Proof.
  cbv zeta.
  destruct (run_books env events) as ((_ & _ & _ & _ & Hret) & Hbal & _).
  destruct Hbal as (_ & _ & Herr & _). split; [exact Herr |].
  intros summary Hm. destruct (Hret summary Hm) as (_ & _ & _ & He & Hs).
  split; [exact He |]. split; [exact Hs |].
  rewrite Hs, He. apply length_firstn.
Qed.

(** X4. Under every schedule, whenever no batch is being committed, as
    when [processStream] returns, storage has been called at least once
    and at most [MAX_RETRIES] times for every record taken for
    committing, hence at most three times per accepted row; the committer
    has waited at most twice per record, 500 or 1000 ms each time. *)
Theorem storage_calls_are_bounded (events : list Event) :
  let s := run env initial events in
  flight s = None ->
  let taken := length (concat (flushed s)) in
  taken <= upsertCalls s <= MAX_RETRIES * taken /\
  taken <= length (accepted (delivered events)) /\
  length (delays s) <= 2 * taken /\
  Forall (fun d => d = 500 \/ d = 1000) (delays s).
Proof.
  cbv zeta. intros Hf.
  pose proof (run_bounded env events initial initial_consistent
                initial_bounded) as (Hp & Hlo & Hhi & Hd & Hw).
  destruct (run_books env events) as (_ & (_ & Hrec & _) & _).
  apply (f_equal length) in Hrec. rewrite length_app in Hrec.
  unfold pending, MAX_RETRIES in *. rewrite Hf in *.
  repeat split; first [lia | exact Hw].
Qed.

(** X5. From any state and under every schedule, the row counter, the
    count of committed records and the number of calls of storage never
    decrease, and the error rows, the batches taken and the waits are
    only appended to. *)
Theorem progress_only_grows (s : State) (events : list Event) :
  let s' := run env s events in
  rowNumber s <= rowNumber s' /\
  processedCount s <= processedCount s' /\
  upsertCalls s <= upsertCalls s' /\
  errorRows s `prefix_of` errorRows s' /\
  flushed s `prefix_of` flushed s' /\
  delays s `prefix_of` delays s'.
Proof.
  cbv zeta. revert s.
  induction events as [|e events IH]; intros s; [now repeat split |].
  simpl. destruct (IH (step env s e)) as (A1 & A2 & A3 & A4 & A5 & A6).
  destruct (step_grows env s e) as (B1 & B2 & B3 & B4 & B5 & B6).
  repeat split; first [lia | etrans; eassumption].
Qed.

(** X6. Under every schedule, what [processStream] throws is the failure
    of the stream or the failure of the disconnect: a failure of storage
    is never thrown to the caller. *)
Theorem only_stream_and_disconnect_failures_are_thrown
    (events : list Event) (message : string) :
  main (run env initial events) = Threw message ->
  disconnect env = Some message \/
  exists code, In (EvEnd (StreamFailed code message)) events.
Proof.
  intros Hm. destruct (run_thrown env events message initial Hm)
    as [Hi | Hrest]; [discriminate Hi | exact Hrest].
Qed.

(** X7. Under every schedule, every record taken for committing or
    waiting in the batch has an identifier and a title that are not
    empty, an original title, numbers that are not NaN in revenue and
    budget, numbers that are present and not NaN in the rating, the vote
    count, the runtime, the popularity, the external rating and its
    votes (0 where the cell is absent, empty or not a number), and an
    array in each of its eight list fields read by [parseStringArray]. *)
Theorem records_for_storage_are_well_formed (events : list Event) :
  let s := run env initial events in
  forallb storable (concat (flushed s) ++ currentBatch s) = true.
Proof.
  cbv zeta.
  destruct (run_books env events) as (_ & (_ & Hrec & _) & _).
  rewrite Hrec. apply accepted_storable.
Qed.

End EverySchedule.

(** ** The importer when storage keeps up *)

Section WholeRun.
Import StreamProcessor Ledger.
Context `{NumberFormat}.
Variable env : Env.

(** The state in which [processStream] ends when storage keeps up. *)
Lemma finish_books (rows : list RawRow) (e : StreamEnd) :
  let s' := finish env (deliverAll env initial rows) e in
  balanced s' rows /\ settledShape s' /\
  (forall summary, main s' = Returned summary ->
     count summary = processedCount s' /\
     errorCount summary = length (errorRows s') /\
     errors summary = firstn 10 (errorRows s') /\
     count summary + errorCount summary = length rows).
Proof.
  cbv zeta. destruct (processStream_schedule env rows e) as (events & Hev & Hrows).
  rewrite Hev. destruct (run_books env events) as (Hshape & Hbal & _).
  rewrite Hrows in Hbal. split; [exact Hbal |]. split; [exact Hshape |].
  intros summary Hm.
  destruct Hshape as (_ & _ & _ & _ & Hret).
  destruct (Hret summary Hm) as (Hcb & Hf & Hc & He & Hs).
  destruct Hbal as (Hrn & _ & _ & Hsum).
  unfold inFlight in Hsum. rewrite Hf, Hcb in Hsum. simpl in Hsum.
  repeat split; try assumption. lia.
Qed.

(** X8. When storage keeps up, the rows that pass the transformer are
    flushed in full batches of the configured size, in order, whatever
    rows are refused in between; what is left below the threshold waits
    in the batch and is flushed by [processStream] when the stream has
    finished. *)
Theorem flush_sizes_when_storage_keeps_up (rows : list RawRow) :
  let s := deliverAll env initial rows in
  let n := length (accepted rows) in
  let size := batchSize env in
  map length (flushed s) = repeat size (n / size) /\
  length (currentBatch s) = n mod size /\
  concat (flushed s) ++ currentBatch s = accepted rows /\
  flushed (finish env s StreamFinished)
    = flushed s ++ (if (n mod size =? 0)%nat then [] else [currentBatch s]).
Proof.
  cbv zeta. pose proof (batchSize_positive env) as Hpos.
  destruct (deliverAll_chunks env rows initial initial_quiet Hpos
              (Forall_nil_2 _)) as (Hq & Hlen & Hall).
  destruct (deliverAll_schedule env rows initial) as (events & Hev & Hrows & _).
  destruct (run_books env events) as (_ & (_ & Hrec & _) & _).
  rewrite <- Hev, Hrows in Hrec.
  destruct (full_batches _ _ Hall) as (Hmap & Hcat).
  pose proof (f_equal length Hrec) as Hn. rewrite length_app, Hcat in Hn.
  set (s := deliverAll env initial rows) in *.
  assert (Hdiv : length (accepted rows) / batchSize env = length (flushed s)).
  { rewrite <- Hn. rewrite Nat.mul_comm, Nat.div_add_l by lia.
    rewrite Nat.div_small by exact Hlen. lia. }
  assert (Hmod : length (accepted rows) mod batchSize env
                 = length (currentBatch s)).
  { rewrite <- Hn. rewrite Nat.add_comm, Nat.mul_comm, Nat.Div0.mod_add.
    now apply Nat.mod_small. }
  rewrite Hdiv, Hmod. split; [exact Hmap |]. split; [reflexivity |].
  split; [exact Hrec |].
  destruct (finish_afterPipeline env s StreamFinished (quiet_consistent _ Hq)
              (proj2 (proj2 Hq)) eq_refl) as (_ & _ & _ & _ & Hfl).
  rewrite Hfl. now destruct (currentBatch s).
Qed.

(** X9. When storage keeps up, accepts every record and disconnects, the
    summary of a stream that finished counts the rows that passed the
    transformer as committed and the rows that it refused as errors, and
    its [errors] are the first ten refused rows with their numbers. *)
Theorem healthy_storage_summary (rows : list RawRow) :
  (forall n t, upsert env n t = None) ->
  disconnect env = None ->
  processStream env rows StreamFinished =
  Returned {| success := true;
              count := length (accepted rows);
              errorCount := length (rejected 0 rows);
              errors := firstn 10 (rejected 0 rows) |}.
Proof.
  intros Hok Hd.
  pose proof (deliverAll_quiet env rows initial initial_quiet) as Hq.
  destruct (finish_afterPipeline env (deliverAll env initial rows) StreamFinished
              (quiet_consistent _ Hq) (proj2 (proj2 Hq)) eq_refl)
    as (Hmain & _ & Hcb & Hf & _).
  unfold outcomeOf in Hmain. rewrite Hd in Hmain.
  destruct (finish_books rows StreamFinished) as ((Hrn & _ & Herr & Hsum) & _).
  destruct (processStream_schedule env rows StreamFinished)
    as (events & Hev & _).
  pose proof (run_no_commit_error env events Hok initial eq_refl) as Hall.
  rewrite <- Hev in Hall. apply filter_all in Hall.
  rewrite Hall in Herr.
  unfold inFlight in Hsum. rewrite Hf, Hcb, Hrn, Herr in Hsum. simpl in Hsum.
  pose proof (accepted_rejected_length rows 0) as Hlen.
  unfold processStream. rewrite Hmain, Herr. do 2 f_equal. lia.
Qed.

(** X10. When storage keeps up, [processStream] does not stay in one of
    its polling loops: it returns a summary or throws.  The summary
    accounts for every row of the stream and counts no more records than
    rows passed the transformer; what is thrown is the failure of the
    stream or of the disconnect. *)
Theorem processStream_settles (rows : list RawRow) (e : StreamEnd) :
  terminal (processStream env rows e) = true /\
  (forall summary,
      processStream env rows e = Returned summary ->
      count summary + errorCount summary = length rows /\
      count summary <= length (accepted rows)) /\
  (forall message,
      processStream env rows e = Threw message ->
      disconnect env = Some message \/
      exists code, e = StreamFailed code message).
Proof.
  pose proof (deliverAll_quiet env rows initial initial_quiet) as Hq.
  destruct (finish_books rows e) as (Hbal & _ & Hret).
  unfold processStream.
  destruct (pipelineSettled_cases env e (deliverAll env initial rows))
    as [Hpipe | (code & message & -> & Hpipe)].
  - destruct (finish_afterPipeline env (deliverAll env initial rows) e
                (quiet_consistent _ Hq) (proj2 (proj2 Hq)) Hpipe)
      as (Hmain & _).
    split; [| split].
    + rewrite Hmain. unfold outcomeOf. now destruct (disconnect env).
    + intros summary Hm. destruct (Hret summary Hm) as (Hc & He & _ & Hsum).
      split; [exact Hsum |].
      destruct Hbal as (_ & _ & Herr & _).
      pose proof (accepted_rejected_length rows 0) as Hlen.
      pose proof (List.filter_length_le fromTransformer
                    (errorRows (finish env (deliverAll env initial rows) e)))
        as Hle.
      rewrite Herr in Hle. lia.
    + intros m Hm. rewrite Hmain in Hm. unfold outcomeOf in Hm.
      destruct (disconnect env); [left; congruence | discriminate].
  - pose proof (finish_thrown env _ _ _ Hq Hpipe) as Hmain.
    split; [| split].
    + now rewrite Hmain.
    + intros summary Hm. congruence.
    + intros m Hm. right. exists code. congruence.
Qed.

End WholeRun.

(** ** No schedule ends in a deadlock *)

Section Liveness.
Import StreamProcessor Ledger.
Context `{NumberFormat}.
Variable env : Env.

Lemma finalize_terminal (s : State) : terminal (main (finalize env s)) = true.
Proof. unfold finalize. now destruct (disconnect env). Qed.

Lemma finalize_idle (s : State) : flight (finalize env s) = flight s.
Proof. unfold finalize. now destruct (disconnect env). Qed.

(** With nothing in flight, the timer of [processStream] and the commit
    that it may start bring [processStream] to its end. *)
Lemma idle_drains (s : State) :
  flight s = None -> isProcessing s = false ->
  main s <> Piping -> main s <> FinalFlushRunning ->
  (main s = Draining -> currentBatch s = []) ->
  terminal (main (settle env (step env s EvMain))) = true.
Proof.
  intros Hf Hp Hpipe Hrun Hdr.
  destruct s as [rn cb ip pc er fl pk m uc dl fs]. simpl in *. subst fl ip.
  destruct m as [| | | |summary|message]; try congruence.
  - (* parked before its flush *)
    unfold step, pollMain. cbn [main isProcessing].
    unfold takeBatch. cbn [currentBatch].
    destruct cb as [|t cb'].
    + unfold drainCheck. cbn [isProcessing currentBatch orb negb].
      rewrite bool_decide_eq_true_2 by reflexivity. cbn [negb].
      rewrite settle_idle by (rewrite finalize_idle; reflexivity).
      apply finalize_terminal.
    + erewrite settle_flight; [| | reflexivity]; [| discriminate].
      unfold landed, drainCheck. cbn [isProcessing currentBatch orb negb].
      rewrite bool_decide_eq_true_2 by reflexivity. cbn [negb].
      apply finalize_terminal.
  - (* waiting in [waitForProcessing] *)
    rewrite (Hdr eq_refl).
    unfold step, pollMain. cbn [main].
    unfold drainCheck. cbn [isProcessing currentBatch orb negb].
    rewrite bool_decide_eq_true_2 by reflexivity. cbn [negb].
    rewrite settle_idle by (rewrite finalize_idle; reflexivity).
    apply finalize_terminal.
  - now rewrite settle_idle.
  - now rewrite settle_idle.
Qed.

(** Once the pipeline has settled, letting the commit in flight end,
    then the timer of [processStream] fire, then the commit that it
    started end, brings [processStream] to its end. *)
Lemma settled_drains (s : State) :
  settledShape s -> main s <> Piping ->
  terminal (main (settle env (step env (settle env s) EvMain))) = true.
Proof.
  intros (Hc & Hown & Hrun & Hdr & Hret) Hpipe.
  destruct (flight s) as [[who batch k]|] eqn:Hf.
  - unfold consistent in Hc. rewrite Hf in Hc. simpl in Hc.
    destruct Hc as (Hip & Hne & _).
    rewrite (settle_flight env s who batch k Hne Hf).
    destruct who.
    + (* the commit of [processStream] itself *)
      destruct (Hown _ eq_refl eq_refl) as (Hm & Hcb).
      unfold landed, drainCheck. cbn [isProcessing currentBatch orb negb].
      rewrite Hcb, bool_decide_eq_true_2 by reflexivity. cbn [negb].
      set (s' := finalize env _).
      assert (Ht : terminal (main s') = true) by apply finalize_terminal.
      assert (Hfl : flight s' = None) by (subst s'; now rewrite finalize_idle).
      unfold step, pollMain.
      destruct (main s') eqn:Hm'; try discriminate Ht;
        rewrite settle_idle by exact Hfl; now rewrite Hm'.
    + (* a commit that the transformer started *)
      apply idle_drains; unfold landed; cbn; try reflexivity; try assumption.
      intros Hm. destruct (Hrun Hm) as (f & Hf' & Ho).
      injection Hf' as <-. discriminate Ho.
  - unfold consistent in Hc. rewrite Hf in Hc.
    rewrite (settle_idle env s Hf).
    apply idle_drains; try assumption.
    intros Hm. destruct (Hrun Hm) as (f & Hf' & _). discriminate Hf'.
Qed.

(** X11. No schedule leads into a deadlock: whatever has happened, once
    the pipeline settles there is a continuation, in which the commits
    in flight end and the timer of [processStream] fires once, after which
    [processStream] has returned or thrown. *)
Theorem no_schedule_deadlocks (events : list Event) (e : StreamEnd) :
  exists more,
    terminal (main (run env initial (events ++ EvEnd e :: more))) = true.
Proof.
  destruct (run_books env events) as (Hshape & _ & _).
  set (s := run env initial events) in *.
  pose proof (step_settledShape env s (EvEnd e) Hshape) as Hshape1.
  assert (Hpipe : main (step env s (EvEnd e)) <> Piping).
  { intros Hm. apply (step_piping env s (EvEnd e) Hshape) in Hm.
    destruct Hm as [_ Hm]. discriminate Hm. }
  set (s1 := step env s (EvEnd e)) in *.
  exists (repeat EvCommit (pending s1) ++
          EvMain :: repeat EvCommit (pending (step env (settle env s1) EvMain))).
  rewrite run_app. fold s. cbn [run fold_left].
  change (fold_left (step env) ?l ?a) with (run env a l).
  fold s1. rewrite run_app.
  change (run env s1 (repeat EvCommit (pending s1))) with (settle env s1).
  cbn [run fold_left].
  change (fold_left (step env) ?l ?a) with (run env a l).
  change (run env (step env (settle env s1) EvMain)
            (repeat EvCommit (pending (step env (settle env s1) EvMain))))
    with (settle env (step env (settle env s1) EvMain)).
  now apply settled_drains.
Qed.

(** X12. Under every schedule an error row has one of two sources: the
    committer, which numbers it -1, or the check of the required fields,
    which gives it the message of the missing field and the number of
    the row, between 1 and the number of rows read; converting a row
    that has its required fields never fails. *)
Theorem error_rows_have_two_sources (events : list Event) :
  let s := run env initial events in
  Forall (fun e => row e = (-1)%Z \/
                   (error e = missingRequired /\
                    (1 <= row e <= Z.of_nat (rowNumber s))%Z))
         (errorRows s).
Proof.
  cbv zeta.
  destruct (run_books env events) as (_ & (Hrn & _ & Herr & _) & _).
  assert (Hrej : forall rows n,
             Forall (fun e => error e = missingRequired /\
                              (Z.of_nat n < row e <= Z.of_nat (n + length rows))%Z)
                    (rejected n rows)).
  { induction rows as [|r rows IH]; intros n; [constructor |].
    simpl. specialize (IH (S n)).
    assert (Hweak : Forall (fun e => error e = missingRequired /\
                       (Z.of_nat n < row e <= Z.of_nat (n + S (length rows)))%Z)
                      (rejected (S n) rows)).
    { eapply Forall_impl; [exact IH |]. simpl. intros e (He & Hr).
      split; [exact He | lia]. }
    unfold verdict.
    destruct (falsy (r !! "id") || falsy (r !! "title")).
    - constructor; [| exact Hweak]. simpl. split; [reflexivity | lia].
    - destruct (transformRow_normal r) as (t & ->). exact Hweak. }
  specialize (Hrej (delivered events) 0). rewrite <- Herr in Hrej.
  rewrite Hrn. apply Forall_forall. intros e Hin.
  destruct (fromTransformer e) eqn:Hft.
  - right. rewrite Forall_forall in Hrej.
    destruct (Hrej e) as (He & Hr);
      [apply list_elem_of_In, filter_In; split;
         [now apply list_elem_of_In | exact Hft] |].
    split; [exact He | simpl in Hr; lia].
  - left. unfold fromTransformer in Hft. apply negb_false_iff in Hft.
    now apply Z.eqb_eq in Hft.
Qed.

End Liveness.

(** ** The two cast parsers, and the entries of the company list *)

Section ParserShapes.
Import Entries.
Context `{NumberFormat}.

Lemma castPrimary_wrap (wrap : JVal -> JVal) (s : string) :
  exists names,
    castPrimary (fun v => v) s = Normal names /\
    castPrimary wrap s = Normal (map wrap names).
Proof.
  assert (Hplain : exists names,
    (if includes " as " s
     then Normal (map (fun entry => JStr (trim (beforeAs entry))) (splitEntries s))
     else Normal (map (fun name => JStr (trim name)) (filterBoolean (splitComma s))))
    = Normal names /\
    (if includes " as " s
     then Normal (map (fun entry => wrap (JStr (trim (beforeAs entry))))
                      (splitEntries s))
     else Normal (map (fun name => wrap (JStr (trim name)))
                      (filterBoolean (splitComma s))))
    = Normal (map wrap names)).
  { destruct (includes " as " s); eexists; split; try reflexivity;
      now rewrite map_map. }
  destruct Hplain as (plain & Hid & Hwrap).
  unfold castPrimary. cbv zeta. rewrite Hid, Hwrap.
  destruct (startsWith "[" s && endsWithChar "]" s); [| now exists plain].
  destruct (JSON_parse s) as [[| | | |items|]|]; try now exists plain.
  eexists. split; [reflexivity | now rewrite map_map].
Qed.

(** X13. [parseCast] and [parseCastNames] read their input in the same
    way: on every input both return, and the list of [parseCast] is the
    list of [parseCastNames] with every name wrapped in an object whose
    only member is [name]. *)
Theorem parseCast_wraps_parseCastNames (input : JsInput) :
  exists names,
    parseCastNames input = Normal names /\
    parseCast input = Normal (map named names) /\
    forallb hasName (map named names) = true.
Proof.
  assert (Hnamed : forall names, forallb hasName (map named names) = true).
  { induction names as [|n names IH]; [reflexivity | exact IH]. }
  unfold parseCastNames, parseCast, castWith.
  destruct input as [| |s]; try (exists []; now repeat split).
  destruct (isEmpty s); [exists []; now repeat split |].
  destruct (castPrimary_wrap named s) as (names & Hn & Hw).
  exists names. rewrite Hn, Hw. simpl. repeat split. apply Hnamed.
Qed.

Lemma namesOf_hasName (pieces : list string) :
  forallb hasName (namesOf pieces) = true.
Proof. induction pieces as [|p pieces IH]; [reflexivity | exact IH]. Qed.

Lemma companyOf_hasName (c entry : JVal) :
  companyOf c = Normal entry -> hasName entry = true.
Proof.
  unfold companyOf.
  destruct c as [| b | n | s | items | ms]; simpl; try discriminate;
    intros [= <-]; reflexivity.
Qed.

Lemma mapM_companyOf_hasName (items : list JVal) :
  forall entries,
    mapM companyOf items = Normal entries -> forallb hasName entries = true.
Proof.
  induction items as [|c items IH]; intros entries; simpl.
  - now intros [= <-].
  - destruct (companyOf c) as [entry|] eqn:Hc; [| discriminate].
    destruct (mapM companyOf items) as [rest|]; [| discriminate].
    intros [= <-]. simpl. now rewrite (companyOf_hasName _ _ Hc), (IH _ eq_refl).
Qed.

(** X14. On every input [parseProductionCompanies] returns a list each
    entry of which is an object with a member [name], whichever of its
    formats the input was read in. *)
Theorem companies_have_names (input : JsInput) :
  exists companies,
    parseProductionCompanies input = Normal companies /\
    forallb hasName companies = true.
Proof.
  unfold parseProductionCompanies, companiesWith.
  destruct input as [| |s]; try (exists []; now split).
  destruct (isEmpty s); [exists []; now split |].
  assert (Hplain : exists cs,
             (if includesChar "|" s then Normal (namesOf (splitChar "|" s))
              else Normal (namesOf (filterBoolean (splitComma s)))) = Normal cs /\
             forallb hasName cs = true).
  { destruct (includesChar "|" s); eexists; split; try reflexivity;
      apply namesOf_hasName. }
  destruct Hplain as (plain & Hplain & Hnames).
  unfold companiesPrimary. rewrite Hplain.
  destruct (startsWith "[" s && endsWithChar "]" s);
    [| exists plain; now split].
  destruct (simpleCompany s); [eexists; now split |].
  destruct (JSON_parse s) as [[| | | |items|]|];
    try (exists plain; now split).
  destruct (mapM companyOf items) as [entries|] eqn:Hm;
    [| exists plain; now split].
  exists entries. split; [reflexivity |].
  now apply (mapM_companyOf_hasName items).
Qed.

End ParserShapes.

(** ** The header validator: what its verdict depends on *)

Section HeaderNames.
Import Validator.
Variable decode : list string -> CsvOutcome.

Lemma missingHeaders_same_names (h1 h2 : list string) :
  (forall h, In h REQUIRED_HEADERS -> (In h h1 <-> In h h2)) ->
  missingHeaders h1 = missingHeaders h2.
Proof.
  intros Hsame. unfold missingHeaders. apply filter_ext_in.
  intros h Hreq. f_equal.
  destruct (includesHeader h1 h) eqn:E1, (includesHeader h2 h) eqn:E2;
    try reflexivity.
  - apply includesHeader_In, (Hsame h Hreq), includesHeader_In in E1. congruence.
  - apply includesHeader_In, (Hsame h Hreq), includesHeader_In in E2. congruence.
Qed.

(** X15. On streams on which the decoder reaches its end, the verdict
    of [validateCsvHeaders] depends only on which of the required names
    occur in the first record: two such streams whose first records hold
    the same required names get the same verdict, whatever the order of
    the columns, their repetitions, the other columns and the records
    that the decoder emitted after the first. *)
Theorem header_verdict_depends_on_names_only
    (chunks1 chunks2 : list string) (headers1 headers2 : list string)
    (rest1 rest2 : list (list string)) :
  chunks1 <> [] -> chunks2 <> [] ->
  decode chunks1 = CsvRecords (headers1 :: rest1) ->
  decode chunks2 = CsvRecords (headers2 :: rest2) ->
  headers1 <> [] -> headers2 <> [] ->
  (forall h, In h REQUIRED_HEADERS -> (In h headers1 <-> In h headers2)) ->
  validateCsvHeaders decode chunks1 = validateCsvHeaders decode chunks2.
Proof.
  intros Hc1 Hc2 D1 D2 Hh1 Hh2 Hsame. unfold validateCsvHeaders.
  destruct chunks1 as [|a1 c1]; [congruence |].
  destruct chunks2 as [|a2 c2]; [congruence |].
  rewrite D1, D2.
  destruct headers1 as [|x1 hs1]; [congruence |].
  destruct headers2 as [|x2 hs2]; [congruence |].
  now rewrite (missingHeaders_same_names _ _ Hsame).
Qed.

End HeaderNames.

(** ** The replies to errors *)

Section Replies.
Import ErrorHandler.

(** X16. [handleHttpError] sends a reply unless the value thrown is
    [null] or [undefined] or has a code that [&&] keeps and that is not a
    string: then it throws a TypeError and sends nothing.  A reply that it
    sends carries its HTTP status in its body too, and [status] is
    ["error"].  The errors of the four classes that extend [AppError] are
    answered with 400, 404, 403 and 500 and with their message.  For a
    value that is not an [AppError] the status is 400, 404, 409, 413 or
    500, it is 500 when the value has no code, and outside development
    the outcome depends on the code only: the message of the error is not
    sent. *)
Theorem error_replies :
  (forall development thrown,
      (exists message, handleHttpError development thrown = Throw message) <->
      (exists null, thrown = Nullish null) \/
      (exists message, thrown = Other CodeOther message)) /\
  (forall development thrown reply,
      handleHttpError development thrown = Normal reply ->
      code reply = statusCode (body reply) /\ status (body reply) = "error") /\
  (forall development message details,
      exists r400 r404 r403 r500,
        handleHttpError development (ValidationError message details) = Normal r400 /\
        handleHttpError development (NotFoundError message details) = Normal r404 /\
        handleHttpError development (AuthorizationError message details) = Normal r403 /\
        handleHttpError development (DatabaseError message details) = Normal r500 /\
        code r400 = 400 /\ code r404 = 404 /\ code r403 = 403 /\ code r500 = 500 /\
        error (body r400) = message /\
        userMessage (body r400) = "输入验证失败: " +:+ message) /\
  (forall development code' message reply,
      handleHttpError development (Other code' message) = Normal reply ->
      In (code reply) [400; 404; 409; 413; 500]) /\
  (forall development message,
      exists reply,
        handleHttpError development (Other NoCode message) = Normal reply /\
        code reply = 500) /\
  (forall code' message1 message2,
      handleHttpError false (Other code' message1)
      = handleHttpError false (Other code' message2)).
Proof.
  split; [| split; [| split; [| split; [| split]]]].
  - intros development thrown. split.
    + intros (m & Hm). destruct thrown as [class message sc details | null | c message].
      * simpl in Hm. discriminate Hm.
      * left. now exists null.
      * right. exists message. destruct c as [| text |]; [| | reflexivity].
        -- simpl in Hm. discriminate Hm.
        -- simpl in Hm. repeat case_match; discriminate Hm.
    + intros [(null & ->) | (message & ->)].
      * destruct null; eexists; reflexivity.
      * eexists; reflexivity.
  - intros development [class message sc details | null | c message] reply Hr.
    + simpl in Hr. injection Hr as <-. now split.
    + destruct null; simpl in Hr; discriminate Hr.
    + destruct c as [| text |]; simpl in Hr; [| | discriminate Hr].
      * injection Hr as <-. now split.
      * repeat case_match; simplify_eq; now split.
  - intros development message details.
    do 4 eexists. repeat split; reflexivity.
  - intros development c message reply Hr.
    destruct c as [| text |]; simpl in Hr; [| | discriminate Hr].
    + injection Hr as <-. simpl. tauto.
    + repeat case_match; simplify_eq; simpl; tauto.
  - intros development message. eexists. split; reflexivity.
  - intros c message1 message2.
    destruct c as [| text |]; simpl; [reflexivity | | reflexivity].
    repeat (destruct (negb _ && _) || destruct (codeIs _ _)); reflexivity.
Qed.

End Replies.

(** ** The file importer *)

Section FileImport.
Import CsvImport.
Context `{NumberFormat}.

Lemma transformer_pushes_nothing (r : RawRow) (st : Store) :
  snd (transformer r st) = [].
Proof.
  unfold transformer.
  destruct (_ || _); [reflexivity |]. now destruct (transformRow r).
Qed.

(** The batch processor never sees a chunk: a row changes the store as
    the transformer does, whatever the storage. *)
Lemma feed_transformer (env : Storage) (st : Store) (r : RawRow) :
  feed env st r = fst (transformer r st).
Proof.
  unfold feed. pose proof (transformer_pushes_nothing r st) as Hp.
  destruct (transformer r st) as [st' pushed]. simpl in *. now subst.
Qed.

Lemma feed_books (env : Storage) (st : Store) (r : RawRow) :
  let st' := feed env st r in
  rowNumber st' = S (rowNumber st) /\
  length (batch st') + length (errorRows st')
    = S (length (batch st) + length (errorRows st)) /\
  processedCount st' = processedCount st /\
  inserts st' = inserts st.
Proof.
  cbv zeta. rewrite feed_transformer. unfold transformer.
  destruct (_ || _); [| destruct (transformRow r)]; simpl;
    rewrite ?length_app; simpl; repeat split; lia.
Qed.

Lemma pipeline_books (env : Storage) (rows : list RawRow) :
  forall st,
    let st' := fold_left (feed env) rows st in
    rowNumber st' = rowNumber st + length rows /\
    length (batch st') + length (errorRows st')
      = length (batch st) + length (errorRows st) + length rows /\
    processedCount st' = processedCount st /\
    inserts st' = inserts st.
Proof.
  induction rows as [|r rows IH]; intros st; cbv zeta.
  - simpl. repeat split; lia.
  - simpl. specialize (IH (feed env st r)). cbv zeta in IH.
    destruct IH as (A1 & A2 & A3 & A4).
    destruct (feed_books env st r) as (B1 & B2 & B3 & B4).
    repeat split; try congruence; lia.
Qed.

Lemma pipeline_storage (env env' : Storage) (rows : list RawRow) :
  forall st, fold_left (feed env) rows st = fold_left (feed env') rows st.
Proof.
  induction rows as [|r rows IH]; intros st; [reflexivity |].
  simpl. rewrite !feed_transformer. apply IH.
Qed.


(** X18. Neither the configured batch size nor the outcome of
    [createMany] has any influence on [importMovies]: two storages with
    the same outcome of the disconnect get the same array of records, in
    one call, and the caller gets the same result, also when the
    transaction failed. *)
Theorem file_import_ignores_storage (env env' : Storage) (source : Source) :
  disconnect env = disconnect env' ->
  outcome (importMovies env source) = outcome (importMovies env' source) /\
  stored (importMovies env source) = stored (importMovies env' source).
Proof.
  intros Hd. unfold importMovies.
  rewrite (pipeline_storage env env'), Hd.
  destruct (pipeline_books env' (rows source)
              {| batch := []; errorRows := []; rowNumber := 0;
                 processedCount := 0; inserts := [] |})
    as (_ & _ & _ & Hins).
  cbv zeta in Hins. simpl in Hins.
  set (st := fold_left (feed env') (rows source) _) in *. clearbody st.
  destruct (failure source); [now split |].
  assert (Hflush : forall e,
    errorRows (batchFlush e st) = errorRows st /\
    inserts (batchFlush e st) = match batch st with [] => [] | b => [b] end).
  { intros e. unfold batchFlush, processBatch. rewrite Hins.
    destruct (batch st) as [|x b]; [now split |]. simpl.
    destruct (createMany e 0 (x :: b)); now split. }
  destruct (Hflush env) as (E1 & I1). destruct (Hflush env') as (E2 & I2).
  simpl. now rewrite E1, E2, I1, I2.
Qed.

End FileImport.

(** ** After the return *)

Section AfterReturn.
Import StreamProcessor Ledger.
Context `{NumberFormat}.
Variable env : Env.

Lemma step_after_return (s : State) (e : Event) (summary : Summary) :
  settledShape s -> main s = Returned summary ->
  let s' := step env s e in
  main s' = Returned summary /\
  processedCount s' = processedCount s /\
  errorRows s' = errorRows s /\
  flushed s' = flushed s /\
  upsertCalls s' = upsertCalls s /\
  rowNumber s' = rowNumber s.
Proof.
  intros (Hc & _ & _ & _ & Hret) Hm. cbv zeta.
  destruct (Hret summary Hm) as (Hcb & Hf & _).
  unfold consistent in Hc. rewrite Hf in Hc.
  destruct s as [rn cb ip pc er fl pk m uc dl fs]. simpl in *. subst.
  destruct e; simpl; try (now repeat split).
  unfold pollParked. simpl. destruct pk; now repeat split.
Qed.

(** X19. The summary is final: once [processStream] has returned it,
    no callback that still runs changes what it reports.  Nothing is
    committed, no error row is written, no batch is taken, and storage
    is not called after the return. *)
Theorem nothing_happens_after_return
    (events more : list Event) (summary : Summary) :
  main (run env initial events) = Returned summary ->
  let s := run env initial events in
  let s' := run env initial (events ++ more) in
  main s' = Returned summary /\
  processedCount s' = processedCount s /\
  errorRows s' = errorRows s /\
  flushed s' = flushed s /\
  upsertCalls s' = upsertCalls s /\
  rowNumber s' = rowNumber s.
Proof.
  intros Hm. cbv zeta. rewrite run_app.
  destruct (run_books env events) as (Hshape & _ & _).
  revert Hm Hshape. generalize (run env initial events) as s.
  induction more as [|e more IH]; intros s Hm Hshape; [now repeat split |].
  simpl.
  destruct (step_after_return s e summary Hshape Hm)
    as (A1 & A2 & A3 & A4 & A5 & A6).
  destruct (IH (step env s e) A1 (step_settledShape env s e Hshape))
    as (B1 & B2 & B3 & B4 & B5 & B6).
  repeat split; congruence.
Qed.

End AfterReturn.

(** ** Closed instances of the properties of the importer *)

Section MoreInstances.
Import StreamProcessor Ledger Samples Scenarios.

(** C1, amended, on [overlapping] and on [wokenInTime]. *)
Lemma timely_three_flushes_witness :
  let env := acceptingEnv 1000 in
  map length (flushed (@run integerFormat env initial overlapping))
    = [1000; 1000; 500] /\
  map length (flushed (@run integerFormat env initial wokenInTime))
    = [1000; 1000; 500].
Proof.
  cbv zeta. split.
  - pose proof (@three_flushes_when_storage_is_timely integerFormat
                  (acceptingEnv 1000) overlapping) as W.
    cbv zeta in W.
    destruct W as (_ & W);
      [reflexivity | vm_compute; reflexivity | vm_compute; reflexivity |].
    destruct W as (_ & W); [vm_compute; reflexivity |].
    apply (W {| success := true; count := 2500; errorCount := 0; errors := [] |}).
    vm_compute. reflexivity.
  - pose proof (@three_flushes_when_storage_is_timely integerFormat
                  (acceptingEnv 1000) wokenInTime) as W.
    cbv zeta in W.
    destruct W as (_ & W);
      [reflexivity | vm_compute; reflexivity | vm_compute; reflexivity |].
    destruct W as (_ & W); [vm_compute; reflexivity |].
    apply (W {| success := true; count := 2500; errorCount := 0; errors := [] |}).
    vm_compute. reflexivity.
Defined.

(** X1 on [mixedSchedule]. *)
Lemma no_record_lost_witness :
  let s := @run integerFormat (acceptingEnv 2) initial mixedSchedule in
  exists summary,
    main s = Returned summary /\
    currentBatch s = [] /\
    map id (concat (flushed s)) = ["1"; "2"].
Proof.
  cbv zeta. eexists. split; [vm_compute; reflexivity |].
  destruct (@no_record_lost_or_duplicated integerFormat (acceptingEnv 2)
              mixedSchedule) as [_ W].
  cbv zeta in W. edestruct W as (W1 & _ & W2); [vm_compute; reflexivity |].
  split; [exact W1 |]. rewrite W2. vm_compute. reflexivity.
Defined.

(** X2 on [mixedSchedule]. *)
Lemma every_row_witness :
  let s := @run integerFormat (acceptingEnv 2) initial mixedSchedule in
  exists summary,
    main s = Returned summary /\
    count summary + errorCount summary = 3.
Proof.
  cbv zeta. eexists. split; [vm_compute; reflexivity |].
  destruct (@every_row_is_accounted_for integerFormat (acceptingEnv 2)
              mixedSchedule) as (_ & _ & W).
  cbv zeta in W. edestruct W as (_ & W2); [vm_compute; reflexivity |].
  exact W2.
Defined.

(** X3 on [mixedSchedule]. *)
Lemma rejected_rows_witness :
  let s := @run integerFormat (acceptingEnv 2) initial mixedSchedule in
  List.filter fromTransformer (errorRows s)
    = [{| row := 2%Z; error := "缺少必填字段 ID 或 title" |}] /\
  exists summary,
    main s = Returned summary /\
    length (errors summary) = Nat.min 10 (errorCount summary).
Proof.
  cbv zeta.
  destruct (@rejected_rows_are_reported integerFormat (acceptingEnv 2)
              mixedSchedule) as (W1 & W).
  cbv zeta in W. split; [rewrite W1; vm_compute; reflexivity |].
  eexists. split; [vm_compute; reflexivity |].
  edestruct W as (_ & _ & W2); [vm_compute; reflexivity |]. exact W2.
Defined.

(** X6 on a stream that breaks. *)
Lemma thrown_failure_witness :
  disconnect (acceptingEnv 2) = Some "write EPIPE" \/
  exists code, In (EvEnd (StreamFailed code "write EPIPE")) brokenPipe.
Proof.
  apply (@only_stream_and_disconnect_failures_are_thrown integerFormat
           (acceptingEnv 2) brokenPipe "write EPIPE").
  vm_compute. reflexivity.
Defined.

(** X9 on [mixedRows]. *)
Lemma healthy_storage_witness :
  @processStream integerFormat (acceptingEnv 2) mixedRows StreamFinished =
  Returned {| success := true; count := 2; errorCount := 1;
              errors := [{| row := 2%Z; error := "缺少必填字段 ID 或 title" |}] |}.
Proof.
  rewrite (@healthy_storage_summary integerFormat (acceptingEnv 2) mixedRows
             (fun _ _ => eq_refl) eq_refl).
  vm_compute. reflexivity.
Defined.

(** X10 on [mixedRows]. *)
Lemma processStream_settles_witness :
  exists summary,
    @processStream integerFormat (acceptingEnv 2) mixedRows StreamFinished
      = Returned summary /\
    count summary + errorCount summary = 3 /\ count summary <= 2.
Proof.
  eexists. split; [vm_compute; reflexivity |].
  destruct (@processStream_settles integerFormat (acceptingEnv 2) mixedRows
              StreamFinished) as (_ & W & _).
  edestruct W as (W1 & W2); [vm_compute; reflexivity |].
  split; [exact W1 | exact W2].
Defined.

(** X19 on [mixedSchedule], followed by timers and a commit event. *)
Lemma after_return_witness :
  let s := @run integerFormat (acceptingEnv 2) initial mixedSchedule in
  let s' := @run integerFormat (acceptingEnv 2) initial
              (mixedSchedule ++ [EvPoll; EvCommit; EvMain]) in
  main s' = main s /\ processedCount s' = 2 /\ upsertCalls s' = 2.
Proof.
  cbv zeta.
  edestruct (@nothing_happens_after_return integerFormat (acceptingEnv 2)
               mixedSchedule [EvPoll; EvCommit; EvMain])
    as (W1 & W2 & _ & _ & W3 & _); [vm_compute; reflexivity |].
  split; [rewrite W1; vm_compute; reflexivity |].
  split; [rewrite W2 | rewrite W3]; vm_compute; reflexivity.
Defined.

(** X4 on [mixedSchedule]. *)
Lemma storage_calls_witness :
  let s := @run integerFormat (acceptingEnv 2) initial mixedSchedule in
  2 <= upsertCalls s <= 6 /\ length (delays s) <= 4.
Proof.
  cbv zeta.
  destruct (@storage_calls_are_bounded integerFormat (acceptingEnv 2)
              mixedSchedule) as (W1 & _ & W2 & _); [vm_compute; reflexivity |].
  split; [exact W1 | exact W2].
Defined.

End MoreInstances.

(** ** Closed instances of the properties of the validator and of the
    file importer *)

Section ImportInstances.
Import Validator CsvImport Samples ImportScenarios.

(** X15 on the header [id,title] and on [shuffledHeader]. *)
Lemma header_verdict_witness :
  validateCsvHeaders observed shortHeader
  = validateCsvHeaders observed shuffledHeader.
Proof.
  apply (header_verdict_depends_on_names_only observed
           shortHeader shuffledHeader
           ["id"; "title"] ["title"; "extra"; "id"; "id"] [] []);
    try discriminate; try reflexivity.
  intros h Hreq. simpl in Hreq.
  repeat (destruct Hreq as [<- | Hreq]; [simpl; intuition discriminate |]).
  destruct Hreq.
Defined.


(** X18 on [mixedFile]: the failing and the healthy storage. *)
Lemma file_import_storage_witness :
  outcome (@importMovies integerFormat failingStorage mixedFile)
  = outcome (@importMovies integerFormat healthyStorage mixedFile).
Proof.
  exact (proj1 (@file_import_ignores_storage integerFormat failingStorage
                  healthyStorage mixedFile eq_refl)).
Defined.

End ImportInstances.
